(** * Document structure inference engine (app.py): a shallow embedding

    The engine turns the styled text lines of a paginated document into a
    title and an outline of levelled headings.  This development embeds
    the functions of [app.py] and proves the properties its specification
    states about them.

    Conventions of the embedding.
    - Python [float] values (font sizes, coordinates, densities, scores)
      are exact rationals [Q]; the constants [0.5], [0.2], [0.6], [1e-6]
      are the rationals they denote.  Comparisons and dictionary keys use
      numeric equality ([Qeq]), as Python does.
    - The heading scorer compares a computed ratio with thresholds, so
      rounding decides which lines it keeps; it is embedded a second time
      on binary64 floats ([Float64], [FloatEngine]), and what it keeps is
      stated on that embedding.
    - Python [int] values are [Z] (page numbers, style flags, the heading
      points) or [nat] (lengths and counts).
    - Text is a [string] of ASCII characters; the character classes follow
      Python's [str] methods and [re] module on that range.
    - An operation that raises in Python returns [Raise]; everything else
      returns [Ok]. *)

From Stdlib Require Import Bool Arith ZArith QArith Qround Qabs Lia Lqa List
  Ascii String Permutation Sorted DecimalString.
From Stdlib Require SpecFloat.
Import ListNotations.

Set Implicit Arguments.

(** ** Exceptions *)

Inductive exn : Type := ValueError | ZeroDivisionError | IndexError.

Inductive result (A : Type) : Type :=
| Ok (a : A)
| Raise (e : exn).

Arguments Ok {A} a.
Arguments Raise {A} e.

Definition bind {A B : Type} (m : result A) (f : A -> result B) : result B :=
  match m with
  | Ok a => f a
  | Raise e => Raise e
  end.

Notation "x <- m ;; k" := (bind m (fun x => k))
  (at level 61, m at next level, right associativity).

(** [[f(x) for x in l]] where [f] may raise: left to right, first error wins. *)
Fixpoint mapM {A B : Type} (f : A -> result B) (l : list A) : result (list B) :=
  match l with
  | [] => Ok []
  | x :: l' => y <- f x ;; ys <- mapM f l' ;; Ok (y :: ys)
  end.

(** ** Characters and strings *)

Module Text.

Local Open Scope char_scope.
Local Open Scope string_scope.

Definition code (c : ascii) : nat := nat_of_ascii c.

Definition in_range (lo hi c : ascii) : bool :=
  (code lo <=? code c)%nat && (code c <=? code hi)%nat.

Definition is_digit (c : ascii) : bool := in_range "0" "9" c.
Definition is_upper (c : ascii) : bool := in_range "A" "Z" c.
Definition is_lower (c : ascii) : bool := in_range "a" "z" c.

(** [str.isspace] on ASCII: TAB, LF, VT, FF, CR, FS, GS, RS, US and space. *)
Definition is_space (c : ascii) : bool :=
  let n := code c in
  ((9 <=? n) && (n <=? 13) || (28 <=? n) && (n <=? 32))%nat.

(** [\w] on ASCII: letters, digits and the underscore. *)
Definition is_word (c : ascii) : bool :=
  is_digit c || is_upper c || is_lower c || Ascii.eqb c "_".

Definition to_lower (c : ascii) : ascii :=
  if is_upper c then ascii_of_nat (code c + 32) else c.

Definition to_upper (c : ascii) : ascii :=
  if is_lower c then ascii_of_nat (code c - 32) else c.

(** [s.lstrip()], [s.rstrip()], [s.strip()] *)
Fixpoint lstrip (s : string) : string :=
  match s with
  | String c s' => if is_space c then lstrip s' else s
  | EmptyString => EmptyString
  end.

Fixpoint rstrip (s : string) : string :=
  match s with
  | String c s' =>
      match rstrip s' with
      | EmptyString => if is_space c then EmptyString else String c EmptyString
      | r => String c r
      end
  | EmptyString => EmptyString
  end.

Definition strip (s : string) : string := rstrip (lstrip s).

(** [s.split()]: the maximal runs of non-whitespace characters.
    [cur] is the word being read, if any. *)
Fixpoint split_aux (cur : option string) (s : string) : list string :=
  match s with
  | EmptyString => match cur with Some w => [w] | None => [] end
  | String c s' =>
      if is_space c then
        match cur with
        | Some w => w :: split_aux None s'
        | None => split_aux None s'
        end
      else
        match cur with
        | Some w => split_aux (Some (w ++ String c EmptyString)) s'
        | None => split_aux (Some (String c EmptyString)) s'
        end
  end.

Definition split (s : string) : list string := split_aux None s.

(** [sep.join(l)] *)
Fixpoint join (sep : string) (l : list string) : string :=
  match l with
  | [] => EmptyString
  | [x] => x
  | x :: l' => x ++ sep ++ join sep l'
  end.

(** ["".join(l)] *)
Definition concat_all (l : list string) : string := fold_right append EmptyString l.

Fixpoint existsb_str (f : ascii -> bool) (s : string) : bool :=
  match s with
  | EmptyString => false
  | String c s' => f c || existsb_str f s'
  end.

(** [s.isupper()]: some cased character, and no lowercase one. *)
Definition isupper (s : string) : bool :=
  existsb_str is_upper s && negb (existsb_str is_lower s).

(** [s.endswith(c)] for a one-character suffix. *)
Fixpoint ends_with_char (c : ascii) (s : string) : bool :=
  match s with
  | EmptyString => false
  | String d EmptyString => Ascii.eqb c d
  | String _ s' => ends_with_char c s'
  end.

(** [not s] *)
Definition is_empty (s : string) : bool :=
  match s with EmptyString => true | _ => false end.

End Text.

(** ** Regular expressions

    The fragment of Python's [re] syntax the program uses, as a syntax tree,
    with a backtracking matcher.  Only the existence of a match is observed
    by the program ([re.match] and [re.search] used as booleans), so greedy
    and lazy repetition coincide. *)

Module Re.

Import Text.
Local Open Scope char_scope.

(** Members of a bracketed set, and the escapes [\d], [\s], [\w]. *)
Inductive citem : Type :=
| CChar (c : ascii)
| CRange (lo hi : ascii)
| CDigit
| CSpace
| CWord.

Inductive re : Type :=
| Eps
| Bol                                    (* ^ *)
| Eol                                    (* $ *)
| WordB                                  (* \b *)
| Dot                                    (* . *)
| CSet (neg : bool) (items : list citem) (* [...] and [^...], a literal, \d *)
| Cat (r1 r2 : re)
| Alt (r1 r2 : re)
| Star (r : re).

Definition item_match (it : citem) (c : ascii) : bool :=
  match it with
  | CChar d => Ascii.eqb c d
  | CRange lo hi => in_range lo hi c
  | CDigit => is_digit c
  | CSpace => is_space c
  | CWord => is_word c
  end.

(** With [re.IGNORECASE] a character belongs to a set when one of its case
    variants does; negation applies afterwards. *)
Definition set_match (ic neg : bool) (items : list citem) (c : ascii) : bool :=
  xorb neg
    (existsb (fun it =>
        item_match it c
        || (ic && (item_match it (to_lower c) || item_match it (to_upper c))))
      items).

Definition opt_word (p : option ascii) : bool :=
  match p with Some c => is_word c | None => false end.

Definition head_word (s : string) : bool :=
  match s with String c _ => is_word c | EmptyString => false end.

(** [$] without [re.MULTILINE]: the end, or just before a final newline. *)
Definition at_end (s : string) : bool :=
  match s with
  | EmptyString => true
  | String c EmptyString => Ascii.eqb c "010"
  | _ => false
  end.

(** The repetition [r*]: [step] tries [r] once with a continuation, [k]
    is what follows the repetition.  Every round must consume input, so
    [n] rounds suffice on a text of length [n]. *)
Fixpoint star_loop
    (step : (option ascii -> string -> bool) -> option ascii -> string -> bool)
    (k : option ascii -> string -> bool)
    (n : nat) (p : option ascii) (s : string) {struct n} : bool :=
  if k p s then true
  else
    match n with
    | O => false
    | S n' =>
        step (fun p' s' =>
                if (String.length s' <? String.length s)%nat
                then star_loop step k n' p' s' else false)
          p s
    end.

(** [rmatch ic r k p s]: can [r] match a prefix of [s], the character
    before [s] being [p] ([None] at the start of the text), so that the
    continuation [k] accepts what is left. *)
Fixpoint rmatch (ic : bool) (r : re) (k : option ascii -> string -> bool)
    (p : option ascii) (s : string) {struct r} : bool :=
  match r with
  | Eps => k p s
  | Bol => match p with None => k p s | Some _ => false end
  | Eol => if at_end s then k p s else false
  | WordB => if xorb (opt_word p) (head_word s) then k p s else false
  | Dot =>
      match s with
      | String c s' => if Ascii.eqb c "010" then false else k (Some c) s'
      | EmptyString => false
      end
  | CSet neg items =>
      match s with
      | String c s' => if set_match ic neg items c then k (Some c) s' else false
      | EmptyString => false
      end
  | Cat r1 r2 => rmatch ic r1 (rmatch ic r2 k) p s
  | Alt r1 r2 => if rmatch ic r1 k p s then true else rmatch ic r2 k p s
  | Star r1 => star_loop (rmatch ic r1) k (String.length s) p s
  end.

(** [re.match(r, s)]: a match starting at the first character. *)
Definition py_match (ic : bool) (r : re) (s : string) : bool :=
  rmatch ic r (fun _ _ => true) None s.

(** [re.search(r, s)]: a match starting at some position. *)
Fixpoint search_from (ic : bool) (r : re) (p : option ascii) (s : string) : bool :=
  if rmatch ic r (fun _ _ => true) p s then true
  else
    match s with
    | String c s' => search_from ic r (Some c) s'
    | EmptyString => false
    end.

Definition py_search (ic : bool) (r : re) (s : string) : bool :=
  search_from ic r None s.

(** *** Syntax helpers *)

Definition chr (c : ascii) : re := CSet false [CChar c].
Definition digit : re := CSet false [CDigit].
Definition space : re := CSet false [CSpace].
Definition word : re := CSet false [CWord].
Definition rng (lo hi : ascii) : re := CSet false [CRange lo hi].
Definition plus (r : re) : re := Cat r (Star r).
Definition opt (r : re) : re := Alt r Eps.

Fixpoint seq (l : list re) : re :=
  match l with
  | [] => Eps
  | [r] => r
  | r :: l' => Cat r (seq l')
  end.

Fixpoint alts (l : list re) : re :=
  match l with
  | [] => CSet false []
  | [r] => r
  | r :: l' => Alt r (alts l')
  end.

(** A literal string. *)
Fixpoint lit (s : string) : re :=
  match s with
  | EmptyString => Eps
  | String c EmptyString => chr c
  | String c s' => Cat (chr c) (lit s')
  end.

(** [r{n}] *)
Fixpoint times (n : nat) (r : re) : re :=
  match n with
  | O => Eps
  | S n' => Cat r (times n' r)
  end.

(** [r{0,n}] *)
Fixpoint upto (n : nat) (r : re) : re :=
  match n with
  | O => Eps
  | S n' => opt (Cat r (upto n' r))
  end.

(** [r{m,n}] and [r{m,}] *)
Definition between (m n : nat) (r : re) : re := Cat (times m r) (upto (n - m) r).
Definition at_least (m : nat) (r : re) : re := Cat (times m r) (Star r).

End Re.

(** ** Configuration *)

Definition MIN_HEADING_WORDS : nat := 2.
Definition MAX_HEADING_WORDS : nat := 15.
Definition MIN_PARAGRAPH_WORDS : nat := 8.
Definition MAX_HEADING_DENSITY : Q := 6 # 10.
Definition HEADING_SCORE_THRESHOLD : Q := 5.
Definition TITLE_CANDIDATE_PAGES : Z := 1.

(** ** Line filter and classifier *)

Module Classify.

Import Text Re.
Local Open Scope char_scope.
Local Open Scope string_scope.

Definition month_names : list string :=
  ["Jan"; "Feb"; "Mar"; "Apr"; "May"; "Jun";
   "Jul"; "Aug"; "Sep"; "Oct"; "Nov"; "Dec"].

Definition day_names : list string :=
  ["Mon"; "Tue"; "Wed"; "Thu"; "Fri"; "Sat"; "Sun"].

(** [BLOCKLIST_REGEX], in the order of the source. *)
Definition BLOCKLIST_REGEX : list re :=
  [ (* "^\d+$" *)
    seq [Bol; plus digit; Eol];
    (* "^[ivxlcdm]+$" *)
    seq [Bol;
         plus (CSet false [CChar "i"; CChar "v"; CChar "x"; CChar "l";
                           CChar "c"; CChar "d"; CChar "m"]);
         Eol];
    (* "^[a-z]$" *)
    seq [Bol; rng "a" "z"; Eol];
    (* "^Table of Contents$" *)
    seq [Bol; lit "Table of Contents"; Eol];
    (* "^Appendix$" *)
    seq [Bol; lit "Appendix"; Eol];
    (* "^Index$" *)
    seq [Bol; lit "Index"; Eol];
    (* "^References$" *)
    seq [Bol; lit "References"; Eol];
    (* "^Bibliography$" *)
    seq [Bol; lit "Bibliography"; Eol];
    (* "^\s*$" *)
    seq [Bol; Star space; Eol];
    (* "^[^a-zA-Z0-9]+$" *)
    seq [Bol;
         plus (CSet true [CRange "a" "z"; CRange "A" "Z"; CRange "0" "9"]);
         Eol];
    (* "^(Chapter|Section|Fig|Figure|Table)\b" *)
    seq [Bol;
         alts [lit "Chapter"; lit "Section"; lit "Fig"; lit "Figure"; lit "Table"];
         WordB];
    (* "\b\d{1,2}(st|nd|rd|th)?\s+(Jan|Feb|...|Dec)[a-z]*\b" *)
    seq [WordB; between 1 2 digit;
         opt (alts [lit "st"; lit "nd"; lit "rd"; lit "th"]);
         plus space;
         alts (map lit month_names);
         Star (rng "a" "z");
         WordB];
    (* "\b(Mon|Tue|Wed|Thu|Fri|Sat|Sun)\w*\b" *)
    seq [WordB; alts (map lit day_names); Star word; WordB];
    (* "^\d{1,2}/\d{1,2}/\d{2,4}$" *)
    seq [Bol; between 1 2 digit; chr "/"; between 1 2 digit; chr "/";
         between 2 4 digit; Eol];
    (* "^\d{4}-\d{2}-\d{2}$" *)
    seq [Bol; times 4 digit; chr "-"; times 2 digit; chr "-"; times 2 digit; Eol]
  ].

(** [is_blocked]: the patterns are compiled with [re.IGNORECASE] and tried
    with [match], that is, at the start of the trimmed text. *)
Definition is_blocked (text : string) : bool :=
  let text := strip text in
  is_empty text || existsb (fun p => py_match true p text) BLOCKLIST_REGEX.

(** The five paragraph indicators of [is_paragraph]. *)
Definition paragraph_indicators : list re :=
  [ (* "^[A-Z][a-z].*[.!?]$" *)
    seq [Bol; rng "A" "Z"; rng "a" "z"; Star Dot;
         CSet false [CChar "."; CChar "!"; CChar "?"]; Eol];
    (* ".*\b[a-z]{3,}\b.*" *)
    seq [Star Dot; WordB; at_least 3 (rng "a" "z"); WordB; Star Dot];
    (* ".*,\s[a-z].*" *)
    seq [Star Dot; chr ","; space; rng "a" "z"; Star Dot];
    (* ".*\b(and|the|of|in|to)\b" *)
    seq [Star Dot; WordB;
         alts [lit "and"; lit "the"; lit "of"; lit "in"; lit "to"]; WordB];
    (* ".{50,}" *)
    at_least 50 Dot
  ].

(** [sum(1 for p in ps if cond(p))] *)
Definition count_true {A : Type} (f : A -> bool) (l : list A) : nat :=
  List.length (filter f l).

Definition is_paragraph (text : string) : bool :=
  let text := strip text in
  if is_empty text || (List.length (split text) <? MIN_PARAGRAPH_WORDS)%nat then false
  else (3 <=? count_true (fun p => py_search false p text) paragraph_indicators)%nat.

(** The heading indicators of [is_heading_like], each with its points. *)
Definition not_terminal : re := CSet true [CChar "."; CChar "!"; CChar "?"].

Definition heading_indicators : list (re * Z) :=
  [ (* ^ ( [A-Z] [a-z]* ) ( \s+ [A-Z] [a-z]* )* $   (tokens spaced out) *)
    (seq [Bol; Cat (rng "A" "Z") (Star (rng "a" "z"));
          Star (seq [plus space; rng "A" "Z"; Star (rng "a" "z")]); Eol], 2%Z);
    (* "^[A-Z][a-z][^.!?]*$" *)
    (seq [Bol; rng "A" "Z"; rng "a" "z"; Star not_terminal; Eol], 1%Z);
    (* "^[A-Z][^?.]*\?$" *)
    (seq [Bol; rng "A" "Z"; Star (CSet true [CChar "?"; CChar "."]);
          chr "?"; Eol], 2%Z);
    (* "^\d+\.\s+[A-Z]" *)
    (seq [Bol; plus digit; chr "."; plus space; rng "A" "Z"], 2%Z);
    (* ^ [A-Z] \w* ( : \s+ [A-Z] [a-z] [^.!?]* )? $   (tokens spaced out) *)
    (seq [Bol; rng "A" "Z"; Star word;
          opt (seq [chr ":"; plus space; rng "A" "Z"; rng "a" "z";
                    Star not_terminal]);
          Eol], 1%Z)
  ].

(** [sum(points for p, points in l if cond(p))] *)
Definition sum_points (f : re -> bool) (l : list (re * Z)) : Z :=
  fold_left (fun acc pp => if f (fst pp) then (acc + snd pp)%Z else acc) l 0%Z.

(** [text[0].islower()], guarded by [text] being non-empty. *)
Definition first_islower (s : string) : bool :=
  match s with String c _ => is_lower c | EmptyString => false end.

Definition is_heading_like (text : string) : bool :=
  let text := strip text in
  if is_empty text || (MAX_HEADING_WORDS <? List.length (split text))%nat then false
  else
    let score := sum_points (fun p => py_match false p text) heading_indicators in
    let score :=
      if py_search false (Cat (CSet false [CChar "."; CChar "!"]) Eol) text
         && negb (ends_with_char "?" text)
      then (score - 2)%Z else score in
    let score :=
      if negb (is_empty text) && first_islower text
         && (3 <? List.length (split text))%nat
      then (score - 1)%Z else score in
    (2 <=? score)%Z.

End Classify.

(** ** Numbers and sequences *)

Module Py.

Local Open Scope Q_scope.

(** [a < b] on floats *)
Definition Qltb (a b : Q) : bool := negb (Qle_bool b a).

(** [a / b]: raises [ZeroDivisionError] when [b] is zero. *)
Definition py_div (a b : Q) : result Q :=
  if Qeq_bool b 0 then Raise ZeroDivisionError else Ok (a / b).

(** [sum(l)] *)
Definition py_sum (l : list Q) : Q := fold_left Qplus l 0.

(** [max(l)] and [min(l)]: [ValueError] on an empty sequence; the first of
    several equal extrema is the one returned. *)
Definition py_max (l : list Q) : result Q :=
  match l with
  | [] => Raise ValueError
  | x :: l' => Ok (fold_left (fun m y => if Qltb m y then y else m) l' x)
  end.

Definition py_min (l : list Q) : result Q :=
  match l with
  | [] => Raise ValueError
  | x :: l' => Ok (fold_left (fun m y => if Qltb y m then y else m) l' x)
  end.

(** [len(l)] as a float operand *)
Definition len_Q {A : Type} (l : list A) : Q := inject_Z (Z.of_nat (List.length l)).

(** [round(x)]: to the nearest integer, ties to the even one. *)
Definition py_round (x : Q) : Z :=
  let f := Qfloor x in
  match Qcompare (x - inject_Z f) (1 # 2) with
  | Lt => f
  | Gt => (f + 1)%Z
  | Eq => if Z.even f then f else (f + 1)%Z
  end.

(** [l[0]] *)
Definition index0 {A : Type} (l : list A) : result A :=
  match l with
  | [] => Raise IndexError
  | x :: _ => Ok x
  end.

(** [l.sort(key=key)] and [sorted(l, key=key)] with the keys already
    computed: a stable sort that compares keys with [<] only.  [insert_by]
    puts [x], which stood before every element of [l], in front of the
    first element whose key is not smaller. *)
Section Sort.
Variables (A K : Type) (ltb : K -> K -> bool) (key : A -> K).

Fixpoint insert_by (x : A) (l : list A) : list A :=
  match l with
  | [] => [x]
  | y :: l' => if ltb (key y) (key x) then y :: insert_by x l' else x :: l
  end.

Definition sort_by (l : list A) : list A := fold_right insert_by [] l.

(** [x] may stand before [y]: the key of [y] is not smaller. *)
Definition key_le (x y : A) : Prop := ltb (key y) (key x) = false.

End Sort.

(** [(a1, b1) < (a2, b2)] on tuples: the first components decide unless equal. *)
Definition pair_ltb {A B : Type} (eqA ltA : A -> A -> bool) (ltB : B -> B -> bool)
    (x y : A * B) : bool :=
  if eqA (fst x) (fst y) then ltB (snd x) (snd y) else ltA (fst x) (fst y).

(** A loop [for x in l: body] over a state [S], where [body] may raise. *)
Fixpoint for_each {A S : Type} (body : S -> A -> result S) (l : list A) (s : S)
    : result S :=
  match l with
  | [] => Ok s
  | x :: l' => s' <- body s x ;; for_each body l' s'
  end.

End Py.

(** ** The engine *)

Module Engine.

Import Text Py.
Local Open Scope Q_scope.

(** *** What the layout provider yields *)

(** [bbox = (x0, y0, x1, y1)]; [bbox[1]] is the top of the box. *)
Record BBox : Type := { x0 : Q; y0 : Q; x1 : Q; y1 : Q }.

Record Span : Type := { span_text : string; span_size : Q; span_flags : Z }.

Record Line : Type := { line_spans : list Span; line_bbox : BBox }.

(** A block has a ["lines"] entry or not (image blocks have none). *)
Record Block : Type := { block_lines : option (list Line) }.

Record Page : Type := { page_width : Q; page_blocks : list Block }.

Definition Document : Type := list Page.

(** *** Elements, candidates, headings *)

Record Element : Type := {
  page : Z;
  text : string;
  font_size : Q;
  bold : bool;
  italic : bool;
  caps : bool;
  words : nat;
  centered : bool;
  density : Q;
  bbox : BBox;
  is_paragraph : bool;
  heading_like : bool
}.

(** [{**e, "score": score}] *)
Record Candidate : Type := { elem :> Element; score : Q }.

Record Heading : Type := {
  h_level : string;
  h_text : string;
  h_page : Z;
  h_font_size : Q;
  h_position : BBox
}.

Record OutlineEntry : Type := { o_level : string; o_text : string; o_page : Z }.

Record Structure : Type := { title : string; outline : list OutlineEntry }.

(** *** Text extraction *)

Definition calculate_text_density (text : string) (bbox : BBox) : result Q :=
  let text_width := x1 bbox - x0 bbox in
  if Qltb 0 text_width then py_div (inject_Z (Z.of_nat (String.length text))) text_width
  else Ok 0.

(** The body of the innermost loop of [extract_text_with_style]: [None]
    is the [continue] of a blocked line. *)
Definition extract_line (page_num : nat) (width : Q) (line : Line)
    : result (option Element) :=
  let line_text := strip (concat_all (map span_text (line_spans line))) in
  if Classify.is_blocked line_text then Ok None
  else
    size <- py_max (map span_size (line_spans line)) ;;
    first <- index0 (line_spans line) ;;
    let flags := span_flags first in
    let box := line_bbox line in
    dens <- calculate_text_density line_text box ;;
    Ok (Some {|
      page := Z.of_nat page_num + 1;
      text := line_text;
      font_size := size;
      bold := negb (Z.land flags 2 =? 0)%Z;
      italic := negb (Z.land flags 4 =? 0)%Z;
      caps := isupper line_text;
      words := List.length (split line_text);
      centered := Qltb (Qabs (x0 box - (width - x1 box))) 20;
      density := dens;
      bbox := box;
      is_paragraph := Classify.is_paragraph line_text;
      heading_like := Classify.is_heading_like line_text
    |}).

Definition extract_lines (page_num : nat) (width : Q) (lines : list Line)
    (elements : list Element) : result (list Element) :=
  for_each (fun elements line =>
              r <- extract_line page_num width line ;;
              match r with
              | Some e => Ok (elements ++ [e])
              | None => Ok elements
              end) lines elements.

Definition extract_page (elements : list Element) (numbered : nat * Page)
    : result (list Element) :=
  let '(page_num, pg) := numbered in
  for_each (fun elements block =>
              match block_lines block with
              | Some lines => extract_lines page_num (page_width pg) lines elements
              | None => Ok elements
              end) (page_blocks pg) elements.

(** [enumerate(l)] *)
Definition enumerate {A : Type} (l : list A) : list (nat * A) :=
  combine (seq 0 (List.length l)) l.

Definition extract_text_with_style (doc : Document) : result (list Element) :=
  for_each extract_page (enumerate doc) [].

(** *** Title detection *)

Definition find_title (elements : list Element) : result string :=
  let first_page_elements :=
    filter (fun e => (page e =? 1)%Z && negb (Classify.is_blocked (text e))) elements in
  match first_page_elements with
  | [] => Ok EmptyString
  | _ =>
      max_font <- py_max (map font_size first_page_elements) ;;
      let title_candidates :=
        filter (fun e => Qltb (Qabs (font_size e - max_font)) (1 # 2))
          first_page_elements in
      let title_candidates := sort_by Qltb (fun x => y0 (bbox x)) title_candidates in
      Ok (strip (join " " (map text (firstn 3 title_candidates))))
  end.

(** *** Heading candidates *)

(** The three-way conditional on [size_ratio] that starts the score. *)
Definition size_points (size_ratio : Q) : Q :=
  if Qltb (1 # 2) size_ratio then 3
  else if Qltb (2 # 10) size_ratio then 2
  else if Qltb 0 size_ratio then 1 else 0.

(** [1 if e["words"] <= 10 else (0.5 if e["words"] <= 15 else 0)] *)
Definition length_points (words : nat) : Q :=
  if (words <=? 10)%nat then 1
  else if (words <=? 15)%nat then 1 # 2 else 0.

(** The body of the loop of [process_headings] once an element is known
    not to be a paragraph: its score. *)
Definition heading_score (avg_size size_range : Q) (e : Element) : result Q :=
  size_ratio <- py_div (font_size e - avg_size) (size_range + (1 # 1000000)) ;;
  let score := size_points size_ratio in
  let score := score + (if bold e then 2 else 0) in
  let score := score + (if caps e && (words e <=? 8)%nat then 1 else 0) in
  let score := score + (if centered e then 1 else 0) in
  let score := score + length_points (words e) in
  let score := score + (if Qltb (density e) MAX_HEADING_DENSITY then 1 else 0) in
  let score := score + (if heading_like e then 2 else 0) in
  Ok score.

Definition process_headings (elements : list Element) : result (list Candidate) :=
  match elements with
  | [] => Ok []
  | _ =>
      let non_para_sizes :=
        map font_size (filter (fun e => negb (is_paragraph e)) elements) in
      match non_para_sizes with
      | [] => Ok []
      | _ =>
          avg_size <- py_div (py_sum non_para_sizes) (len_Q non_para_sizes) ;;
          hi <- py_max non_para_sizes ;;
          lo <- py_min non_para_sizes ;;
          let size_range := hi - lo in
          for_each (fun candidates e =>
                      if is_paragraph e then Ok candidates
                      else
                        score <- heading_score avg_size size_range e ;;
                        if Qle_bool HEADING_SCORE_THRESHOLD score
                        then Ok (candidates ++ [{| elem := e; score := score |}])
                        else Ok candidates)
            elements []
      end
  end.

(** *** Style clusters and levels *)

(** [(round(font_size * 2) / 2, bold, italic, caps, centered)] *)
Record StyleKey : Type := {
  k_size : Q;
  k_bold : bool;
  k_italic : bool;
  k_caps : bool;
  k_centered : bool
}.

Definition style_key (c : Candidate) : StyleKey :=
  {| k_size := inject_Z (py_round (font_size c * 2)) / 2;
     k_bold := bold c;
     k_italic := italic c;
     k_caps := caps c;
     k_centered := centered c |}.

(** Equality of dictionary keys: componentwise [==]. *)
Definition key_eqb (a b : StyleKey) : bool :=
  Qeq_bool (k_size a) (k_size b)
  && Bool.eqb (k_bold a) (k_bold b)
  && Bool.eqb (k_italic a) (k_italic b)
  && Bool.eqb (k_caps a) (k_caps b)
  && Bool.eqb (k_centered a) (k_centered b).

(** The [defaultdict(list)], in insertion order (which [sorted] sees). *)
Definition Clusters : Type := list (StyleKey * list Candidate).

(** [clusters[k].append(c)] *)
Fixpoint dict_append (k : StyleKey) (c : Candidate) (d : Clusters) : Clusters :=
  match d with
  | [] => [(k, [c])]
  | (k', items) :: d' =>
      if key_eqb k k' then (k', items ++ [c]) :: d'
      else (k', items) :: dict_append k c d'
  end.

Definition build_clusters (candidates : list Candidate) : Clusters :=
  fold_left (fun clusters c => dict_append (style_key c) c clusters) candidates [].

(** The sort key of a cluster:
    [(-x[0][0], -sum(c["score"] for c in x[1]) / len(x[1]))] *)
Definition cluster_key (x : StyleKey * list Candidate) : result (Q * Q) :=
  mean <- py_div (- py_sum (map score (snd x))) (len_Q (snd x)) ;;
  Ok (- k_size (fst x), mean).

Definition sort_clusters (clusters : Clusters) : result Clusters :=
  keyed <- mapM (fun x => k <- cluster_key x ;; Ok (k, x)) clusters ;;
  Ok (map snd (sort_by (pair_ltb Qeq_bool Qltb Qltb) fst keyed)).

(** [f"H{min(level, 6)}"] *)
Definition level_name (level : nat) : string :=
  String "H" (NilEmpty.string_of_uint (Nat.to_uint (Nat.min level 6))).

Definition make_heading (level : nat) (item : Candidate) : Heading :=
  {| h_level := level_name level;
     h_text := text item;
     h_page := page item;
     h_font_size := font_size item;
     h_position := bbox item |}.

(** The nested loops over [enumerate(sorted_clusters, start=1)]: the state
    is the next level and the headings emitted so far. *)
Definition emit_headings (sorted_clusters : Clusters) : list Heading :=
  snd (fold_left
         (fun st x =>
            let '(level, headings) := st in
            (S level,
             fold_left (fun hs item => hs ++ [make_heading level item])
               (snd x) headings))
         sorted_clusters (1%nat, [])).

(** [(x["page"], x["position"][1])] *)
Definition reading_key (h : Heading) : Z * Q := (h_page h, y0 (h_position h)).

Definition assign_heading_levels (candidates : list Candidate) : result (list Heading) :=
  match candidates with
  | [] => Ok []
  | _ =>
      let clusters := build_clusters candidates in
      sorted_clusters <- sort_clusters clusters ;;
      let headings := emit_headings sorted_clusters in
      Ok (sort_by (pair_ltb Z.eqb Z.ltb Qltb) reading_key headings)
  end.

(** *** Main function *)

Definition extract_document_structure (doc : Document) : result Structure :=
  elements <- extract_text_with_style doc ;;
  title <- find_title elements ;;
  candidates <- process_headings elements ;;
  headings <- assign_heading_levels candidates ;;
  Ok {| title := title;
        outline := map (fun h => {| o_level := h_level h;
                                    o_text := h_text h;
                                    o_page := h_page h |}) headings |}.

End Engine.

(** ** Binary64 arithmetic

    Python's [float] is the IEEE 754 binary64 format.  Its operations are
    taken from the Standard Library's specification of floating-point
    arithmetic, at precision 53 and exponent bound 1024: every result is
    the exact one rounded to the nearest float, ties to the even one. *)

Module Float64.

Definition float : Type := SpecFloat.spec_float.

Definition prec : Z := 53.
Definition emax : Z := 1024.

Definition zero : float := SpecFloat.S754_zero false.

(** [a + b], [a - b] and the quotient of [a / b] *)
Definition add (a b : float) : float := SpecFloat.SFadd prec emax a b.
Definition sub (a b : float) : float := SpecFloat.SFsub prec emax a b.
Definition div (a b : float) : float := SpecFloat.SFdiv prec emax a b.

(** [a < b]; false when either is not a number *)
Definition ltb (a b : float) : bool := SpecFloat.SFltb a b.

(** A float as the machine holds it: the mantissa of at most 53 bits
    stands on its canonical exponent, within the range of the format. *)
Definition valid (x : float) : bool := SpecFloat.valid_binary prec emax x.

(** [b == 0] *)
Definition is_zero (b : float) : bool :=
  match b with
  | SpecFloat.S754_zero _ => true
  | _ => false
  end.

(** [float(z)] for an integer [z] *)
Definition of_Z (z : Z) : float := SpecFloat.binary_normalize prec emax z 0 false.

(** The decimal literal that denotes [a / b]: the float nearest to it. *)
Definition literal (a b : Z) : float := div (of_Z a) (of_Z b).

(** [a / b]: raises [ZeroDivisionError] when [b] is zero. *)
Definition py_div (a b : float) : result float :=
  if is_zero b then Raise ZeroDivisionError else Ok (div a b).

(** [sum(l)]: from the integer 0, one addition per item, left to right
    (CPython's float loop up to version 3.11). *)
Definition py_sum (l : list float) : float := fold_left add l zero.

(** [max(l)] and [min(l)]: an item replaces the current one when it
    compares greater, resp. smaller. *)
Definition py_max (l : list float) : result float :=
  match l with
  | [] => Raise ValueError
  | x :: l' => Ok (fold_left (fun m y => if ltb m y then y else m) l' x)
  end.

Definition py_min (l : list float) : result float :=
  match l with
  | [] => Raise ValueError
  | x :: l' => Ok (fold_left (fun m y => if ltb y m then y else m) l' x)
  end.

(** The number a float stands for (0 for the infinities and for NaN). *)
Definition to_Q (x : float) : Q :=
  match x with
  | SpecFloat.S754_finite s m e =>
      (if s then - inject_Z (Zpos m) else inject_Z (Zpos m)) * Qpower 2 e
  | _ => 0
  end.

End Float64.

(** ** The heading scorer in binary64

    [process_headings] once more, with the font sizes and densities as
    the floats they are: the size ratio and its thresholds are compared
    on rounded values.  The score is a small multiple of one half, which
    floats add without rounding; it stays a rational. *)

Module FloatEngine.

Import Text Py Float64.
Local Open Scope Q_scope.

Record BBox : Type := { x0 : float; y0 : float; x1 : float; y1 : float }.

Record Element : Type := {
  page : Z;
  text : string;
  font_size : float;
  bold : bool;
  italic : bool;
  caps : bool;
  words : nat;
  centered : bool;
  density : float;
  bbox : BBox;
  is_paragraph : bool;
  heading_like : bool
}.

(** [{**e, "score": score}] *)
Record Candidate : Type := { elem :> Element; score : Q }.

(** [MAX_HEADING_DENSITY = 0.6] *)
Definition MAX_HEADING_DENSITY : float := literal 6 10.

(** The three-way conditional on [size_ratio] that starts the score. *)
Definition size_points (size_ratio : float) : Q :=
  if ltb (literal 5 10) size_ratio then 3
  else if ltb (literal 2 10) size_ratio then 2
  else if ltb zero size_ratio then 1 else 0.

(** [1 if e["words"] <= 10 else (0.5 if e["words"] <= 15 else 0)] *)
Definition length_points (words : nat) : Q :=
  if (words <=? 10)%nat then 1
  else if (words <=? 15)%nat then 1 # 2 else 0.

(** The body of the loop once an element is known not to be a paragraph. *)
Definition heading_score (avg_size size_range : float) (e : Element) : result Q :=
  size_ratio <- Float64.py_div (sub (font_size e) avg_size)
                               (add size_range (literal 1 1000000)) ;;
  let score := size_points size_ratio in
  let score := score + (if bold e then 2 else 0) in
  let score := score + (if caps e && (words e <=? 8)%nat then 1 else 0) in
  let score := score + (if centered e then 1 else 0) in
  let score := score + length_points (words e) in
  let score := score + (if ltb (density e) MAX_HEADING_DENSITY then 1 else 0) in
  let score := score + (if heading_like e then 2 else 0) in
  Ok score.

Definition process_headings (elements : list Element) : result (list Candidate) :=
  match elements with
  | [] => Ok []
  | _ =>
      let non_para_sizes :=
        map font_size (filter (fun e => negb (is_paragraph e)) elements) in
      match non_para_sizes with
      | [] => Ok []
      | _ =>
          avg_size <- Float64.py_div (Float64.py_sum non_para_sizes)
                                     (of_Z (Z.of_nat (List.length non_para_sizes))) ;;
          hi <- Float64.py_max non_para_sizes ;;
          lo <- Float64.py_min non_para_sizes ;;
          let size_range := sub hi lo in
          for_each (fun candidates e =>
                      if is_paragraph e then Ok candidates
                      else
                        score <- heading_score avg_size size_range e ;;
                        if Qle_bool HEADING_SCORE_THRESHOLD score
                        then Ok (candidates ++ [{| elem := e; score := score |}])
                        else Ok candidates)
            elements []
      end
  end.

End FloatEngine.

(** ** Batch execution

    The names the batch run derives from the listing of the input
    directory.  Paths are joined as [os.path.join] does on POSIX. *)

Module Batch.

Import Text.
Local Open Scope char_scope.
Local Open Scope string_scope.

Definition INPUT_DIR : string := "/app/input".
Definition OUTPUT_DIR : string := "/app/output".

(** [s.lower()] *)
Fixpoint lower (s : string) : string :=
  match s with
  | EmptyString => EmptyString
  | String c s' => String (to_lower c) (lower s')
  end.

(** [s.endswith(suffix)] *)
Fixpoint endswith (s suffix : string) : bool :=
  if String.eqb s suffix then true
  else match s with
       | String _ s' => endswith s' suffix
       | EmptyString => false
       end.

(** The text before the last [c] of [s], if [c] occurs in [s]. *)
Fixpoint before_last (c : ascii) (s : string) : option string :=
  match s with
  | EmptyString => None
  | String a s' =>
      match before_last c s' with
      | Some r => Some (String a r)
      | None => if Ascii.eqb a c then Some EmptyString else None
      end
  end.

(** [s.rsplit(c, 1)[0]] *)
Definition rsplit_head (c : ascii) (s : string) : string :=
  match before_last c s with
  | Some r => r
  | None => s
  end.

(** [os.path.join(a, b)] *)
Definition path_join (a b : string) : string :=
  match b with
  | String "/" _ => b
  | _ => if is_empty a || ends_with_char "/" a then a ++ b else a ++ "/" ++ b
  end.

(** [file.lower().endswith(".pdf")] *)
Definition is_pdf (file : string) : bool := endswith (lower file) ".pdf".

Definition pdf_path (file : string) : string := path_join INPUT_DIR file.

Definition output_path (file : string) : string :=
  path_join OUTPUT_DIR (rsplit_head "." file ++ ".json").

(** A name that does not start with a slash, as the names of a directory
    listing are. *)
Definition relative (file : string) : Prop := forall r, file <> String "/" r.

End Batch.

(** ** What a pattern matches

    [matches ic r p s p' s']: the pattern [r] matches the characters by
    which [s] is longer than [s'], the character before [s] being [p] and
    the last one before [s'] being [p'].  This is the usual meaning of the
    operators, independent of any search order. *)

Module ReSpec.

Import Text Re.
Local Open Scope char_scope.

Inductive matches (ic : bool) :
    re -> option ascii -> string -> option ascii -> string -> Prop :=
| M_eps p s : matches ic Eps p s p s
| M_bol s : matches ic Bol None s None s
| M_eol p s : at_end s = true -> matches ic Eol p s p s
| M_wordb p s :
    xorb (opt_word p) (head_word s) = true -> matches ic WordB p s p s
| M_dot p c s :
    Ascii.eqb c "010" = false -> matches ic Dot p (String c s) (Some c) s
| M_set neg items p c s :
    set_match ic neg items c = true ->
    matches ic (CSet neg items) p (String c s) (Some c) s
| M_cat r1 r2 p s p1 s1 p2 s2 :
    matches ic r1 p s p1 s1 -> matches ic r2 p1 s1 p2 s2 ->
    matches ic (Cat r1 r2) p s p2 s2
| M_alt_l r1 r2 p s p' s' :
    matches ic r1 p s p' s' -> matches ic (Alt r1 r2) p s p' s'
| M_alt_r r1 r2 p s p' s' :
    matches ic r2 p s p' s' -> matches ic (Alt r1 r2) p s p' s'
| M_star_nil r p s : matches ic (Star r) p s p s
| M_star_cons r p s p1 s1 p2 s2 :
    matches ic r p s p1 s1 ->
    (String.length s1 < String.length s)%nat ->
    matches ic (Star r) p1 s1 p2 s2 ->
    matches ic (Star r) p s p2 s2.

(** The last character of [w], or [p] when [w] is empty. *)
Fixpoint last_of (p : option ascii) (w : string) : option ascii :=
  match w with
  | EmptyString => p
  | String c w' => last_of (Some c) w'
  end.

(** Every character of [w] satisfies [f]. *)
Fixpoint all_chars (f : ascii -> bool) (w : string) : bool :=
  match w with
  | EmptyString => true
  | String c w' => f c && all_chars f w'
  end.

End ReSpec.

(** ** The specification's vocabulary

    Definitions that follow the words of the specification; the theorems
    below compare them with the engine. *)

Module Spec.

Import Text Py Engine.
Local Open Scope Q_scope.

(** [m] is the mean of [l]. *)
Definition is_mean (m : Q) (l : list Q) : Prop := m * len_Q l == py_sum l.

(** [m] is the largest, resp. smallest, value that occurs in [l]. *)
Definition is_max (m : Q) (l : list Q) : Prop :=
  (exists x, In x l /\ x == m) /\ forall x, In x l -> x <= m.

Definition is_min (m : Q) (l : list Q) : Prop :=
  (exists x, In x l /\ x == m) /\ forall x, In x l -> m <= x.

(** Section 4.3, step 3: the base score from the size ratio. *)
Definition size_bucket (ratio : Q) : Q :=
  match Qlt_le_dec (1 # 2) ratio with
  | left _ => 3
  | right _ =>
      match Qlt_le_dec (1 # 5) ratio with
      | left _ => 2
      | right _ => match Qlt_le_dec 0 ratio with left _ => 1 | right _ => 0 end
      end
  end.

Definition bonus (b : bool) (points : Q) : Q := if b then points else 0.

(** Section 4.3, steps 2 to 4: the total score of a line, given the mean
    font size and the size range of the non-paragraph lines. *)
Definition total_score (avgSize sizeRange : Q) (e : Element) : Q :=
  size_bucket ((font_size e - avgSize) / (sizeRange + (1 # 1000000)))
  + bonus (bold e) 2
  + bonus (caps e && (words e <=? 8)%nat) 1
  + bonus (centered e) 1
  + (if (words e <=? 10)%nat then 1 else if (words e <=? 15)%nat then 1 # 2 else 0)
  + (if Qlt_le_dec (density e) (3 # 5) then 1 else 0)
  + bonus (heading_like e) 2.

(** The font sizes of the lines not flagged [isParagraph]. *)
Definition non_paragraph_sizes (elements : list Element) : list Q :=
  map font_size (filter (fun e => negb (is_paragraph e)) elements).

(** The same line with another [bold] flag. *)
Definition with_bold (b : bool) (e : Element) : Element :=
  {| page := page e; text := text e; font_size := font_size e; bold := b;
     italic := italic e; caps := caps e; words := words e;
     centered := centered e; density := density e; bbox := bbox e;
     is_paragraph := is_paragraph e; heading_like := heading_like e |}.

(** Section 4.3, step 5: a line is kept when it is not a paragraph and its
    total reaches the threshold; the candidate records the total. *)
Definition kept (avgSize sizeRange : Q) (e : Element) : bool :=
  negb (is_paragraph e) && Qle_bool 5 (total_score avgSize sizeRange e).

Definition scored (avgSize sizeRange : Q) (e : Element) : Candidate :=
  {| elem := e; score := total_score avgSize sizeRange e |}.

(** A text without whitespace at either end. *)
Definition trimmed (s : string) : Prop := strip s = s.

(** The top of a line's bounding box. *)
Definition top (e : Element) : Q := y0 (bbox e).

(** Section 4.2: the lines of page 1 that are not blocked. *)
Definition first_page_lines (elements : list Element) : list Element :=
  filter (fun e => (page e =? 1)%Z && negb (Classify.is_blocked (text e))) elements.

(** Section 4.2: the font size is within 0.5 units of [m]. *)
Definition within_half (m : Q) (e : Element) : bool :=
  if Qlt_le_dec (Qabs (font_size e - m)) (1 # 2) then true else false.

(** A line that can take part in a title: on page 1, trimmed, not blocked. *)
Definition title_line (e : Element) : Prop :=
  page e = 1%Z /\ trimmed (text e) /\ Classify.is_blocked (text e) = false.

(** Section 3: two candidates with identical
    [(fontSize, bold, italic, caps, centered)]. *)
Definition same_style (c1 c2 : Candidate) : Prop :=
  font_size c1 == font_size c2
  /\ bold c1 = bold c2 /\ italic c1 = italic c2
  /\ caps c1 = caps c2 /\ centered c1 = centered c2.

(** The candidate's style signature is [k]. *)
Definition has_key (k : StyleKey) (c : Candidate) : bool := key_eqb (style_key c) k.

(** Clusters with pairwise different signatures. *)
Definition separated (d : Clusters) : Prop :=
  NoDup d
  /\ forall x y, In x d -> In y d -> key_eqb (fst x) (fst y) = true -> x = y.

(** Section 4.4, step 1: [d] groups the candidates by style signature. *)
Definition groups_by_style (candidates : list Candidate) (d : Clusters) : Prop :=
  separated d
  /\ (forall k items, In (k, items) d ->
        items <> [] /\ items = filter (has_key k) candidates)
  /\ (forall c, In c candidates ->
        exists k items, In (k, items) d /\ has_key k c = true).

Definition mean_score (items : list Candidate) : Q :=
  py_sum (map score items) / len_Q items.

(** Section 4.4, step 2: [x] ranks no lower than [y]: a larger rounded font
    size, or the same one and a mean score that is not smaller. *)
Definition ranks_before (x y : StyleKey * list Candidate) : Prop :=
  k_size (fst y) < k_size (fst x)
  \/ (k_size (fst x) == k_size (fst y) /\ mean_score (snd y) <= mean_score (snd x)).

(** Section 4.4, step 3: the members of the clusters with their rank,
    counted from [level]. *)
Fixpoint levelled (level : nat) (ranked : Clusters) : list (nat * Candidate) :=
  match ranked with
  | [] => []
  | (_, items) :: rest => map (pair level) items ++ levelled (S level) rest
  end.

Definition heading_of (lc : nat * Candidate) : Heading :=
  make_heading (fst lc) (snd lc).

(** Section 4.4, step 4: reading order, by page and then by top. *)
Definition reading_le (h1 h2 : Heading) : Prop :=
  (h_page h1 < h_page h2)%Z
  \/ (h_page h1 = h_page h2 /\ y0 (h_position h1) <= y0 (h_position h2)).

Definition level_names : list string :=
  ["H1"; "H2"; "H3"; "H4"; "H5"; "H6"]%string.

(** The invariant of the grouping loop after the candidates [pre]: the
    keys differ pairwise, every entry lists the candidates of [pre] with
    its key, in order, and every candidate of [pre] has an entry. *)
Definition distinct_keys (d : Clusters) : Prop :=
  ForallOrdPairs (fun k1 k2 : StyleKey => key_eqb k1 k2 = false) (map fst d).

Definition no_entry (k : StyleKey) (d : Clusters) : Prop :=
  forall x, In x d -> key_eqb k (fst x) = false.

Definition grouped (pre : list Candidate) (d : Clusters) : Prop :=
  distinct_keys d
  /\ (forall k items, In (k, items) d ->
        items <> [] /\ items = filter (has_key k) pre)
  /\ (forall c, In c pre -> exists k items, In (k, items) d /\ has_key k c = true).

(** The sort key of a cluster, as a value. *)
Definition rank_key (x : StyleKey * list Candidate) : Q * Q :=
  (- k_size (fst x), - py_sum (map score (snd x)) / len_Q (snd x)).

(** *** The input and the output *)

(** The lines of a page, block after block. *)
Definition page_lines (pg : Page) : list Line :=
  flat_map (fun b => match block_lines b with Some ls => ls | None => [] end)
    (page_blocks pg).

(** The line sequence of a document: every line with the index of its page
    (from 0) and the width of that page, in the provider's order. *)
Definition doc_lines (doc : Document) : list (nat * Q * Line) :=
  flat_map (fun np => map (fun l => (fst np, page_width (snd np), l))
                        (page_lines (snd np)))
    (enumerate doc).

(** The trimmed text of a line. *)
Definition line_text (l : Line) : string :=
  strip (concat_all (map span_text (line_spans l))).

(** Section 4.1: the trimmed text is empty or matches a blocklist pattern. *)
Definition blocked_text (t : string) : Prop :=
  strip t = EmptyString
  \/ exists p, In p Classify.BLOCKLIST_REGEX /\ Re.py_match true p (strip t) = true.

Definition survives (src : nat * Q * Line) : bool :=
  negb (Classify.is_blocked (line_text (snd src))).

(** Section 3: the element [e] describes the line [src]. *)
Definition describes (src : nat * Q * Line) (e : Element) : Prop :=
  let line := snd src in
  let width := snd (fst src) in
  let box := line_bbox line in
  page e = (Z.of_nat (fst (fst src)) + 1)%Z
  /\ text e = line_text line
  /\ bbox e = box
  /\ is_max (font_size e) (map span_size (line_spans line))
  /\ (exists s0, hd_error (line_spans line) = Some s0
        /\ bold e = negb (Z.land (span_flags s0) 2 =? 0)%Z
        /\ italic e = negb (Z.land (span_flags s0) 4 =? 0)%Z)
  /\ caps e = isupper (text e)
  /\ words e = List.length (split (text e))
  /\ (centered e = true <-> Qabs (x0 box - (width - x1 box)) < 20)
  /\ (0 < x1 box - x0 box ->
        density e == inject_Z (Z.of_nat (String.length (text e))) / (x1 box - x0 box))
  /\ (x1 box - x0 box <= 0 -> density e == 0)
  /\ is_paragraph e = Classify.is_paragraph (text e)
  /\ heading_like e = Classify.is_heading_like (text e).

(** The outline entry of a heading: the position and font size are dropped. *)
Definition entry_of (h : Heading) : OutlineEntry :=
  {| o_level := h_level h; o_text := h_text h; o_page := h_page h |}.

Definition empty_structure : Structure :=
  {| title := EmptyString; outline := [] |}.

(** *** Paragraphs *)

(** Section 4.1: the number of whitespace-delimited words of a text. *)
Definition word_count (t : string) : nat := List.length (split (strip t)).

(** The five textual signals of a paragraph, as the patterns decide them. *)
Definition paragraph_signals (t : string) : list bool :=
  map (fun p => Re.py_search false p (strip t)) Classify.paragraph_indicators.

(** How many of the signals hold. *)
Definition votes (signals : list bool) : nat := count_occ bool_dec signals true.

(** The five textual signals of Section 4.1, on a trimmed text [s]. *)

Definition is_terminal (c : ascii) : bool :=
  (Ascii.eqb c "." || Ascii.eqb c "!" || Ascii.eqb c "?")%char.

(** The text has no line break inside. *)
Definition single_line (s : string) : Prop :=
  ReSpec.all_chars (fun c => negb (Ascii.eqb c "010"%char)) s = true.

(** [w] stands in [s] as a word of its own: no word character (letter,
    digit, underscore) touches it on either side. *)
Definition standalone (w s : string) : Prop :=
  exists u v,
    s = (u ++ w ++ v)%string
    /\ Re.opt_word (ReSpec.last_of None u) = false
    /\ Re.head_word v = false.

(** Starts with a capitalised word (an uppercase letter, then a lowercase
    one) and ends in terminal punctuation. *)
Definition sentence_like (s : string) : Prop :=
  exists c1 c2 u c3,
    s = String c1 (String c2 (u ++ String c3 EmptyString))
    /\ is_upper c1 = true /\ is_lower c2 = true /\ is_terminal c3 = true.

(** Contains a lowercase word of at least 3 letters. *)
Definition has_lowercase_word (s : string) : Prop :=
  exists w,
    standalone w s
    /\ ReSpec.all_chars is_lower w = true
    /\ (3 <= String.length w)%nat.

(** Contains a comma followed, after one whitespace character, by a
    lowercase word. *)
Definition has_comma_clause (s : string) : Prop :=
  exists u c1 c2 v,
    s = (u ++ String ","%char (String c1 (String c2 v)))%string
    /\ is_space c1 = true /\ is_lower c2 = true.

Definition function_words : list string := ["and"; "the"; "of"; "in"; "to"]%string.

(** Contains one of the function words. *)
Definition has_function_word (s : string) : Prop :=
  exists w, In w function_words /\ standalone w s.

(** The total length is at least 50 characters. *)
Definition long_text (s : string) : Prop := (50 <= String.length s)%nat.

(** The points a line earns beyond its size points. *)
Definition bonus_points (e : Element) : Q :=
  bonus (bold e) 2
  + bonus (caps e && (words e <=? 8)%nat) 1
  + bonus (centered e) 1
  + (if (words e <=? 10)%nat then 1 else if (words e <=? 15)%nat then 1 # 2 else 0)
  + (if Qlt_le_dec (density e) (3 # 5) then 1 else 0)
  + bonus (heading_like e) 2.

(** What a heading keeps of its candidate, and the same of a candidate. *)
Definition heading_facts (h : Heading) : string * Z * Q * BBox :=
  (h_text h, h_page h, h_font_size h, h_position h).

Definition candidate_facts (c : Candidate) : string * Z * Q * BBox :=
  (text c, page c, font_size c, bbox c).

(** *** Headings by their look *)

(** Every character that [r] can consume satisfies [f]. *)
Fixpoint accepts_only (ic : bool) (f : ascii -> bool) (r : Re.re) : Prop :=
  match r with
  | Re.CSet neg items => forall c, Re.set_match ic neg items c = true -> f c = true
  | Re.Dot => forall c, Ascii.eqb c "010"%char = false -> f c = true
  | Re.Cat r1 r2 => accepts_only ic f r1 /\ accepts_only ic f r2
  | Re.Alt r1 r2 => accepts_only ic f r1 /\ accepts_only ic f r2
  | Re.Star r1 => accepts_only ic f r1
  | _ => True
  end.

(** The points of one indicator on a text. *)
Definition indicator_points (s : string) (ind : Re.re * Z) : Z :=
  if Re.py_match false (fst ind) s then snd ind else 0%Z.

(** A full stop or an exclamation mark. *)
Definition is_stop (c : ascii) : bool := (Ascii.eqb c "." || Ascii.eqb c "!")%char.

(** The text ends with the character [c]. *)
Definition ends_with (s : string) (c : ascii) : Prop :=
  exists u, s = (u ++ String c EmptyString)%string.

(** A capitalised word: an uppercase letter, then lowercase letters. *)
Definition capitalised (w : string) : Prop :=
  exists c w', w = String c w' /\ is_upper c = true
               /\ ReSpec.all_chars is_lower w' = true.

(** Whitespace, at least one character of it. *)
Definition blank (g : string) : Prop :=
  g <> EmptyString /\ ReSpec.all_chars is_space g = true.

(** [gap1 word1 gap2 word2 ...]: capitalised words, each after a blank. *)
Fixpoint more_words (l : list (string * string)) : string :=
  match l with
  | [] => EmptyString
  | (gap, w) :: l' => (gap ++ w ++ more_words l')%string
  end.

(** Capitalised words separated by blanks. *)
Definition title_case (s : string) : Prop :=
  exists w l,
    s = (w ++ more_words l)%string
    /\ capitalised w
    /\ Forall (fun gw => blank (fst gw) /\ capitalised (snd gw)) l.

(** [N. Xyz...]: digits, a full stop, a blank, an uppercase letter. *)
Definition numbered (s : string) : Prop :=
  exists ds g c u,
    s = (ds ++ String "."%char (g ++ String c u))%string
    /\ ds <> EmptyString /\ ReSpec.all_chars is_digit ds = true
    /\ blank g /\ is_upper c = true.

(** An uppercase letter, then no question mark or full stop until the
    question mark that ends the text. *)
Definition question (s : string) : Prop :=
  exists c u,
    s = String c (u ++ String "?"%char EmptyString)
    /\ is_upper c = true
    /\ ReSpec.all_chars
         (fun x => negb (Ascii.eqb x "?"%char || Ascii.eqb x "."%char)) u = true.

(** The pattern ends with [$]. *)
Fixpoint ends_anchored (r : Re.re) : bool :=
  match r with
  | Re.Eol => true
  | Re.Cat _ r2 => ends_anchored r2
  | Re.Alt r1 r2 => ends_anchored r1 && ends_anchored r2
  | _ => false
  end.

(** The same character up to letter case. *)
Definition same_letter (a b : ascii) : bool := Ascii.eqb (to_lower a) (to_lower b).

(** The same text up to letter case. *)
Fixpoint same_letters (s t : string) : bool :=
  match s, t with
  | EmptyString, EmptyString => true
  | String a s', String b t' => same_letter a b && same_letters s' t'
  | _, _ => false
  end.

Definition same_opt (p q : option ascii) : Prop :=
  match p, q with
  | None, None => True
  | Some a, Some b => same_letter a b = true
  | _, _ => False
  end.

(** The words of the pattern for captions and numbered parts. *)
Definition leading_words : list string :=
  ["Chapter"; "Section"; "Fig"; "Figure"; "Table"]%string.

(** [s] starts with [w], in any letter case. *)
Definition starts_with_ci (s w : string) : Prop :=
  exists u rest, s = (u ++ rest)%string /\ same_letters u w = true.

(** [s] starts with the word [w], in any letter case: what follows is not
    a word character. *)
Definition starts_with_word_ci (s w : string) : Prop :=
  exists u rest, s = (u ++ rest)%string /\ same_letters u w = true
                 /\ Re.head_word rest = false.

(** [is_heading_like] without the test for a final question mark in its
    first penalty and without its second penalty. *)
Definition heading_like_plain (text : string) : bool :=
  let text := strip text in
  if is_empty text || (MAX_HEADING_WORDS <? List.length (split text))%nat then false
  else
    let score :=
      Classify.sum_points (fun p => Re.py_match false p text)
        Classify.heading_indicators in
    let score :=
      if Re.py_search false
           (Re.Cat (Re.CSet false [Re.CChar "."%char; Re.CChar "!"%char]) Re.Eol) text
      then (score - 2)%Z else score in
    (2 <=? score)%Z.

(** One of the letters of the roman numerals, in either case. *)
Definition roman_letter (c : ascii) : bool :=
  existsb (Ascii.eqb (to_lower c)) ["i"; "v"; "x"; "l"; "c"; "d"; "m"]%char.

(** *** The first paragraph signal as the specification words it *)

(** Starts with a capitalised word: the first character is an uppercase
    letter. *)
Definition starts_capitalised (s : string) : Prop :=
  exists c u, s = String c u /\ is_upper c = true.

(** Ends in terminal punctuation. *)
Definition ends_terminal (s : string) : Prop :=
  exists u c, s = (u ++ String c EmptyString)%string /\ is_terminal c = true.

Definition worded_sentence (s : string) : Prop :=
  starts_capitalised s /\ ends_terminal s.

(** Contains one of the function words, in any letter case. *)
Definition worded_function_word (s : string) : Prop :=
  exists w u, In w function_words /\ same_letters u w = true /\ standalone u s.

(** Contains a comma followed by a lowercase word, whatever the
    whitespace between the two. *)
Definition worded_comma_clause (s : string) : Prop :=
  exists u ws c v,
    s = (u ++ String ","%char (ws ++ String c v))%string
    /\ ReSpec.all_chars is_space ws = true /\ is_lower c = true.

(** *** Reading order of the lines of a document *)

(** The line [s1] stands before or level with [s2]: an earlier page, or
    the same page and a top that is not lower. *)
Definition line_reading_le (s1 s2 : nat * Q * Line) : Prop :=
  (fst (fst s1) < fst (fst s2))%nat
  \/ (fst (fst s1) = fst (fst s2)
      /\ y0 (line_bbox (snd s1)) <= y0 (line_bbox (snd s2))).

(** The heading [h] is made from the line [src] of the document: it has
    its page number, its trimmed text and its bounding box. *)
Definition heading_from (src : nat * Q * Line) (h : Heading) : Prop :=
  h_page h = (Z.of_nat (fst (fst src)) + 1)%Z
  /\ h_text h = line_text (snd src)
  /\ h_position h = line_bbox (snd src).

(** The outline entry [o] is made from the line [src]. *)
Definition entry_from (src : nat * Q * Line) (o : OutlineEntry) : Prop :=
  o_page o = (Z.of_nat (fst (fst src)) + 1)%Z
  /\ o_text o = line_text (snd src).

(** *** Style signatures and means, stated on their own *)








End Spec.

(** ** Sample data

    Concrete lines and documents on which the statements below are
    exercised. *)

Module Samples.

Import Text Py Engine Spec.
Local Open Scope Q_scope.
Local Open Scope string_scope.

Definition box (left top right bottom : Q) : BBox :=
  {| x0 := left; y0 := top; x1 := right; y1 := bottom |}.

(** A 12-unit bold line of two words: its total is 4 when it shares the
    page with lines of the same size. *)
Definition plain_bold : Element :=
  {| page := 1; text := "revenue summary"; font_size := 12; bold := true;
     italic := false; caps := false; words := 2; centered := false;
     density := 1 # 10; bbox := box 50 100 200 112;
     is_paragraph := false; heading_like := false |}.

(** The same line centred: one more point, total 5. *)
Definition centred_bold : Element :=
  {| page := 1; text := "revenue summary"; font_size := 12; bold := true;
     italic := false; caps := false; words := 2; centered := true;
     density := 1 # 10; bbox := box 225 130 375 142;
     is_paragraph := false; heading_like := false |}.

(** Four lines for a first page: sizes 24, 24, 12, 24 from top to bottom. *)
Definition title_part (t : string) (size top : Q) : Element :=
  {| page := 1; text := t; font_size := size; bold := false;
     italic := false; caps := false; words := 1; centered := false;
     density := 1 # 10; bbox := box 50 top 300 (top + 30);
     is_paragraph := false; heading_like := true |}.

Definition title_a : Element := title_part "Annual" 24 100.
Definition title_b : Element := title_part "Energy" 24 140.
Definition title_c : Element := title_part "draft" 12 180.
Definition title_d : Element := title_part "Outlook" 24 220.

Definition title_sample : list Element := [title_a; title_b; title_c; title_d].

(** Scored candidates: two 18-unit bold lines with different scores, a
    14-unit line between them, and eight more sizes for the clamp. *)
Definition cand (t : string) (pg : Z) (size top score : Q) (b : bool) : Candidate :=
  {| elem := {| page := pg; text := t; font_size := size; bold := b;
                italic := false; caps := false; words := 2; centered := false;
                density := 1 # 10; bbox := box 50 top 300 (top + 20);
                is_paragraph := false; heading_like := true |};
     score := score |}.

Definition cand_intro : Candidate := cand "Market overview" 1 18 100 7 true.
Definition cand_scope : Candidate := cand "Scope of work" 1 14 200 (11 # 2) false.
Definition cand_method : Candidate := cand "Method notes" 2 18 80 5 true.

Definition sample_candidates : list Candidate := [cand_intro; cand_scope; cand_method].

Definition many_styles : list Candidate :=
  map (fun n => cand "Part heading" 1 (inject_Z (Z.of_nat n)) 100 6 false)
    [10; 11; 12; 13; 14; 15; 16; 17]%nat.

(** Documents.  A span of plain (flags 0) or bold (flags 2, as the bit mask
    tested by the extraction) text, and a line of one span. *)
Definition one_span (t : string) (size : Q) (flags : Z) (left top right : Q) : Line :=
  {| line_spans := [{| span_text := t; span_size := size; span_flags := flags |}];
     line_bbox := box left top right (top + size) |}.

Definition text_block (lines : list Line) : Block := {| block_lines := Some lines |}.
Definition image_block : Block := {| block_lines := None |}.

(** A page with nothing but a page number and a rule: every line is blocked. *)
Definition blank_doc : Document :=
  [{| page_width := 600;
      page_blocks := [image_block;
                      text_block [one_span "12" 10 0 290 800 310;
                                  one_span "-----" 10 0 50 780 550]] |}].

(** Two pages: a two-line title, a contents line, headings, a paragraph, a
    date and page numbers. *)
Definition report_doc : Document :=
  [{| page_width := 600;
      page_blocks :=
        [text_block [one_span "Annual Energy" 24 2 150 80 450;
                     one_span "Outlook" 24 2 220 110 380];
         text_block [one_span "Table of Contents" 14 2 50 200 250;
                     one_span "Market Overview" 14 2 50 240 250;
                     one_span "Prices rose in the first quarter, and demand followed them closely."
                       10 0 50 270 550;
                     one_span " 1 " 10 0 290 800 310]] |};
   {| page_width := 600;
      page_blocks :=
        [image_block;
         text_block [one_span "Chapter 2" 14 2 50 60 250;
                     one_span "Supply Outlook" 14 2 50 90 250;
                     one_span "3rd January 2024" 10 0 50 120 200;
                     one_span "2" 10 0 290 800 310]] |}].

(** A line of eleven words that reads as a paragraph. *)
Definition prose : string :=
  "Prices rose in the first quarter, and demand followed them closely.".

End Samples.

(** ** The scorer's vocabulary in binary64

    The quantities of Section 4.3 as floating-point arithmetic yields
    them. *)

Module FloatSpec.

Import Text Float64 FloatEngine.
Local Open Scope Q_scope.

(** [a > b] *)
Definition gt (a b : float) : Prop := SpecFloat.SFcompare a b = Some Gt.

Definition above (a b : float) : bool :=
  match SpecFloat.SFcompare a b with
  | Some Gt => true
  | _ => false
  end.

Definition below (a b : float) : bool :=
  match SpecFloat.SFcompare a b with
  | Some Lt => true
  | _ => false
  end.

(** [s] is the sum of [l], taken item after item from 0. *)
Inductive adds_up : list float -> float -> Prop :=
| adds_none : adds_up [] zero
| adds_more l s x : adds_up l s -> adds_up (l ++ [x]) (add s x).

(** [m] is the mean of [l] as floats give it: the sum divided by the
    number of items. *)
Definition is_mean (m : float) (l : list float) : Prop :=
  exists s, adds_up l s /\ m = div s (of_Z (Z.of_nat (List.length l))).

(** [m] occurs in [l] and no item is greater, resp. smaller. *)
Definition is_max (m : float) (l : list float) : Prop :=
  In m l /\ forall x, In x l -> ~ gt x m.

Definition is_min (m : float) (l : list float) : Prop :=
  In m l /\ forall x, In x l -> ~ gt m x.

(** Section 4.3, step 3: the base score from the size ratio. *)
Definition size_bucket (ratio : float) : Q :=
  if above ratio (literal 1 2) then 3
  else if above ratio (literal 1 5) then 2
  else if above ratio zero then 1 else 0.

(** [(fontSize - avgSize) / (sizeRange + 1e-6)] *)
Definition size_ratio (avgSize sizeRange : float) (e : Element) : float :=
  div (sub (font_size e) avgSize) (add sizeRange (literal 1 1000000)).

(** Section 4.3, steps 2 to 4: the total score of a line. *)
Definition total_score (avgSize sizeRange : float) (e : Element) : Q :=
  size_bucket (size_ratio avgSize sizeRange e)
  + Spec.bonus (bold e) 2
  + Spec.bonus (caps e && (words e <=? 8)%nat) 1
  + Spec.bonus (centered e) 1
  + (if (words e <=? 10)%nat then 1 else if (words e <=? 15)%nat then 1 # 2 else 0)
  + Spec.bonus (below (density e) (literal 3 5)) 1
  + Spec.bonus (heading_like e) 2.

Definition scored (avgSize sizeRange : float) (e : Element) : Candidate :=
  {| elem := e; score := total_score avgSize sizeRange e |}.

(** The points a line earns beyond its size points. *)
Definition bonus_points (e : Element) : Q :=
  Spec.bonus (bold e) 2
  + Spec.bonus (caps e && (words e <=? 8)%nat) 1
  + Spec.bonus (centered e) 1
  + (if (words e <=? 10)%nat then 1 else if (words e <=? 15)%nat then 1 # 2 else 0)
  + Spec.bonus (below (density e) (literal 3 5)) 1
  + Spec.bonus (heading_like e) 2.

(** The font sizes of the lines not flagged [isParagraph]. *)
Definition non_paragraph_sizes (elements : list Element) : list float :=
  map font_size (filter (fun e => negb (is_paragraph e)) elements).

(** The same line with the exact values of its numbers, on which the
    formula of Section 4.3 can be read in exact arithmetic. *)
Definition exact_box (b : BBox) : Engine.BBox :=
  {| Engine.x0 := to_Q (x0 b); Engine.y0 := to_Q (y0 b);
     Engine.x1 := to_Q (x1 b); Engine.y1 := to_Q (y1 b) |}.

Definition exact (e : Element) : Engine.Element :=
  {| Engine.page := page e; Engine.text := text e;
     Engine.font_size := to_Q (font_size e);
     Engine.bold := bold e; Engine.italic := italic e; Engine.caps := caps e;
     Engine.words := words e; Engine.centered := centered e;
     Engine.density := to_Q (density e); Engine.bbox := exact_box (bbox e);
     Engine.is_paragraph := is_paragraph e;
     Engine.heading_like := heading_like e |}.

End FloatSpec.

(** ** Invariants of binary64 rounding

    The properties of a rounding step that the proofs about the scorer's
    divisor carry through Stdlib's [SpecFloat] functions. *)

Module Rounding.

Import Float64.
Local Open Scope Z_scope.

(** The mantissa keeps [k] digits, one less per step. *)
Definition has_digits (k : Z) (r : SpecFloat.shr_record) : Prop :=
  0 <= SpecFloat.shr_m r /\ (1 <= k -> 2 ^ (k - 1) <= SpecFloat.shr_m r).

(** The sign of a rounded number is the sign it was given. *)
Definition signed (s : bool) (x : float) : Prop :=
  match x with
  | SpecFloat.S754_zero s' => s' = s
  | SpecFloat.S754_infinity s' => s' = s
  | SpecFloat.S754_finite s' _ _ => s' = s
  | SpecFloat.S754_nan => True
  end.

(** A number that is not a negative finite one. *)
Definition not_negative (x : float) : Prop :=
  match x with
  | SpecFloat.S754_finite true _ _ => False
  | _ => True
  end.

End Rounding.

(** Lines of size 10.7 whose bonuses add up to 4, resp. 5: bold, at most
    ten words, a density below 0.6, and the second one centred. *)

Module FloatSamples.

Import Text Float64 FloatEngine.
Local Open Scope string_scope.

Definition box : BBox :=
  {| x0 := of_Z 72; y0 := of_Z 100; x1 := of_Z 300; y1 := of_Z 114 |}.

Definition bold_line : Element :=
  {| page := 1; text := "revenue summary"; font_size := literal 107 10;
     bold := true; italic := false; caps := false; words := 2;
     centered := false; density := literal 3 10; bbox := box;
     is_paragraph := false; heading_like := false |}.

Definition centred_line : Element :=
  {| page := 1; text := "revenue summary"; font_size := literal 107 10;
     bold := true; italic := false; caps := false; words := 2;
     centered := true; density := literal 3 10; bbox := box;
     is_paragraph := false; heading_like := false |}.

(** A smaller and a larger line, so that the mean lies strictly between. *)
Definition small_line : Element :=
  {| page := 1; text := "revenue summary"; font_size := of_Z 10;
     bold := true; italic := false; caps := false; words := 2;
     centered := false; density := literal 3 10; bbox := box;
     is_paragraph := false; heading_like := false |}.

Definition large_line : Element :=
  {| page := 1; text := "revenue summary"; font_size := of_Z 14;
     bold := true; italic := false; caps := false; words := 2;
     centered := false; density := literal 3 10; bbox := box;
     is_paragraph := false; heading_like := false |}.

End FloatSamples.

(** * Properties *)

(** ** Facts about numbers and sequences *)

Module PyFacts.

Import Py Spec.
Local Open Scope Q_scope.

Lemma Qltb_lt (a b : Q) : Qltb a b = true <-> a < b.
Proof.
  unfold Qltb. rewrite negb_true_iff. split.
  - intros H. apply Qnot_le_lt. intros Hle.
    apply Qle_bool_iff in Hle. congruence.
  - intros H. destruct (Qle_bool b a) eqn:E; [|reflexivity].
    apply Qle_bool_iff in E. exfalso. exact (Qlt_not_le _ _ H E).
Qed.

Lemma Qltb_ge (a b : Q) : Qltb a b = false <-> b <= a.
Proof.
  unfold Qltb. rewrite negb_false_iff. apply Qle_bool_iff.
Qed.

Lemma Qltb_irrefl (a : Q) : Qltb a a = false.
Proof. apply Qltb_ge. apply Qle_refl. Qed.

Lemma py_div_ok (a b : Q) : ~ b == 0 -> py_div a b = Ok (a / b).
Proof.
  intros H. unfold py_div. destruct (Qeq_bool b 0) eqn:E; [|reflexivity].
  apply Qeq_bool_iff in E. contradiction.
Qed.

Lemma len_Q_pos {A : Type} (l : list A) : l <> [] -> 0 < len_Q l.
Proof.
  destruct l as [|x l]; [congruence|]. intros _. unfold len_Q.
  change 0 with (inject_Z 0). rewrite <- Zlt_Qlt. simpl List.length. lia.
Qed.

Lemma mean_is_mean (l : list Q) : l <> [] -> is_mean (py_sum l / len_Q l) l.
Proof.
  intros H. unfold is_mean. pose proof (len_Q_pos H) as Hp.
  field. intros E. rewrite E in Hp. exact (Qlt_irrefl _ Hp).
Qed.

(** The running maximum of [py_max] is an upper bound that occurs. *)
Lemma fold_max_spec (l : list Q) (x : Q) :
  let m := fold_left (fun m y => if Qltb m y then y else m) l x in
  (exists z, In z (x :: l) /\ z == m) /\ forall z, In z (x :: l) -> z <= m.
Proof.
  revert x. induction l as [|y l IH]; intros x; simpl.
  - split; [exists x; split; [now left | reflexivity]|].
    intros z [<-|[]]. apply Qle_refl.
  - destruct (IH (if Qltb x y then y else x)) as [[z [Hin Hz]] Hub].
    split.
    + exists z. split; [|exact Hz].
      destruct Hin as [Hin|Hin]; [|now right; right].
      destruct (Qltb x y); subst z; [right; now left | now left].
    + intros w [<-|[<-|Hw]].
      * eapply Qle_trans; [|apply Hub; now left].
        destruct (Qltb x y) eqn:E; [apply Qltb_lt in E; now apply Qlt_le_weak|apply Qle_refl].
      * eapply Qle_trans; [|apply Hub; now left].
        destruct (Qltb x y) eqn:E; [apply Qle_refl|now apply Qltb_ge in E].
      * apply Hub. now right.
Qed.

Lemma fold_min_spec (l : list Q) (x : Q) :
  let m := fold_left (fun m y => if Qltb y m then y else m) l x in
  (exists z, In z (x :: l) /\ z == m) /\ forall z, In z (x :: l) -> m <= z.
Proof.
  revert x. induction l as [|y l IH]; intros x; simpl.
  - split; [exists x; split; [now left | reflexivity]|].
    intros z [<-|[]]. apply Qle_refl.
  - destruct (IH (if Qltb y x then y else x)) as [[z [Hin Hz]] Hlb].
    split.
    + exists z. split; [|exact Hz].
      destruct Hin as [Hin|Hin]; [|now right; right].
      destruct (Qltb y x); subst z; [right; now left | now left].
    + intros w [<-|[<-|Hw]].
      * eapply Qle_trans; [apply Hlb; now left|].
        destruct (Qltb y x) eqn:E; [apply Qltb_lt in E; now apply Qlt_le_weak|apply Qle_refl].
      * eapply Qle_trans; [apply Hlb; now left|].
        destruct (Qltb y x) eqn:E; [apply Qle_refl|now apply Qltb_ge in E].
      * apply Hlb. now right.
Qed.

Lemma py_max_spec (l : list Q) :
  l <> [] -> exists m, py_max l = Ok m /\ is_max m l.
Proof.
  destruct l as [|x l]; [congruence|]. intros _.
  eexists. split; [reflexivity|]. apply fold_max_spec.
Qed.

Lemma py_min_spec (l : list Q) :
  l <> [] -> exists m, py_min l = Ok m /\ is_min m l.
Proof.
  destruct l as [|x l]; [congruence|]. intros _.
  eexists. split; [reflexivity|]. apply fold_min_spec.
Qed.

Lemma min_le_max (l : list Q) (lo hi : Q) :
  l <> [] -> is_min lo l -> is_max hi l -> lo <= hi.
Proof.
  destruct l as [|x l]; [congruence|]. intros _ [_ Hlo] [_ Hhi].
  eapply Qle_trans; [apply Hlo | apply Hhi]; now left.
Qed.

Lemma for_each_app {A S : Type} (body : S -> A -> result S) (l1 l2 : list A) (s : S) :
  for_each body (l1 ++ l2) s = (s' <- for_each body l1 s ;; for_each body l2 s').
Proof.
  revert s. induction l1 as [|x l1 IH]; intros s; simpl; [reflexivity|].
  destruct (body s x); simpl; [apply IH | reflexivity].
Qed.

End PyFacts.

(** ** The heading candidate scorer *)

Module ScorerFacts.

Import Py PyFacts Engine Spec.
Local Open Scope Q_scope.

Lemma size_points_bucket (r : Q) : size_points r = size_bucket r.
Proof.
  unfold size_points, size_bucket.
  destruct (Qlt_le_dec (1 # 2) r) as [H|H].
  - apply Qltb_lt in H. now rewrite H.
  - apply Qltb_ge in H. rewrite H.
    destruct (Qlt_le_dec (1 # 5) r) as [H1|H1].
    + assert (E : Qltb (2 # 10) r = true) by (apply Qltb_lt; lra).
      now rewrite E.
    + assert (E : Qltb (2 # 10) r = false) by (apply Qltb_ge; lra).
      rewrite E.
      destruct (Qlt_le_dec 0 r) as [H0|H0].
      * apply Qltb_lt in H0. now rewrite H0.
      * apply Qltb_ge in H0. now rewrite H0.
Qed.

Lemma density_points (d : Q) :
  (if Qltb d MAX_HEADING_DENSITY then 1 else 0) = (if Qlt_le_dec d (3 # 5) then 1 else 0).
Proof.
  unfold MAX_HEADING_DENSITY.
  destruct (Qlt_le_dec d (3 # 5)) as [H|H].
  - assert (E : Qltb d (6 # 10) = true) by (apply Qltb_lt; lra). now rewrite E.
  - assert (E : Qltb d (6 # 10) = false) by (apply Qltb_ge; lra). now rewrite E.
Qed.

(** With a non-negative size range the division cannot fail, and the
    score accumulated by the loop body is the specification's total. *)
Lemma heading_score_total (avg range : Q) (e : Element) :
  0 <= range -> heading_score avg range e = Ok (total_score avg range e).
Proof.
  intros H. unfold heading_score.
  rewrite py_div_ok by (intros E; lra). simpl.
  unfold total_score, bonus, length_points.
  now rewrite size_points_bucket, density_points.
Qed.

Lemma scorer_loop (avg range : Q) (elements : list Element) (acc : list Candidate) :
  0 <= range ->
  for_each (fun candidates e =>
              if is_paragraph e then Ok candidates
              else
                score <- heading_score avg range e ;;
                if Qle_bool HEADING_SCORE_THRESHOLD score
                then Ok (candidates ++ [{| elem := e; score := score |}])
                else Ok candidates)
    elements acc
  = Ok (acc ++ map (scored avg range) (filter (kept avg range) elements)).
Proof.
  intros Hr. revert acc.
  induction elements as [|e es IH]; intros acc; simpl.
  - now rewrite app_nil_r.
  - unfold kept at 1. destruct (is_paragraph e); simpl.
    + apply IH.
    + rewrite heading_score_total by exact Hr. simpl.
      unfold HEADING_SCORE_THRESHOLD.
      destruct (Qle_bool 5 (total_score avg range e)); simpl.
      * rewrite IH, <- app_assoc. reflexivity.
      * apply IH.
Qed.

Lemma non_paragraph_sizes_nonempty (elements : list Element) :
  (exists e, In e elements /\ is_paragraph e = false) ->
  non_paragraph_sizes elements <> [].
Proof.
  intros [e [Hin Hp]] E. unfold non_paragraph_sizes in E.
  apply map_eq_nil in E.
  assert (Hf : In e (filter (fun e => negb (is_paragraph e)) elements)).
  { apply filter_In. split; [exact Hin | now rewrite Hp]. }
  rewrite E in Hf. exact Hf.
Qed.

(** What [process_headings] returns when some line is not a paragraph. *)
Lemma process_headings_spec (elements : list Element) :
  (exists e, In e elements /\ is_paragraph e = false) ->
  exists avg hi lo,
    is_mean avg (non_paragraph_sizes elements)
    /\ is_max hi (non_paragraph_sizes elements)
    /\ is_min lo (non_paragraph_sizes elements)
    /\ process_headings elements
       = Ok (map (scored avg (hi - lo)) (filter (kept avg (hi - lo)) elements)).
Proof.
  intros Hex. pose proof (non_paragraph_sizes_nonempty elements Hex) as Hne.
  destruct (py_max_spec Hne) as [hi [Ehi Hhi]].
  destruct (py_min_spec Hne) as [lo [Elo Hlo]].
  exists (py_sum (non_paragraph_sizes elements) / len_Q (non_paragraph_sizes elements)), hi, lo.
  split; [now apply mean_is_mean|]. split; [exact Hhi|]. split; [exact Hlo|].
  unfold process_headings.
  destruct elements as [|e0 es]; [destruct Hex as [e [[] _]]|].
  fold (non_paragraph_sizes (e0 :: es)).
  destruct (non_paragraph_sizes (e0 :: es)) as [|s0 ss] eqn:Es; [congruence|].
  rewrite py_div_ok.
  2:{ pose proof (@len_Q_pos _ (s0 :: ss) ltac:(congruence)) as Hp.
      intros E. rewrite E in Hp. exact (Qlt_irrefl _ Hp). }
  cbn [bind]. rewrite Ehi, Elo. cbn [bind].
  rewrite scorer_loop; [reflexivity|].
  pose proof (min_le_max Hne Hlo Hhi). lra.
Qed.

(** Without any non-paragraph line there are no candidates. *)
Lemma process_headings_none (elements : list Element) :
  non_paragraph_sizes elements = [] -> process_headings elements = Ok [].
Proof.
  intros E. unfold process_headings. destruct elements; [reflexivity|].
  fold (non_paragraph_sizes (e :: elements)). now rewrite E.
Qed.

Lemma process_headings_total (elements : list Element) :
  exists candidates, process_headings elements = Ok candidates.
Proof.
  destruct (non_paragraph_sizes elements) as [|s ss] eqn:E.
  - exists []. now apply process_headings_none.
  - assert (Hex : exists e, In e elements /\ is_paragraph e = false).
    { unfold non_paragraph_sizes in E.
      destruct (filter (fun e => negb (is_paragraph e)) elements) as [|e l] eqn:Ef;
        [discriminate|].
      assert (Hin : In e (filter (fun e => negb (is_paragraph e)) elements))
        by (rewrite Ef; now left).
      apply filter_In in Hin. destruct Hin as [Hin Hp].
      exists e. split; [exact Hin|]. now destruct (is_paragraph e). }
    destruct (process_headings_spec elements Hex) as (avg & hi & lo & _ & _ & _ & H).
    eexists. exact H.
Qed.

End ScorerFacts.

Module ScorerTheorems.

Import Py PyFacts Engine Spec ScorerFacts.
Local Open Scope Q_scope.

(** In exact arithmetic the scorer keeps, in the order of the input,
    exactly the non-paragraph lines whose total score is at least 5, the
    ratio being [(fontSize - avgSize) / (sizeRange + 1e-6)] with [avgSize]
    the mean and [sizeRange] the maximum minus the minimum of the font
    sizes of the non-paragraph lines.  (What the scorer keeps in binary64
    arithmetic is stated in [FloatTheorems].) *)
Theorem process_headings_keeps_threshold (elements : list Element) :
  (exists e, In e elements /\ is_paragraph e = false) ->
  exists avgSize hi lo candidates,
    is_mean avgSize (non_paragraph_sizes elements)
    /\ is_max hi (non_paragraph_sizes elements)
    /\ is_min lo (non_paragraph_sizes elements)
    /\ process_headings elements = Ok candidates
    /\ candidates
       = map (scored avgSize (hi - lo))
           (filter (fun e => negb (is_paragraph e)
                             && Qle_bool 5 (total_score avgSize (hi - lo) e))
              elements)
    /\ forall e, In e elements -> is_paragraph e = false ->
         (total_score avgSize (hi - lo) e == 4 -> ~ In e (map elem candidates))
         /\ (total_score avgSize (hi - lo) e == 5 -> In e (map elem candidates)).
Proof.
  intros Hex.
  destruct (process_headings_spec elements Hex) as (avg & hi & lo & Ha & Hh & Hl & E).
  exists avg, hi, lo. eexists. repeat (split; [eassumption|]).
  split; [reflexivity|].
  assert (Hmap : forall l, map elem (map (scored avg (hi - lo)) l) = l).
  { intros l. rewrite map_map. simpl. apply map_id. }
  intros e Hin Hp. fold (kept avg (hi - lo)). rewrite Hmap. split; intros Hs.
  - intros Hk. apply filter_In in Hk. destruct Hk as [_ Hk].
    unfold kept in Hk. apply andb_prop in Hk. destruct Hk as [_ Hk].
    apply Qle_bool_iff in Hk. lra.
  - apply filter_In. split; [exact Hin|]. unfold kept. rewrite Hp. simpl.
    apply Qle_bool_iff. lra.
Qed.

Lemma process_headings_keeps_threshold_witness :
  (exists e, In e [Samples.plain_bold; Samples.centred_bold]
             /\ is_paragraph e = false)
  /\ exists avgSize hi lo candidates,
       is_mean avgSize (non_paragraph_sizes [Samples.plain_bold; Samples.centred_bold])
       /\ is_max hi (non_paragraph_sizes [Samples.plain_bold; Samples.centred_bold])
       /\ is_min lo (non_paragraph_sizes [Samples.plain_bold; Samples.centred_bold])
       /\ process_headings [Samples.plain_bold; Samples.centred_bold] = Ok candidates
       /\ candidates
          = map (scored avgSize (hi - lo))
              (filter (fun e => negb (is_paragraph e)
                                && Qle_bool 5 (total_score avgSize (hi - lo) e))
                 [Samples.plain_bold; Samples.centred_bold])
       /\ forall e, In e [Samples.plain_bold; Samples.centred_bold] ->
            is_paragraph e = false ->
            (total_score avgSize (hi - lo) e == 4 -> ~ In e (map elem candidates))
            /\ (total_score avgSize (hi - lo) e == 5 -> In e (map elem candidates)).
Proof.
  assert (H : exists e, In e [Samples.plain_bold; Samples.centred_bold]
                        /\ is_paragraph e = false).
  { exists Samples.plain_bold. split; [simpl; now left | reflexivity]. }
  split; [exact H|].
  exact (process_headings_keeps_threshold [Samples.plain_bold; Samples.centred_bold] H).
Defined.

(** The two sample lines: the total of 4 is dropped, the total of 5 kept. *)
Example process_headings_boundary :
  process_headings [Samples.plain_bold; Samples.centred_bold]
  = Ok [{| elem := Samples.centred_bold; score := 5 |}]
  /\ total_score 12 0 Samples.plain_bold == 4
  /\ total_score 12 0 Samples.centred_bold == 5.
Proof.
  split; [vm_compute; reflexivity|]. split; vm_compute; reflexivity.
Qed.

(** C8.  With every other feature fixed, a bold line scores at least as
    much as the same line not bold (two points more); and a word count
    above 15 earns no more length points than any word count of at most 15. *)
Theorem score_monotone (avg_size size_range : Q) (e : Element) (w w' : nat) :
  0 <= size_range -> (15 < w)%nat -> (w' <= 15)%nat ->
  (exists s0 s1,
      heading_score avg_size size_range (with_bold false e) = Ok s0
      /\ heading_score avg_size size_range (with_bold true e) = Ok s1
      /\ s1 == s0 + 2 /\ s0 <= s1)
  /\ length_points w == 0
  /\ length_points w <= length_points w'.
Proof.
  intros Hr Hw Hw'. split.
  - exists (total_score avg_size size_range (with_bold false e)),
           (total_score avg_size size_range (with_bold true e)).
    rewrite !heading_score_total by exact Hr.
    split; [reflexivity|]. split; [reflexivity|].
    unfold total_score, with_bold, bonus; simpl. split; lra.
  - unfold length_points.
    assert (E1 : (w <=? 10)%nat = false) by (apply Nat.leb_gt; lia).
    assert (E2 : (w <=? 15)%nat = false) by (apply Nat.leb_gt; lia).
    rewrite E1, E2. split; [reflexivity|].
    destruct (w' <=? 10)%nat; [lra|]. destruct (w' <=? 15)%nat; lra.
Qed.

Lemma score_monotone_witness :
  (exists s0 s1,
      heading_score 12 0 (with_bold false Samples.plain_bold) = Ok s0
      /\ heading_score 12 0 (with_bold true Samples.plain_bold) = Ok s1
      /\ s1 == s0 + 2 /\ s0 <= s1)
  /\ length_points 16 == 0
  /\ length_points 16 <= length_points 15.
Proof.
  apply (score_monotone 12 Samples.plain_bold (w := 16) (w' := 15)).
  - discriminate.
  - lia.
  - lia.
Defined.

(** Length points never increase with the word count. *)
Lemma length_points_antitone (w w' : nat) :
  (w <= w')%nat -> length_points w' <= length_points w.
Proof.
  intros H. unfold length_points.
  destruct (Nat.leb_spec w 10), (Nat.leb_spec w' 10),
           (Nat.leb_spec w 15), (Nat.leb_spec w' 15); try lia; lra.
Qed.

End ScorerTheorems.

(** ** The stable sort *)

Module SortFacts.

Import Py PyFacts.

Section SortBy.
Variables (A K : Type) (ltb : K -> K -> bool) (key : A -> K).

Hypothesis ltb_asym : forall a b, ltb a b = true -> ltb b a = false.
Hypothesis le_trans : forall a b c,
  ltb b a = false -> ltb c b = false -> ltb c a = false.

Lemma insert_by_perm (x : A) (l : list A) :
  Permutation (insert_by ltb key x l) (x :: l).
Proof.
  induction l as [|y l IH]; simpl; [reflexivity|].
  destruct (ltb (key y) (key x)); [|reflexivity].
  rewrite IH. apply perm_swap.
Qed.

Lemma sort_by_perm (l : list A) : Permutation (sort_by ltb key l) l.
Proof.
  induction l as [|x l IH]; simpl; [reflexivity|].
  rewrite insert_by_perm. now constructor.
Qed.

Lemma insert_by_sorted (x : A) (l : list A) :
  StronglySorted (key_le ltb key) l -> StronglySorted (key_le ltb key) (insert_by ltb key x l).
Proof.
  induction l as [|y l IH]; intros Hs; simpl.
  - constructor; constructor.
  - inversion Hs as [|? ? Hs' Hall]; subst.
    destruct (ltb (key y) (key x)) eqn:E.
    + constructor; [now apply IH|].
      apply Forall_forall. intros z Hz.
      apply (Permutation_in _ (insert_by_perm x l)) in Hz.
      destruct Hz as [<-|Hz].
      * unfold key_le. now apply ltb_asym.
      * rewrite Forall_forall in Hall. now apply Hall.
    + constructor; [exact Hs|].
      constructor; [exact E|].
      rewrite Forall_forall in Hall |- *. intros z Hz.
      unfold key_le. eapply le_trans; [exact E | now apply Hall].
Qed.

Lemma sort_by_sorted (l : list A) : StronglySorted (key_le ltb key) (sort_by ltb key l).
Proof.
  induction l as [|x l IH]; simpl; [constructor|].
  now apply insert_by_sorted.
Qed.

(** Stability: elements whose keys do not differ keep their order. *)
Lemma insert_by_stable (P : A -> bool) (x : A) (l : list A) :
  (forall a b, P a = true -> P b = true -> ltb (key a) (key b) = false) ->
  filter P (insert_by ltb key x l) = filter P (x :: l).
Proof.
  intros HP. induction l as [|y l IH]; [reflexivity|].
  simpl insert_by. destruct (ltb (key y) (key x)) eqn:E; [|reflexivity].
  simpl filter in *. rewrite IH.
  destruct (P x) eqn:Ex, (P y) eqn:Ey; try reflexivity.
  rewrite (HP y x Ey Ex) in E. discriminate.
Qed.

Lemma sort_by_stable (P : A -> bool) (l : list A) :
  (forall a b, P a = true -> P b = true -> ltb (key a) (key b) = false) ->
  filter P (sort_by ltb key l) = filter P l.
Proof.
  intros HP. induction l as [|x l IH]; [reflexivity|].
  simpl sort_by. rewrite insert_by_stable by exact HP.
  simpl. now rewrite IH.
Qed.

Lemma sort_by_length (l : list A) : List.length (sort_by ltb key l) = List.length l.
Proof. apply Permutation_length, sort_by_perm. Qed.

Lemma sort_by_in (l : list A) (x : A) : In x (sort_by ltb key l) <-> In x l.
Proof.
  split; apply Permutation_in; [|symmetry]; apply sort_by_perm.
Qed.

End SortBy.

(** A list already in order is left as it is. *)
Lemma sort_by_sorted_id (A K : Type) (ltb : K -> K -> bool) (key : A -> K)
    (l : list A) :
  StronglySorted (key_le ltb key) l -> sort_by ltb key l = l.
Proof.
  induction l as [|x l IH]; intros Hs; [reflexivity|].
  inversion Hs as [|? ? Hs' Hall]; subst. simpl. rewrite IH by exact Hs'.
  destruct l as [|y l]; [reflexivity|]. simpl.
  inversion Hall as [|? ? Hxy _]; subst. unfold key_le in Hxy. now rewrite Hxy.
Qed.

Local Open Scope Q_scope.

Lemma Qltb_asym (a b : Q) : Qltb a b = true -> Qltb b a = false.
Proof. rewrite Qltb_lt, Qltb_ge. apply Qlt_le_weak. Qed.

Lemma Qltb_le_trans (a b c : Q) :
  Qltb b a = false -> Qltb c b = false -> Qltb c a = false.
Proof. rewrite !Qltb_ge. apply Qle_trans. Qed.

(** The order of pairs of rationals, as [pair_ltb] decides it. *)
Lemma pair_QQ_ltb_spec (x y : Q * Q) :
  pair_ltb Qeq_bool Qltb Qltb x y = true
  <-> fst x < fst y \/ (fst x == fst y /\ snd x < snd y).
Proof.
  unfold pair_ltb. destruct (Qeq_bool (fst x) (fst y)) eqn:E.
  - apply Qeq_bool_iff in E. rewrite Qltb_lt. split.
    + intros H. right. now split.
    + intros [H|[_ H]]; [|exact H]. rewrite E in H. now apply Qlt_irrefl in H.
  - apply Qeq_bool_neq in E. rewrite Qltb_lt. split.
    + now left.
    + intros [H|[H _]]; [exact H | contradiction].
Qed.

Lemma pair_QQ_ltb_false (x y : Q * Q) :
  pair_ltb Qeq_bool Qltb Qltb y x = false
  <-> fst x < fst y \/ (fst x == fst y /\ snd x <= snd y).
Proof.
  unfold pair_ltb. destruct (Qeq_bool (fst y) (fst x)) eqn:E.
  - apply Qeq_bool_iff in E. rewrite Qltb_ge. split.
    + intros H. right. split; [now symmetry | exact H].
    + intros [H|[_ H]]; [|exact H]. rewrite E in H. now apply Qlt_irrefl in H.
  - apply Qeq_bool_neq in E. rewrite Qltb_ge. split.
    + intros H. left. apply Qle_lteq in H. destruct H as [H|H]; [exact H|].
      exfalso. apply E. now symmetry.
    + intros [H|[H _]]; [now apply Qlt_le_weak | exfalso; apply E; now symmetry].
Qed.

Lemma pair_QQ_asym (a b : Q * Q) :
  pair_ltb Qeq_bool Qltb Qltb a b = true -> pair_ltb Qeq_bool Qltb Qltb b a = false.
Proof.
  rewrite pair_QQ_ltb_spec, pair_QQ_ltb_false.
  intros [H|[H1 H2]]; [now left | right; split; [exact H1 | now apply Qlt_le_weak]].
Qed.

Lemma pair_QQ_le_trans (a b c : Q * Q) :
  pair_ltb Qeq_bool Qltb Qltb b a = false ->
  pair_ltb Qeq_bool Qltb Qltb c b = false ->
  pair_ltb Qeq_bool Qltb Qltb c a = false.
Proof.
  rewrite !pair_QQ_ltb_false.
  intros [H1|[H1 H1']] [H2|[H2 H2']].
  - left. eapply Qlt_trans; eassumption.
  - left. now rewrite <- H2.
  - left. now rewrite H1.
  - right. split; [now rewrite H1 | eapply Qle_trans; eassumption].
Qed.

(** The order of (page, top) pairs. *)
Lemma pair_ZQ_ltb_false (x y : Z * Q) :
  pair_ltb Z.eqb Z.ltb Qltb y x = false
  <-> (fst x < fst y)%Z \/ (fst x = fst y /\ snd x <= snd y).
Proof.
  unfold pair_ltb. destruct (Z.eqb_spec (fst y) (fst x)) as [E|E].
  - rewrite Qltb_ge. split.
    + intros H. right. now split.
    + intros [H|[_ H]]; [lia | exact H].
  - rewrite Z.ltb_ge. split.
    + intros H. left. lia.
    + intros [H|[H _]]; [lia | congruence].
Qed.

Lemma pair_ZQ_asym (a b : Z * Q) :
  pair_ltb Z.eqb Z.ltb Qltb a b = true -> pair_ltb Z.eqb Z.ltb Qltb b a = false.
Proof.
  rewrite pair_ZQ_ltb_false. unfold pair_ltb.
  destruct (Z.eqb_spec (fst a) (fst b)) as [E|E].
  - rewrite Qltb_lt. intros H. right. split; [exact E | now apply Qlt_le_weak].
  - rewrite Z.ltb_lt. now left.
Qed.

Lemma pair_ZQ_le_trans (a b c : Z * Q) :
  pair_ltb Z.eqb Z.ltb Qltb b a = false ->
  pair_ltb Z.eqb Z.ltb Qltb c b = false ->
  pair_ltb Z.eqb Z.ltb Qltb c a = false.
Proof.
  rewrite !pair_ZQ_ltb_false.
  intros [H1|[H1 H1']] [H2|[H2 H2']].
  - left. lia.
  - left. lia.
  - left. lia.
  - right. split; [congruence | eapply Qle_trans; eassumption].
Qed.

End SortFacts.

(** ** Strings *)

Module TextFacts.

Import Text Spec.
Local Open Scope string_scope.

Lemma append_assoc (a b c : string) : (a ++ b) ++ c = a ++ (b ++ c).
Proof. induction a as [|x a IH]; simpl; [reflexivity | now rewrite IH]. Qed.

Lemma append_nil_r (a : string) : a ++ "" = a.
Proof. induction a as [|x a IH]; simpl; [reflexivity | now rewrite IH]. Qed.

Lemma append_eq_nil (a b : string) : a ++ b = "" -> a = "" /\ b = "".
Proof. destruct a; simpl; [auto | discriminate]. Qed.

Lemma lstrip_length (s : string) : (String.length (lstrip s) <= String.length s)%nat.
Proof.
  induction s as [|c s IH]; simpl; [lia|].
  destruct (is_space c); simpl; lia.
Qed.

Lemma rstrip_length (s : string) : (String.length (rstrip s) <= String.length s)%nat.
Proof.
  induction s as [|c s IH]; simpl; [lia|].
  destruct (rstrip s); [destruct (is_space c)|]; simpl in *; lia.
Qed.

(** A text that [lstrip] leaves alone is empty or starts with a
    non-space character. *)
Lemma lstrip_fixed (c : ascii) (s : string) :
  lstrip (String c s) = String c s -> is_space c = false.
Proof.
  simpl. destruct (is_space c); [|reflexivity]. intros E.
  pose proof (lstrip_length s) as H. rewrite E in H. simpl in H. lia.
Qed.

Lemma strip_fixed (s : string) : strip s = s -> lstrip s = s /\ rstrip s = s.
Proof.
  unfold strip. intros E.
  assert (El : lstrip s = s).
  { destruct s as [|c s]; [reflexivity|]. simpl in *.
    destruct (is_space c); [|reflexivity].
    pose proof (rstrip_length (lstrip s)) as H1.
    pose proof (lstrip_length s) as H2.
    rewrite E in H1. simpl in H1. lia. }
  split; [exact El|]. now rewrite El in E.
Qed.

Lemma rstrip_app (a b : string) : rstrip b <> "" -> rstrip (a ++ b) = a ++ rstrip b.
Proof.
  intros Hb. induction a as [|c a IH]; simpl; [reflexivity|].
  rewrite IH. destruct (a ++ rstrip b) eqn:E; [|reflexivity].
  apply append_eq_nil in E. destruct E as [_ E]. contradiction.
Qed.

Lemma lstrip_app (a b : string) : a <> "" -> lstrip a = a -> lstrip (a ++ b) = a ++ b.
Proof.
  intros Ha E. destruct a as [|c a]; [congruence|].
  apply lstrip_fixed in E. simpl. now rewrite E.
Qed.

(** Joining trimmed, non-empty texts gives a trimmed text. *)
Lemma trimmed_app (a m b : string) :
  a <> "" -> trimmed a -> b <> "" -> trimmed b -> trimmed (a ++ m ++ b).
Proof.
  intros Ha Ta Hb Tb. apply strip_fixed in Ta, Tb.
  destruct Ta as [La _], Tb as [_ Rb]. unfold trimmed, strip.
  rewrite lstrip_app by assumption.
  rewrite <- append_assoc, rstrip_app by (rewrite Rb; exact Hb).
  now rewrite Rb.
Qed.

Lemma join_nonempty (sep : string) (l : list string) :
  l <> [] -> Forall (fun t => t <> "") l -> join sep l <> "".
Proof.
  destruct l as [|x l]; [congruence|]. intros _ H.
  inversion H as [|? ? Hx _]; subst. simpl.
  destruct l; [exact Hx|]. intros E. apply append_eq_nil in E. tauto.
Qed.

Lemma trimmed_join (sep : string) (l : list string) :
  Forall (fun t => t <> "" /\ trimmed t) l -> trimmed (join sep l).
Proof.
  induction l as [|x l IH]; intros H; [reflexivity|].
  inversion H as [|? ? [Hx Tx] Hl]; subst.
  destruct l as [|y l]; [exact Tx|].
  change (join sep (x :: y :: l)) with (x ++ sep ++ join sep (y :: l)).
  apply trimmed_app; [exact Hx | exact Tx | | now apply IH].
  apply join_nonempty; [congruence|].
  eapply Forall_impl; [|exact Hl]. simpl. tauto.
Qed.

Lemma rstrip_cons (c : ascii) (s : string) :
  rstrip (String c s)
  = match rstrip s with
    | "" => if is_space c then "" else String c ""
    | String d r => String c (String d r)
    end.
Proof. reflexivity. Qed.

Lemma rstrip_idempotent (s : string) : rstrip (rstrip s) = rstrip s.
Proof.
  induction s as [|c s IH]; [reflexivity|].
  rewrite (rstrip_cons c s). destruct (rstrip s) as [|d r] eqn:E.
  - destruct (is_space c) eqn:Ec; [reflexivity|].
    rewrite rstrip_cons. simpl. now rewrite Ec.
  - rewrite rstrip_cons, IH. reflexivity.
Qed.

Lemma lstrip_idempotent (s : string) : lstrip (lstrip s) = lstrip s.
Proof.
  induction s as [|c s IH]; simpl; [reflexivity|].
  destruct (is_space c) eqn:E; [exact IH | simpl; now rewrite E].
Qed.

Lemma lstrip_rstrip (s : string) : lstrip s = s -> lstrip (rstrip s) = rstrip s.
Proof.
  intros Hs. destruct s as [|c s]; [reflexivity|].
  apply lstrip_fixed in Hs. rewrite rstrip_cons.
  destruct (rstrip s); [rewrite Hs|]; simpl; now rewrite Hs.
Qed.

Lemma strip_idempotent (s : string) : trimmed (strip s).
Proof.
  unfold trimmed, strip.
  rewrite lstrip_rstrip by apply lstrip_idempotent.
  apply rstrip_idempotent.
Qed.

(** A text that is not blocked is not empty once trimmed. *)
Lemma not_blocked_nonempty (t : string) :
  Classify.is_blocked t = false -> strip t <> "".
Proof.
  unfold Classify.is_blocked. intros H E. rewrite E in H. discriminate.
Qed.

End TextFacts.

(** ** The title detector *)

Module TitleFacts.

Import Text Py PyFacts SortFacts TextFacts Engine Spec.
Local Open Scope Q_scope.

Lemma StronglySorted_weaken (A : Type) (R R' : A -> A -> Prop) (l : list A) :
  (forall a b, R a b -> R' a b) -> StronglySorted R l -> StronglySorted R' l.
Proof.
  intros HR. induction 1 as [|x l Hs IH Hall]; constructor; [exact IH|].
  eapply Forall_impl; [|exact Hall]. intros b. apply HR.
Qed.

Lemma within_half_code (m : Q) (e : Element) :
  Qltb (Qabs (font_size e - m)) (1 # 2) = within_half m e.
Proof.
  unfold within_half. destruct (Qlt_le_dec (Qabs (font_size e - m)) (1 # 2)) as [H|H].
  - now apply Qltb_lt.
  - now apply Qltb_ge.
Qed.

(** The lines the title is read from: those near the maximum, by top. *)
Lemma find_title_unfold (elements : list Element) :
  first_page_lines elements <> [] ->
  exists m,
    is_max m (map font_size (first_page_lines elements))
    /\ find_title elements
       = Ok (strip (join " " (map text (firstn 3
               (sort_by Qltb top (filter (within_half m) (first_page_lines elements))))))).
Proof.
  intros Hne.
  assert (Hs : map font_size (first_page_lines elements) <> []).
  { intros E. apply map_eq_nil in E. contradiction. }
  destruct (py_max_spec Hs) as [m [Em Hm]].
  exists m. split; [exact Hm|].
  unfold find_title. fold (first_page_lines elements).
  destruct (first_page_lines elements) as [|e0 l0] eqn:El; [congruence|].
  rewrite Em. cbn [bind]. do 6 f_equal.
  apply filter_ext. intros e. apply within_half_code.
Qed.

Lemma find_title_empty (elements : list Element) :
  first_page_lines elements = [] -> find_title elements = Ok EmptyString.
Proof.
  intros E. unfold find_title. fold (first_page_lines elements). now rewrite E.
Qed.

Lemma find_title_total (elements : list Element) :
  exists t, find_title elements = Ok t.
Proof.
  destruct (first_page_lines elements) eqn:E.
  - eexists. now apply find_title_empty.
  - destruct (find_title_unfold elements) as [m [_ H]]; [congruence|].
    eexists. exact H.
Qed.

Lemma first_page_lines_in (elements : list Element) (e : Element) :
  In e (first_page_lines elements) ->
  In e elements /\ page e = 1%Z /\ Classify.is_blocked (text e) = false.
Proof.
  unfold first_page_lines. rewrite filter_In. intros [Hin H].
  apply andb_prop in H. destruct H as [Hp Hb].
  split; [exact Hin|]. split; [now apply Z.eqb_eq | now apply negb_true_iff].
Qed.

Lemma title_text_nonempty (e : Element) :
  trimmed (text e) -> Classify.is_blocked (text e) = false -> text e <> EmptyString.
Proof.
  intros Ht Hb E. apply not_blocked_nonempty in Hb. rewrite Ht in Hb. contradiction.
Qed.

Lemma firstn_in_weak (A : Type) (n : nat) (l : list A) (x : A) :
  In x (firstn n l) -> In x l.
Proof.
  revert l. induction n as [|n IH]; intros [|y l]; simpl; try tauto.
  intros [H|H]; [now left | right; now apply IH].
Qed.

Lemma within_half_iff (m : Q) (e : Element) :
  within_half m e = true <-> - (1 # 2) < font_size e - m /\ font_size e - m < 1 # 2.
Proof.
  unfold within_half.
  destruct (Qlt_le_dec (Qabs (font_size e - m)) (1 # 2)) as [H|H].
  - split; [intros _ | reflexivity]. now apply Qabs_Qlt_condition.
  - split; [discriminate|]. intros H'. apply Qabs_Qlt_condition in H'.
    exfalso. exact (Qlt_not_le _ _ H' H).
Qed.

Lemma title_line_kept (e : Element) :
  title_line e -> (page e =? 1)%Z && negb (Classify.is_blocked (text e)) = true.
Proof. intros (Hp & _ & Hb). now rewrite Hp, Hb. Qed.

(** The first page of the specification's example: sizes 24, 24, 12, 24
    from top to bottom. *)
Lemma find_title_four (a b c d : Element) :
  title_line a -> title_line b -> title_line c -> title_line d ->
  font_size a == 24 -> font_size b == 24 -> font_size c == 12 -> font_size d == 24 ->
  top a < top b -> top b < top c -> top c < top d ->
  find_title [a; b; c; d]
  = Ok (text a ++ " " ++ text b ++ " " ++ text d)%string.
Proof.
  intros La Lb Lc Ld Fa Fb Fc Fd Hab Hbc Hcd.
  assert (Hfp : first_page_lines [a; b; c; d] = [a; b; c; d]).
  { unfold first_page_lines. cbn [filter].
    now rewrite !title_line_kept by assumption. }
  destruct (find_title_unfold [a; b; c; d]) as [m [[[x [Hx Exm]] Hub] E]];
    [rewrite Hfp; discriminate|].
  rewrite E, Hfp. rewrite Hfp in Hx, Hub. clear E Hfp.
  assert (Hm : m == 24).
  { apply Qle_antisym.
    - rewrite <- Exm. simpl in Hx.
      destruct Hx as [<-|[<-|[<-|[<-|[]]]]]; lra.
    - rewrite <- Fa. apply Hub. now left. }
  assert (Wa : within_half m a = true) by (apply within_half_iff; lra).
  assert (Wb : within_half m b = true) by (apply within_half_iff; lra).
  assert (Wd : within_half m d = true) by (apply within_half_iff; lra).
  assert (Wc : within_half m c = false).
  { destruct (within_half m c) eqn:E; [|reflexivity].
    apply within_half_iff in E. lra. }
  cbn [filter]. rewrite Wa, Wb, Wc, Wd.
  assert (Hs : sort_by Qltb top [a; b; d] = [a; b; d]).
  { apply sort_by_sorted_id. unfold key_le.
    repeat constructor; apply Qltb_ge; lra. }
  rewrite Hs. cbn [firstn map]. f_equal.
  destruct La as (_ & Ta & Ba), Lb as (_ & Tb & Bb), Ld as (_ & Td & Bd).
  apply (@trimmed_join " "%string [text a; text b; text d]).
  repeat constructor; auto using title_text_nonempty.
Qed.

End TitleFacts.

Module TitleTheorems.

Import Text Py PyFacts SortFacts TextFacts Engine Spec TitleFacts.
Local Open Scope Q_scope.

(** C2.  On lines with trimmed texts (as the extraction produces them),
    [find_title] returns the empty string when page 1 has no line that is
    not blocked; otherwise it returns the texts, joined by single spaces,
    of the first three lines, in ascending order of the top of their
    bounding box (lines with the same top keep their order), among the
    page-1 lines whose font size is within 0.5 units of the largest font
    size on page 1.  For a first page of four lines of sizes 24, 24, 12,
    24 from top to bottom the title is the three size-24 texts in that
    order, without the size-12 line. *)
Theorem find_title_spec (elements : list Element) :
  Forall (fun e => trimmed (text e)) elements ->
  (first_page_lines elements = [] -> find_title elements = Ok EmptyString)
  /\ (first_page_lines elements <> [] ->
      exists m S,
        is_max m (map font_size (first_page_lines elements))
        /\ Permutation S (filter (within_half m) (first_page_lines elements))
        /\ StronglySorted (fun x y => top x <= top y) S
        /\ (forall t,
              filter (fun e => Qeq_bool (top e) t) S
              = filter (fun e => Qeq_bool (top e) t)
                  (filter (within_half m) (first_page_lines elements)))
        /\ find_title elements = Ok (join " " (map text (firstn 3 S))))
  /\ (forall a b c d : Element,
        title_line a -> title_line b -> title_line c -> title_line d ->
        font_size a == 24 -> font_size b == 24 ->
        font_size c == 12 -> font_size d == 24 ->
        top a < top b -> top b < top c -> top c < top d ->
        find_title [a; b; c; d]
        = Ok (text a ++ " " ++ text b ++ " " ++ text d)%string).
Proof.
  intros Htrim.
  split; [apply find_title_empty|].
  split; [|intros a b c d; apply find_title_four].
  intros Hne. destruct (find_title_unfold elements Hne) as [m [Hm E]].
  exists m, (sort_by Qltb top (filter (within_half m) (first_page_lines elements))).
  split; [exact Hm|].
  split; [apply sort_by_perm|].
  split.
  { eapply StronglySorted_weaken; [|apply sort_by_sorted].
    - intros x y H. now apply Qltb_ge in H.
    - apply Qltb_asym.
    - apply Qltb_le_trans. }
  split.
  { intros t. apply sort_by_stable. intros x y Hx Hy.
    apply Qeq_bool_iff in Hx, Hy. apply Qltb_ge. rewrite Hx, Hy. apply Qle_refl. }
  rewrite E. f_equal. apply trimmed_join.
  apply Forall_forall. intros t Ht. apply in_map_iff in Ht.
  destruct Ht as [e [<- He]].
  apply firstn_in_weak in He. apply sort_by_in in He.
  apply filter_In in He. destruct He as [He _].
  apply first_page_lines_in in He. destruct He as (Hin & _ & Hb).
  rewrite Forall_forall in Htrim. specialize (Htrim e Hin).
  split; [now apply title_text_nonempty | exact Htrim].
Qed.

Lemma find_title_spec_witness :
  find_title Samples.title_sample = Ok "Annual Energy Outlook"%string
  /\ (first_page_lines Samples.title_sample <> [] ->
      exists m S,
        is_max m (map font_size (first_page_lines Samples.title_sample))
        /\ Permutation S (filter (within_half m) (first_page_lines Samples.title_sample))
        /\ StronglySorted (fun x y => top x <= top y) S
        /\ (forall t,
              filter (fun e => Qeq_bool (top e) t) S
              = filter (fun e => Qeq_bool (top e) t)
                  (filter (within_half m) (first_page_lines Samples.title_sample)))
        /\ find_title Samples.title_sample = Ok (join " " (map text (firstn 3 S)))).
Proof.
  assert (Ht : Forall (fun e => trimmed (text e)) Samples.title_sample)
    by (repeat constructor).
  destruct (find_title_spec Ht) as (_ & H & E).
  split; [|exact H].
  apply (E Samples.title_a Samples.title_b Samples.title_c Samples.title_d);
    try reflexivity; repeat split.
Defined.

End TitleTheorems.

(** ** Style clusters *)

Module ClusterFacts.

Import Text Py PyFacts SortFacts Engine Spec.
Local Open Scope Q_scope.

Lemma key_eqb_refl (k : StyleKey) : key_eqb k k = true.
Proof.
  unfold key_eqb. rewrite Qeq_bool_refl, !Bool.eqb_reflx. reflexivity.
Qed.

Lemma key_eqb_sym (a b : StyleKey) : key_eqb a b = key_eqb b a.
Proof.
  unfold key_eqb. rewrite Qeq_bool_comm.
  destruct (k_bold a), (k_bold b), (k_italic a), (k_italic b),
           (k_caps a), (k_caps b), (k_centered a), (k_centered b); reflexivity.
Qed.

Lemma key_eqb_true (a b : StyleKey) :
  key_eqb a b = true
  <-> k_size a == k_size b /\ k_bold a = k_bold b /\ k_italic a = k_italic b
      /\ k_caps a = k_caps b /\ k_centered a = k_centered b.
Proof.
  unfold key_eqb. rewrite !andb_true_iff, Qeq_bool_iff, !Bool.eqb_true_iff. tauto.
Qed.

Lemma key_eqb_trans (a b c : StyleKey) :
  key_eqb a b = true -> key_eqb b c = true -> key_eqb a c = true.
Proof.
  rewrite !key_eqb_true.
  intros (H1 & H2 & H3 & H4 & H5) (G1 & G2 & G3 & G4 & G5).
  repeat split; try congruence. now rewrite H1.
Qed.

Lemma key_eqb_false_l (a b c : StyleKey) :
  key_eqb a b = true -> key_eqb b c = false -> key_eqb a c = false.
Proof.
  intros H1 H2. destruct (key_eqb a c) eqn:E; [|reflexivity].
  rewrite key_eqb_sym in H1. rewrite (key_eqb_trans _ _ _ H1 E) in H2. discriminate.
Qed.

Lemma py_round_comp (x y : Q) : x == y -> py_round x = py_round y.
Proof.
  intros H. unfold py_round. cbv zeta.
  assert (Ef : Qfloor x = Qfloor y) by (now apply Qfloor_comp).
  rewrite Ef.
  assert (Ec : Qcompare (x - inject_Z (Qfloor y)) (1 # 2)
               = Qcompare (y - inject_Z (Qfloor y)) (1 # 2)).
  { apply Qcompare_comp; [|reflexivity]. now rewrite H. }
  now rewrite Ec.
Qed.

(** Candidates of the same style have the same signature. *)
Lemma same_style_key (c1 c2 : Candidate) :
  same_style c1 c2 -> key_eqb (style_key c1) (style_key c2) = true.
Proof.
  intros (Hf & Hb & Hi & Hc & Hx). apply key_eqb_true. simpl.
  repeat split; try assumption.
  assert (E : py_round (font_size c1 * 2) = py_round (font_size c2 * 2)).
  { apply py_round_comp. now rewrite Hf. }
  now rewrite E.
Qed.

(** *** The dictionary of clusters *)

(** The keys after [clusters[k].append(c)]: a new key goes last. *)
Lemma dict_append_keys (k : StyleKey) (c : Candidate) (d : Clusters) :
  (map fst (dict_append k c d) = map fst d /\ exists x, In x d /\ key_eqb k (fst x) = true)
  \/ (map fst (dict_append k c d) = map fst d ++ [k] /\ no_entry k d).
Proof.
  unfold no_entry. induction d as [|[k0 it0] d IH]; simpl.
  - right. split; [reflexivity | intros x []].
  - destruct (key_eqb k k0) eqn:E; simpl.
    + left. split; [reflexivity|]. exists (k0, it0). split; [now left | exact E].
    + destruct IH as [[Hk [x [Hx Ex]]]|[Hk Hno]].
      * left. rewrite Hk. split; [reflexivity|]. exists x. split; [now right | exact Ex].
      * right. rewrite Hk. split; [reflexivity|].
        intros x [<-|Hx]; [exact E | now apply Hno].
Qed.

(** The entries after [clusters[k].append(c)]. *)
Lemma dict_append_in (k : StyleKey) (c : Candidate) (d : Clusters)
    (k' : StyleKey) (items' : list Candidate) :
  distinct_keys d ->
  In (k', items') (dict_append k c d) ->
  (In (k', items') d /\ key_eqb k k' = false)
  \/ (exists items, In (k', items) d /\ key_eqb k k' = true /\ items' = items ++ [c])
  \/ ((k', items') = (k, [c]) /\ no_entry k d).
Proof.
  unfold distinct_keys, no_entry.
  induction d as [|[k0 it0] d IH]; simpl; intros HD Hin.
  - destruct Hin as [Hin|[]]. right. right. split; [now symmetry | intros x []].
  - inversion HD as [|? ? Hall HD']; subst.
    destruct (key_eqb k k0) eqn:E.
    + destruct Hin as [Hin|Hin].
      * inversion Hin; subst. right. left. exists it0.
        split; [now left|]. split; [exact E | reflexivity].
      * left. split; [now right|].
        rewrite Forall_forall in Hall.
        apply (key_eqb_false_l _ _ _ E). apply Hall.
        apply in_map_iff. now exists (k', items').
    + destruct Hin as [Hin|Hin].
      * inversion Hin; subst. left. split; [now left | exact E].
      * destruct (IH HD' Hin) as [[H1 H2]|[[items (H1 & H2 & H3)]|[H1 H2]]].
        -- left. split; [now right | exact H2].
        -- right. left. exists items. split; [now right|]. now split.
        -- right. right. split; [exact H1|].
           intros x [<-|Hx]; [exact E | now apply H2].
Qed.

(** Entries are never removed, only extended. *)
Lemma dict_append_keeps (k : StyleKey) (c : Candidate) (d : Clusters)
    (k' : StyleKey) (items : list Candidate) :
  In (k', items) d -> exists items', In (k', items') (dict_append k c d).
Proof.
  induction d as [|[k0 it0] d IH]; simpl; [intros []|].
  intros [Hin|Hin]; destruct (key_eqb k k0) eqn:E.
  - inversion Hin; subst. eexists. now left.
  - inversion Hin; subst. eexists. now left.
  - exists items. now right.
  - destruct (IH Hin) as [items' H]. exists items'. now right.
Qed.

Lemma dict_append_has (k : StyleKey) (c : Candidate) (d : Clusters) :
  exists k' items, In (k', items) (dict_append k c d) /\ key_eqb k k' = true.
Proof.
  induction d as [|[k0 it0] d IH]; simpl.
  - exists k, [c]. split; [now left | apply key_eqb_refl].
  - destruct (key_eqb k k0) eqn:E.
    + exists k0, (it0 ++ [c]). split; [now left | exact E].
    + destruct IH as (k' & items & H1 & H2). exists k', items. split; [now right | exact H2].
Qed.

Lemma distinct_keys_snoc (ks : list StyleKey) (k : StyleKey) :
  ForallOrdPairs (fun k1 k2 => key_eqb k1 k2 = false) ks ->
  (forall k', In k' ks -> key_eqb k k' = false) ->
  ForallOrdPairs (fun k1 k2 => key_eqb k1 k2 = false) (ks ++ [k]).
Proof.
  induction 1 as [|a l Hall HD IH]; intros Hk; simpl.
  - constructor; constructor.
  - constructor.
    + apply Forall_app. split; [exact Hall|].
      constructor; [|constructor]. rewrite key_eqb_sym. apply Hk. now left.
    + apply IH. intros k' Hk'. apply Hk. now right.
Qed.

Lemma grouped_step (pre : list Candidate) (d : Clusters) (c : Candidate) :
  grouped pre d -> grouped (pre ++ [c]) (dict_append (style_key c) c d).
Proof.
  intros (HD & HG & HC).
  assert (Hnone : no_entry (style_key c) d -> filter (has_key (style_key c)) pre = []).
  { intros Hno.
    assert (Hall : forall c', In c' pre -> has_key (style_key c) c' = false).
    { intros c' Hc'. destruct (HC c' Hc') as (k3 & it3 & Hin3 & Hk3).
      specialize (Hno _ Hin3). simpl in Hno. unfold has_key in *.
      destruct (key_eqb (style_key c') (style_key c)) eqn:E; [|reflexivity].
      rewrite key_eqb_sym in E.
      rewrite (key_eqb_trans _ _ _ E Hk3) in Hno. discriminate. }
    clear - Hall. induction pre as [|c' pre IH]; [reflexivity|]. simpl.
    rewrite Hall by now left. apply IH. intros c'' H. apply Hall. now right. }
  split; [|split].
  - unfold distinct_keys.
    destruct (dict_append_keys (style_key c) c d) as [[-> _]|[-> Hno]]; [exact HD|].
    apply distinct_keys_snoc; [exact HD|].
    intros k' Hk'. apply in_map_iff in Hk'. destruct Hk' as [x [<- Hx]]. now apply Hno.
  - intros k items Hin. rewrite filter_app. simpl. unfold has_key at 2.
    destruct (@dict_append_in _ _ _ _ _ HD Hin)
      as [[H1 H2]|[[it0 (H1 & H2 & H3)]|[H1 H2]]].
    + rewrite H2, app_nil_r. now apply HG.
    + rewrite H2. destruct (HG _ _ H1) as [_ ->]. subst items.
      split; [now destruct (filter (has_key k) pre)|reflexivity].
    + inversion H1; subst. rewrite key_eqb_refl.
      split; [discriminate|]. now rewrite Hnone.
  - intros c' Hin. apply in_app_or in Hin. destruct Hin as [Hin|[<-|[]]].
    + destruct (HC c' Hin) as (k & items & H1 & H2).
      destruct (@dict_append_keeps (style_key c) c _ _ _ H1) as [items' H].
      exists k, items'. now split.
    + destruct (dict_append_has (style_key c) c d) as (k' & items & H1 & H2).
      exists k', items. now split.
Qed.

Lemma build_clusters_grouped (candidates : list Candidate) :
  grouped candidates (build_clusters candidates).
Proof.
  unfold build_clusters.
  assert (H : forall cs pre d,
             grouped pre d ->
             grouped (pre ++ cs)
               (fold_left (fun clusters c => dict_append (style_key c) c clusters) cs d)).
  { induction cs as [|c cs IH]; intros pre d Hg; simpl.
    - now rewrite app_nil_r.
    - replace (pre ++ c :: cs) with ((pre ++ [c]) ++ cs)
        by (now rewrite <- app_assoc).
      apply IH. now apply grouped_step. }
  apply (H candidates [] []).
  split; [constructor|]. split; [intros k items []|intros c []].
Qed.

Lemma distinct_separated (d : Clusters) : distinct_keys d -> separated d.
Proof.
  unfold distinct_keys, separated.
  induction d as [|x d IH]; simpl; intros HD.
  - split; [constructor | intros x y []].
  - inversion HD as [|? ? Hall HD']; subst.
    destruct (IH HD') as [Hnd Hinj].
    rewrite Forall_forall in Hall.
    assert (Hx : forall y, In y d -> key_eqb (fst x) (fst y) = false).
    { intros y Hy. apply Hall. now apply in_map. }
    split.
    + constructor; [|exact Hnd]. intros Hin.
      specialize (Hx x Hin). rewrite key_eqb_refl in Hx. discriminate.
    + intros a b [<-|Ha] [<-|Hb] E.
      * reflexivity.
      * rewrite (Hx b Hb) in E. discriminate.
      * rewrite key_eqb_sym, (Hx a Ha) in E. discriminate.
      * now apply Hinj.
Qed.

Lemma separated_perm (d d' : Clusters) :
  Permutation d d' -> separated d -> separated d'.
Proof.
  intros HP [Hnd Hinj]. split.
  - eapply Permutation_NoDup; eassumption.
  - intros x y Hx Hy. apply Hinj; eapply Permutation_in; try eassumption;
      now symmetry.
Qed.

Lemma grouped_groups (candidates : list Candidate) (d : Clusters) :
  grouped candidates d -> groups_by_style candidates d.
Proof.
  intros (HD & HG & HC). split; [now apply distinct_separated|]. now split.
Qed.

Lemma groups_perm (candidates : list Candidate) (d d' : Clusters) :
  Permutation d d' -> groups_by_style candidates d -> groups_by_style candidates d'.
Proof.
  intros HP (HS & HG & HC). split; [eapply separated_perm; eassumption|]. split.
  - intros k items Hin. apply HG. eapply Permutation_in; [symmetry|]; eassumption.
  - intros c Hc. destruct (HC c Hc) as (k & items & H1 & H2).
    exists k, items. split; [eapply Permutation_in; eassumption | exact H2].
Qed.

(** *** Ranking the clusters *)

Lemma cluster_key_ok (x : StyleKey * list Candidate) :
  snd x <> [] -> cluster_key x = Ok (rank_key x).
Proof.
  intros H. unfold cluster_key, rank_key. rewrite py_div_ok; [reflexivity|].
  pose proof (len_Q_pos H) as Hp. intros E. rewrite E in Hp.
  exact (Qlt_irrefl _ Hp).
Qed.

Lemma mapM_ok (A B : Type) (f : A -> result B) (g : A -> B) (l : list A) :
  (forall x, In x l -> f x = Ok (g x)) -> mapM f l = Ok (map g l).
Proof.
  induction l as [|x l IH]; intros H; simpl; [reflexivity|].
  rewrite H by now left. simpl. rewrite IH; [reflexivity|].
  intros y Hy. apply H. now right.
Qed.

Lemma StronglySorted_map (A B : Type) (R : A -> A -> Prop) (R' : B -> B -> Prop)
    (P : A -> Prop) (f : A -> B) (l : list A) :
  (forall a b, P a -> P b -> R a b -> R' (f a) (f b)) ->
  Forall P l -> StronglySorted R l -> StronglySorted R' (map f l).
Proof.
  intros HR HP Hs. induction Hs as [|x l Hs IH Hall]; simpl; [constructor|].
  inversion HP as [|? ? Px Pl]; subst.
  constructor; [now apply IH|].
  rewrite Forall_forall in *. intros y Hy. apply in_map_iff in Hy.
  destruct Hy as [a [<- Ha]]. apply HR; auto.
Qed.

Lemma rank_key_order (x y : StyleKey * list Candidate) :
  pair_ltb Qeq_bool Qltb Qltb (rank_key y) (rank_key x) = false -> ranks_before x y.
Proof.
  intros H. apply pair_QQ_ltb_false in H. unfold rank_key in H. simpl in H.
  unfold ranks_before, mean_score.
  assert (E : forall s l : Q, - s / l == - (s / l)) by (intros; unfold Qdiv; ring).
  rewrite !E in H. destruct H as [H|[H1 H2]].
  - left. lra.
  - right. split; lra.
Qed.

(** Sorting the clusters cannot fail when no cluster is empty; the result
    is a rearrangement of the clusters in rank order. *)
Lemma sort_clusters_spec (d : Clusters) :
  (forall x, In x d -> snd x <> []) ->
  exists ranked,
    sort_clusters d = Ok ranked
    /\ Permutation ranked d
    /\ StronglySorted ranks_before ranked.
Proof.
  intros Hne. unfold sort_clusters.
  rewrite (@mapM_ok _ _ _ (fun x => (rank_key x, x))).
  2:{ intros x Hx. now rewrite cluster_key_ok by auto. }
  cbn [bind]. eexists. split; [reflexivity|].
  set (keyed := map (fun x => (rank_key x, x)) d).
  pose proof (sort_by_perm (pair_ltb Qeq_bool Qltb Qltb) fst keyed) as HP.
  split.
  - rewrite HP. unfold keyed. rewrite map_map. simpl. now rewrite map_id.
  - eapply (@StronglySorted_map _ _ (key_le (pair_ltb Qeq_bool Qltb Qltb) fst) _
              (fun p => fst p = rank_key (snd p))).
    + intros a b Ha Hb Hab. unfold key_le in Hab. rewrite Ha, Hb in Hab.
      now apply rank_key_order.
    + apply Forall_forall. intros p Hp.
      apply (Permutation_in _ HP) in Hp. unfold keyed in Hp.
      apply in_map_iff in Hp. destruct Hp as [x [<- _]]. reflexivity.
    + apply sort_by_sorted; [apply pair_QQ_asym | apply pair_QQ_le_trans].
Qed.

(** *** Emitting the headings *)

Lemma emit_items (level : nat) (items : list Candidate) (hs : list Heading) :
  fold_left (fun hs item => hs ++ [make_heading level item]) items hs
  = hs ++ map (make_heading level) items.
Proof.
  revert hs. induction items as [|c items IH]; intros hs; simpl.
  - now rewrite app_nil_r.
  - rewrite IH, <- app_assoc. reflexivity.
Qed.

Lemma emit_headings_spec (ranked : Clusters) :
  emit_headings ranked = map heading_of (levelled 1 ranked).
Proof.
  unfold emit_headings.
  assert (H : forall cl level hs,
    snd (fold_left
           (fun st x =>
              let '(level, headings) := st in
              (S level,
               fold_left (fun hs item => hs ++ [make_heading level item])
                 (snd x) headings))
           cl (level, hs))
    = hs ++ map heading_of (levelled level cl)).
  { induction cl as [|[k items] cl IH]; intros level hs; simpl.
    - now rewrite app_nil_r.
    - rewrite IH, emit_items, map_app, map_map, <- app_assoc. reflexivity. }
  apply (H ranked 1%nat []).
Qed.

(** What [assign_heading_levels] computes. *)
Lemma assign_heading_levels_spec (candidates : list Candidate) :
  exists ranked,
    sort_clusters (build_clusters candidates) = Ok ranked
    /\ groups_by_style candidates ranked
    /\ StronglySorted ranks_before ranked
    /\ assign_heading_levels candidates
       = Ok (sort_by (pair_ltb Z.eqb Z.ltb Qltb) reading_key
               (map heading_of (levelled 1 ranked))).
Proof.
  pose proof (build_clusters_grouped candidates) as Hg.
  destruct (sort_clusters_spec (build_clusters candidates)) as (ranked & E & HP & Hs).
  { intros [k items] Hin. destruct Hg as (_ & HG & _). now apply (HG k items). }
  exists ranked. split; [exact E|].
  split; [eapply groups_perm; [symmetry; exact HP | now apply grouped_groups]|].
  split; [exact Hs|].
  unfold assign_heading_levels. destruct candidates as [|c cs].
  - symmetry in HP. apply Permutation_nil in HP. subst ranked. reflexivity.
  - rewrite E. cbn [bind]. now rewrite emit_headings_spec.
Qed.

End ClusterFacts.

(** ** Levels *)

Module LevelFacts.

Import Text Py PyFacts SortFacts Engine Spec TitleFacts ClusterFacts.
Local Open Scope Q_scope.

(** The levelled members are the members of the clusters, the cluster at
    index [k] having level [level + k]. *)
Lemma levelled_nth (ranked : Clusters) (level l : nat) (c : Candidate) :
  In (l, c) (levelled level ranked)
  <-> exists k x, nth_error ranked k = Some x /\ In c (snd x) /\ l = (level + k)%nat.
Proof.
  revert level. induction ranked as [|[key items] r IH]; intros level; simpl.
  - split; [intros [] | intros (k & x & H & _)]. destruct k; discriminate.
  - rewrite in_app_iff, in_map_iff, IH. split.
    + intros [[c' [E Hc']]|(k & x & H1 & H2 & H3)].
      * inversion E; subst. exists 0%nat, (key, items). simpl.
        repeat split; [exact Hc' | lia].
      * exists (S k), x. repeat split; [exact H1 | exact H2 | lia].
    + intros (k & x & H1 & H2 & H3). destruct k as [|k]; simpl in H1.
      * inversion H1; subst. left. exists c. split; [f_equal; lia | exact H2].
      * right. exists k, x. repeat split; [exact H1 | exact H2 | lia].
Qed.

Lemma levelled_members (ranked : Clusters) (level : nat) :
  map snd (levelled level ranked) = flat_map snd ranked.
Proof.
  revert level. induction ranked as [|[key items] r IH]; intros level; simpl;
    [reflexivity|].
  rewrite map_app, map_map, IH. simpl. now rewrite map_id.
Qed.

Lemma levelled_level_ge (ranked : Clusters) (level l : nat) (c : Candidate) :
  In (l, c) (levelled level ranked) -> (level <= l)%nat.
Proof.
  intros H. apply levelled_nth in H. destruct H as (k & x & _ & _ & ->). lia.
Qed.

(** Members of clusters with pairwise different signatures: the same
    signature means the same cluster, hence the same level. *)
Lemma levelled_same_level (candidates : list Candidate) (ranked : Clusters)
    (l1 l2 : nat) (c1 c2 : Candidate) :
  groups_by_style candidates ranked ->
  In (l1, c1) (levelled 1 ranked) -> In (l2, c2) (levelled 1 ranked) ->
  key_eqb (style_key c1) (style_key c2) = true -> l1 = l2.
Proof.
  intros ((Hnd & Hinj) & HG & _) H1 H2 E.
  apply levelled_nth in H1, H2.
  destruct H1 as (i & [k1 it1] & N1 & M1 & ->), H2 as (j & [k2 it2] & N2 & M2 & ->).
  simpl in M1, M2.
  pose proof (nth_error_In _ _ N1) as I1. pose proof (nth_error_In _ _ N2) as I2.
  destruct (HG _ _ I1) as [_ F1]. destruct (HG _ _ I2) as [_ F2].
  rewrite F1 in M1. rewrite F2 in M2.
  apply filter_In in M1, M2. destruct M1 as [_ K1], M2 as [_ K2].
  unfold has_key in K1, K2.
  assert (Ek : key_eqb k1 k2 = true).
  { rewrite key_eqb_sym in K1.
    eapply key_eqb_trans; [exact K1|]. eapply key_eqb_trans; [exact E | exact K2]. }
  assert (Ex : (k1, it1) = (k2, it2)) by (apply Hinj; assumption).
  rewrite <- Ex in N2.
  f_equal. apply (proj1 (NoDup_nth_error ranked) Hnd).
  - apply nth_error_Some. congruence.
  - congruence.
Qed.

(** Every candidate is a member of exactly the clusters' lists. *)
Lemma dict_append_members (k : StyleKey) (c : Candidate) (d : Clusters) :
  Permutation (flat_map snd (dict_append k c d)) (c :: flat_map snd d).
Proof.
  induction d as [|[k0 it0] d IH]; simpl; [reflexivity|].
  destruct (key_eqb k k0); simpl.
  - rewrite <- app_assoc. simpl. symmetry. apply Permutation_middle.
  - rewrite IH. symmetry. apply Permutation_middle.
Qed.

Lemma build_clusters_members (candidates : list Candidate) :
  Permutation (flat_map snd (build_clusters candidates)) candidates.
Proof.
  unfold build_clusters.
  assert (H : forall cs d,
    Permutation
      (flat_map snd
         (fold_left (fun clusters c => dict_append (style_key c) c clusters) cs d))
      (cs ++ flat_map snd d)).
  { induction cs as [|c cs IH]; intros d; simpl; [reflexivity|].
    rewrite IH, dict_append_members. symmetry. apply Permutation_middle. }
  rewrite H. simpl. now rewrite app_nil_r.
Qed.

(** *** Level names *)

Lemma level_name_clamped (l : nat) : (1 <= l)%nat -> In (level_name l) level_names.
Proof.
  intros H. unfold level_name, level_names.
  assert (E : (Nat.min l 6 = 1 \/ Nat.min l 6 = 2 \/ Nat.min l 6 = 3
               \/ Nat.min l 6 = 4 \/ Nat.min l 6 = 5 \/ Nat.min l 6 = 6)%nat) by lia.
  destruct E as [E|[E|[E|[E|[E|E]]]]]; rewrite E; simpl; tauto.
Qed.


(** *** Rounding to the nearest half unit *)

Lemma py_round_near (x : Q) : Qabs (x - inject_Z (py_round x)) <= 1 # 2.
Proof.
  pose proof (Qfloor_le x) as H1. pose proof (Qlt_floor x) as H2.
  rewrite inject_Z_plus in H2. change (inject_Z 1) with 1 in H2.
  unfold py_round. cbv zeta.
  apply Qabs_Qle_condition.
  destruct (Qcompare_spec (x - inject_Z (Qfloor x)) (1 # 2)) as [E|E|E].
  - destruct (Z.even (Qfloor x)).
    + split; lra.
    + rewrite inject_Z_plus. change (inject_Z 1) with 1. split; lra.
  - split; lra.
  - rewrite inject_Z_plus. change (inject_Z 1) with 1. split; lra.
Qed.

Lemma style_key_rounds (c : Candidate) :
  k_size (style_key c) == inject_Z (py_round (font_size c * 2)) / 2
  /\ Qabs (font_size c - k_size (style_key c)) <= 1 # 4.
Proof.
  split; [reflexivity|]. cbn [style_key k_size].
  pose proof (py_round_near (font_size c * 2)) as H.
  apply Qabs_Qle_condition in H. apply Qabs_Qle_condition.
  destruct H as [H1 H2].
  generalize dependent (inject_Z (py_round (font_size c * 2))). intros r H1 H2.
  assert (E : r / 2 == r * (1 # 2)) by field. rewrite E. split; lra.
Qed.

(** *** Reading order *)

Lemma reading_sorted (hs : list Heading) :
  StronglySorted reading_le (sort_by (pair_ltb Z.eqb Z.ltb Qltb) reading_key hs).
Proof.
  eapply StronglySorted_weaken; [|apply sort_by_sorted].
  - intros a b H. unfold key_le in H. apply pair_ZQ_ltb_false in H. exact H.
  - apply pair_ZQ_asym.
  - apply pair_ZQ_le_trans.
Qed.

Lemma assign_heading_levels_total (candidates : list Candidate) :
  exists hs, assign_heading_levels candidates = Ok hs.
Proof.
  destruct (assign_heading_levels_spec candidates) as (ranked & _ & _ & _ & E).
  eexists. exact E.
Qed.

End LevelFacts.

Module LevelTheorems.

Import Text Py PyFacts SortFacts Engine Spec TitleFacts ClusterFacts LevelFacts.
Local Open Scope Q_scope.

(** Eight styles: the ranks beyond the sixth all read H6. *)
Example assign_heading_levels_clamp :
  exists hs,
    assign_heading_levels Samples.many_styles = Ok hs
    /\ map h_level hs = ["H1"; "H2"; "H3"; "H4"; "H5"; "H6"; "H6"; "H6"]%string
    /\ map h_font_size hs = [17; 16; 15; 14; 13; 12; 11; 10].
Proof. eexists. split; [vm_compute; reflexivity|]. split; reflexivity. Qed.

(** C7.  Two candidates of one run with identical font size, bold, italic,
    caps and centred values get the same level, whatever their scores:
    each of them has one level, and it is the same. *)
Theorem same_style_same_level (candidates : list Candidate) (c1 c2 : Candidate) :
  In c1 candidates -> In c2 candidates -> same_style c1 c2 ->
  exists ranked hs l,
    sort_clusters (build_clusters candidates) = Ok ranked
    /\ assign_heading_levels candidates = Ok hs
    /\ Permutation hs (map heading_of (levelled 1 ranked))
    /\ Permutation (map snd (levelled 1 ranked)) candidates
    /\ In (l, c1) (levelled 1 ranked) /\ In (l, c2) (levelled 1 ranked)
    /\ (forall l', In (l', c1) (levelled 1 ranked) \/ In (l', c2) (levelled 1 ranked) ->
          l' = l)
    /\ In (make_heading l c1) hs /\ In (make_heading l c2) hs
    /\ h_level (make_heading l c1) = h_level (make_heading l c2).
Proof.
  intros H1 H2 Hst.
  destruct (assign_heading_levels_spec candidates) as (ranked & E & Hg & Hs & Ea).
  pose proof (sort_by_perm (pair_ltb Z.eqb Z.ltb Qltb) reading_key
                (map heading_of (levelled 1 ranked))) as HP.
  assert (Hm : Permutation (map snd (levelled 1 ranked)) candidates).
  { rewrite levelled_members.
    destruct (sort_clusters_spec (build_clusters candidates)) as (r' & E' & HP' & _).
    { intros [k items] Hin.
      destruct (build_clusters_grouped candidates) as (_ & HG & _).
      now apply (HG k items). }
    rewrite E in E'. inversion E'; subst r'.
    rewrite HP'. apply build_clusters_members. }
  assert (Hlev : forall c, In c candidates -> exists l, In (l, c) (levelled 1 ranked)).
  { intros c Hc. apply (Permutation_in _ (Permutation_sym Hm)) in Hc.
    apply in_map_iff in Hc. destruct Hc as [[l c'] [<- Hin]]. now exists l. }
  destruct (Hlev c1 H1) as [l L1]. destruct (Hlev c2 H2) as [l2 L2].
  pose proof (same_style_key Hst) as Ek.
  assert (l2 = l).
  { symmetry. exact (@levelled_same_level candidates ranked l l2 c1 c2 Hg L1 L2 Ek). }
  subst l2.
  exists ranked. eexists. exists l. split; [exact E|]. split; [exact Ea|].
  split; [exact HP|]. split; [exact Hm|]. split; [exact L1|]. split; [exact L2|].
  split.
  { intros l' [H|H].
    - exact (@levelled_same_level candidates ranked l' l c1 c1 Hg H L1 (key_eqb_refl _)).
    - exact (@levelled_same_level candidates ranked l' l c2 c2 Hg H L2 (key_eqb_refl _)). }
  split; [|split; [|reflexivity]].
  - apply sort_by_in. apply in_map_iff. now exists (l, c1).
  - apply sort_by_in. apply in_map_iff. now exists (l, c2).
Qed.

Lemma same_style_same_level_witness :
  score Samples.cand_intro <> score Samples.cand_method
  /\ exists ranked hs l,
       sort_clusters (build_clusters Samples.sample_candidates) = Ok ranked
       /\ assign_heading_levels Samples.sample_candidates = Ok hs
       /\ Permutation hs (map heading_of (levelled 1 ranked))
       /\ Permutation (map snd (levelled 1 ranked)) Samples.sample_candidates
       /\ In (l, Samples.cand_intro) (levelled 1 ranked)
       /\ In (l, Samples.cand_method) (levelled 1 ranked)
       /\ (forall l', In (l', Samples.cand_intro) (levelled 1 ranked)
                      \/ In (l', Samples.cand_method) (levelled 1 ranked) ->
             l' = l)
       /\ In (make_heading l Samples.cand_intro) hs
       /\ In (make_heading l Samples.cand_method) hs
       /\ h_level (make_heading l Samples.cand_intro)
          = h_level (make_heading l Samples.cand_method).
Proof.
  split; [discriminate|].
  apply (@same_style_same_level Samples.sample_candidates
           Samples.cand_intro Samples.cand_method).
  - simpl. tauto.
  - simpl. tauto.
  - repeat split.
Defined.

(** C10.  A non-empty list of candidates gives a non-empty list of
    headings, one of which has level H1. *)
Theorem outline_has_H1 (candidates : list Candidate) :
  candidates <> [] ->
  exists hs,
    assign_heading_levels candidates = Ok hs
    /\ hs <> []
    /\ List.length hs = List.length candidates
    /\ exists h, In h hs /\ h_level h = "H1"%string.
Proof.
  intros Hne.
  destruct (assign_heading_levels_spec candidates) as (ranked & E & Hg & Hs & Ea).
  eexists. split; [exact Ea|].
  pose proof (sort_by_perm (pair_ltb Z.eqb Z.ltb Qltb) reading_key
                (map heading_of (levelled 1 ranked))) as HP.
  assert (Hlen : List.length (sort_by (pair_ltb Z.eqb Z.ltb Qltb) reading_key
                               (map heading_of (levelled 1 ranked)))
                 = List.length candidates).
  { rewrite (Permutation_length HP), length_map.
    rewrite <- (length_map snd), levelled_members.
    destruct (sort_clusters_spec (build_clusters candidates)) as (r' & E' & HP' & _).
    { intros [k items] Hin.
      destruct (build_clusters_grouped candidates) as (_ & HG & _).
      now apply (HG k items). }
    rewrite E in E'. inversion E'; subst r'.
    apply Permutation_length. rewrite HP'. apply build_clusters_members. }
  split.
  { intros E0. rewrite E0 in Hlen. destruct candidates; [congruence|discriminate]. }
  split; [exact Hlen|].
  destruct candidates as [|c0 cs]; [congruence|].
  destruct Hg as (_ & HG & HC).
  destruct (HC c0) as (k & items & Hin & _); [now left|].
  destruct ranked as [|[k1 items1] r]; [destruct Hin|].
  destruct (HG k1 items1) as [Hne1 _]; [now left|].
  destruct items1 as [|c1 items1]; [congruence|].
  exists (make_heading 1 c1). split; [|reflexivity].
  apply sort_by_in. simpl. now left.
Qed.

Lemma outline_has_H1_witness :
  exists hs,
    assign_heading_levels Samples.sample_candidates = Ok hs
    /\ hs <> []
    /\ List.length hs = List.length Samples.sample_candidates
    /\ exists h, In h hs /\ h_level h = "H1"%string.
Proof.
  apply (@outline_has_H1 Samples.sample_candidates). discriminate.
Defined.

(** The headings come out in reading order. *)
Lemma assign_heading_levels_sorted (candidates : list Candidate) :
  exists hs,
    assign_heading_levels candidates = Ok hs /\ StronglySorted reading_le hs.
Proof.
  destruct (assign_heading_levels_spec candidates) as (ranked & _ & _ & _ & E).
  eexists. split; [exact E | apply reading_sorted].
Qed.

End LevelTheorems.

(** ** Text extraction *)

Module ExtractFacts.

Import Text Py PyFacts TextFacts Engine Spec.
Local Open Scope Q_scope.

Lemma is_blocked_iff (t : string) : Classify.is_blocked t = true <-> blocked_text t.
Proof.
  unfold Classify.is_blocked, blocked_text.
  rewrite orb_true_iff, existsb_exists. split.
  - intros [H|H]; [left | now right]. now destruct (strip t).
  - intros [H|H]; [left | now right]. now rewrite H.
Qed.

Lemma not_blocked_iff (t : string) : Classify.is_blocked t = false <-> ~ blocked_text t.
Proof.
  rewrite <- is_blocked_iff. destruct (Classify.is_blocked t); split; congruence.
Qed.

Lemma density_total (t : string) (box : BBox) :
  exists d,
    calculate_text_density t box = Ok d
    /\ (0 < x1 box - x0 box ->
          d == inject_Z (Z.of_nat (String.length t)) / (x1 box - x0 box))
    /\ (x1 box - x0 box <= 0 -> d == 0).
Proof.
  unfold calculate_text_density.
  destruct (Qltb 0 (x1 box - x0 box)) eqn:E.
  - apply Qltb_lt in E. rewrite py_div_ok by (intros H; rewrite H in E; exact (Qlt_irrefl _ E)).
    eexists. split; [reflexivity|]. split; [reflexivity|].
    intros H. exfalso. exact (Qlt_not_le _ _ E H).
  - apply Qltb_ge in E. exists 0. split; [reflexivity|]. split; [|reflexivity].
    intros H. exfalso. exact (Qlt_not_le _ _ H E).
Qed.

Lemma extract_line_blocked (n : nat) (w : Q) (line : Line) :
  Classify.is_blocked (line_text line) = true -> extract_line n w line = Ok None.
Proof.
  intros H. unfold extract_line. fold (line_text line). now rewrite H.
Qed.

Lemma extract_line_kept (n : nat) (w : Q) (line : Line) :
  Classify.is_blocked (line_text line) = false ->
  exists e, extract_line n w line = Ok (Some e) /\ describes (n, w, line) e.
Proof.
  intros H. unfold extract_line. fold (line_text line). rewrite H.
  destruct (line_spans line) as [|s0 ss] eqn:Es.
  { unfold line_text in H. rewrite Es in H. discriminate. }
  assert (Hne : map span_size (s0 :: ss) <> []) by discriminate.
  destruct (py_max_spec Hne) as [m [Em Hm]]. rewrite Em. cbn [bind index0].
  destruct (density_total (line_text line) (line_bbox line)) as (d & Ed & Hd1 & Hd2).
  rewrite Ed. cbn [bind].
  eexists. split; [reflexivity|].
  unfold describes. cbn [fst snd page text bbox font_size bold italic caps words
    centered density is_paragraph heading_like].
  rewrite Es.
  repeat split; try assumption; try reflexivity.
  - apply Hm.
  - apply Hm.
  - exists s0. now repeat split.
  - apply Qltb_lt.
  - apply Qltb_lt.
Qed.

Lemma extract_lines_spec (n : nat) (w : Q) (lines : list Line) (acc : list Element) :
  exists es,
    extract_lines n w lines acc = Ok (acc ++ es)
    /\ Forall2 describes (filter survives (map (fun l => (n, w, l)) lines)) es.
Proof.
  unfold extract_lines. revert acc.
  induction lines as [|line lines IH]; intros acc; simpl.
  - exists []. split; [now rewrite app_nil_r | constructor].
  - unfold survives at 1. simpl.
    destruct (Classify.is_blocked (line_text line)) eqn:E; simpl.
    + rewrite extract_line_blocked by exact E. cbn [bind]. apply IH.
    + destruct (extract_line_kept n w line E) as (e & Ee & He).
      rewrite Ee. cbn [bind].
      destruct (IH (acc ++ [e])) as (es & Ees & Hes).
      exists (e :: es). split.
      * rewrite Ees, <- app_assoc. reflexivity.
      * now constructor.
Qed.

Lemma extract_page_spec (elements : list Element) (n : nat) (pg : Page) :
  exists es,
    extract_page elements (n, pg) = Ok (elements ++ es)
    /\ Forall2 describes
         (filter survives (map (fun l => (n, page_width pg, l)) (page_lines pg))) es.
Proof.
  unfold extract_page, page_lines. revert elements.
  induction (page_blocks pg) as [|b bs IH]; intros elements; simpl.
  - exists []. split; [now rewrite app_nil_r | constructor].
  - rewrite map_app, filter_app.
    destruct (block_lines b) as [lines|].
    + destruct (extract_lines_spec n (page_width pg) lines elements) as (es1 & E1 & H1).
      rewrite E1. cbn [bind].
      destruct (IH (elements ++ es1)) as (es2 & E2 & H2).
      exists (es1 ++ es2). split.
      * rewrite E2, <- app_assoc. reflexivity.
      * now apply Forall2_app.
    + cbn [bind]. simpl. apply IH.
Qed.

Lemma extract_pages_spec (pages : list (nat * Page)) (elements : list Element) :
  exists es,
    for_each extract_page pages elements = Ok (elements ++ es)
    /\ Forall2 describes
         (filter survives
            (flat_map (fun np => map (fun l => (fst np, page_width (snd np), l))
                                   (page_lines (snd np))) pages))
         es.
Proof.
  revert elements.
  induction pages as [|[n pg] pages IH]; intros elements;
    cbn [for_each flat_map fst snd filter].
  - exists []. split; [now rewrite app_nil_r | constructor].
  - rewrite filter_app.
    destruct (extract_page_spec elements n pg) as (es1 & E1 & H1).
    rewrite E1. cbn [bind].
    destruct (IH (elements ++ es1)) as (es2 & E2 & H2).
    exists (es1 ++ es2). split.
    + rewrite E2, <- app_assoc. reflexivity.
    + now apply Forall2_app.
Qed.

(** The extraction never fails; its elements describe, in order, the lines
    of the document that are not blocked. *)
Lemma extract_text_with_style_spec (doc : Document) :
  exists elements,
    extract_text_with_style doc = Ok elements
    /\ Forall2 describes (filter survives (doc_lines doc)) elements.
Proof.
  destruct (extract_pages_spec (enumerate doc) []) as (es & E & H).
  exists es. split; [exact E | exact H].
Qed.

Lemma described_in (srcs : list (nat * Q * Line)) (es : list Element) (e : Element) :
  Forall2 describes srcs es -> In e es ->
  exists src, In src srcs /\ describes src e.
Proof.
  induction 1 as [|src e' srcs es Hd _ IH]; intros Hin; [destruct Hin|].
  destruct Hin as [<-|Hin].
  - exists src. split; [now left | exact Hd].
  - destruct (IH Hin) as (src' & H1 & H2). exists src'. split; [now right | exact H2].
Qed.

(** Every extracted element has a trimmed text that is not blocked. *)
Lemma extracted_text (doc : Document) (elements : list Element) (e : Element) :
  extract_text_with_style doc = Ok elements -> In e elements ->
  trimmed (text e) /\ Classify.is_blocked (text e) = false
  /\ exists src, In src (doc_lines doc) /\ survives src = true /\ describes src e.
Proof.
  intros E Hin. destruct (extract_text_with_style_spec doc) as (es & E' & H).
  rewrite E in E'. inversion E'; subst es.
  destruct (@described_in _ _ e H Hin) as (src & Hsrc & Hd).
  apply filter_In in Hsrc. destruct Hsrc as [Hsrc Hs].
  pose proof Hd as (_ & Ht & _).
  split; [rewrite Ht; apply strip_idempotent|].
  split; [rewrite Ht; unfold survives in Hs; now apply negb_true_iff in Hs|].
  exists src. split; [exact Hsrc|]. split; [exact Hs | exact Hd].
Qed.

End ExtractFacts.

(** ** The whole engine *)

Unset Implicit Arguments.

Module EngineFacts.

Import Text Py PyFacts SortFacts TextFacts Engine Spec TitleFacts ScorerFacts
  ClusterFacts LevelFacts ExtractFacts.
Local Open Scope Q_scope.

(** The four stages never fail, and the result is read off them. *)
Lemma structure_spec (doc : Document) :
  exists elements t candidates hs,
    extract_text_with_style doc = Ok elements
    /\ find_title elements = Ok t
    /\ process_headings elements = Ok candidates
    /\ assign_heading_levels candidates = Ok hs
    /\ extract_document_structure doc
       = Ok {| title := t; outline := map entry_of hs |}.
Proof.
  destruct (extract_text_with_style_spec doc) as (elements & Ee & _).
  destruct (find_title_total elements) as (t & Et).
  destruct (process_headings_total elements) as (candidates & Ec).
  destruct (assign_heading_levels_total candidates) as (hs & Eh).
  exists elements, t, candidates, hs. repeat (split; [assumption|]).
  unfold extract_document_structure. rewrite Ee. cbn [bind].
  rewrite Et. cbn [bind]. rewrite Ec. cbn [bind]. rewrite Eh. reflexivity.
Qed.

(** The title is made of at most three page-1 lines. *)
Lemma title_sources (elements : list Element) :
  Forall (fun e => trimmed (text e)) elements ->
  exists ts,
    incl ts (first_page_lines elements)
    /\ (List.length ts <= 3)%nat
    /\ find_title elements = Ok (join " " (map text ts)).
Proof.
  intros Htrim. destruct (first_page_lines elements) as [|e0 l0] eqn:E.
  - exists []. split; [intros x []|]. split; [simpl; lia|].
    now apply find_title_empty.
  - destruct (find_title_unfold elements) as [m [_ Ef]]; [congruence|].
    rewrite E in Ef.
    set (S := sort_by Qltb top (filter (within_half m) (e0 :: l0))) in Ef.
    exists (firstn 3 S). split; [|split].
    + intros x Hx. apply firstn_in_weak in Hx. unfold S in Hx.
      apply sort_by_in in Hx. apply filter_In in Hx. tauto.
    + apply firstn_le_length.
    + rewrite Ef. f_equal. apply trimmed_join.
      apply Forall_forall. intros t Ht. apply in_map_iff in Ht.
      destruct Ht as [e [<- He]].
      apply firstn_in_weak in He. unfold S in He.
      apply sort_by_in in He. apply filter_In in He. destruct He as [He _].
      rewrite <- E in He.
      apply first_page_lines_in in He. destruct He as (Hin & _ & Hb).
      rewrite Forall_forall in Htrim. specialize (Htrim e Hin).
      split; [now apply title_text_nonempty | exact Htrim].
Qed.

(** Every candidate is a non-paragraph line of the input. *)
Lemma candidate_sources (elements : list Element) (candidates : list Candidate)
    (c : Candidate) :
  process_headings elements = Ok candidates -> In c candidates ->
  In (elem c) elements /\ is_paragraph c = false.
Proof.
  intros E Hin. destruct (non_paragraph_sizes elements) as [|s ss] eqn:Es.
  - rewrite process_headings_none in E by exact Es.
    inversion E; subst. destruct Hin.
  - assert (Hex : exists e, In e elements /\ is_paragraph e = false).
    { unfold non_paragraph_sizes in Es.
      destruct (filter (fun e => negb (is_paragraph e)) elements) as [|e l] eqn:Ef;
        [discriminate|].
      assert (H : In e (filter (fun e => negb (is_paragraph e)) elements))
        by (rewrite Ef; now left).
      apply filter_In in H. destruct H as [H Hp].
      exists e. split; [exact H | now destruct (is_paragraph e)]. }
    destruct (process_headings_spec elements Hex) as (avg & hi & lo & _ & _ & _ & E').
    rewrite E in E'. inversion E'; subst candidates.
    apply in_map_iff in Hin. destruct Hin as [e [<- He]].
    apply filter_In in He. destruct He as [He Hk]. unfold kept in Hk.
    apply andb_prop in Hk. destruct Hk as [Hp _]. simpl.
    split; [exact He | now destruct (is_paragraph e)].
Qed.

(** Every heading is one candidate with a level from 1 on. *)
Lemma heading_sources (candidates : list Candidate) (hs : list Heading) (h : Heading) :
  assign_heading_levels candidates = Ok hs -> In h hs ->
  exists l c, In c candidates /\ (1 <= l)%nat /\ h = make_heading l c.
Proof.
  intros E Hin.
  destruct (assign_heading_levels_spec candidates) as (ranked & _ & Hg & _ & E').
  rewrite E in E'. inversion E'; subst hs.
  apply sort_by_in in Hin. apply in_map_iff in Hin.
  destruct Hin as [[l c] [<- Hin]]. exists l, c.
  split; [|split; [now apply levelled_level_ge in Hin | reflexivity]].
  apply levelled_nth in Hin. destruct Hin as (k & [key items] & Hn & Hc & _).
  apply nth_error_In in Hn. destruct Hg as (_ & HG & _).
  destruct (HG _ _ Hn) as [_ F]. simpl in Hc. rewrite F in Hc.
  apply filter_In in Hc. tauto.
Qed.

Lemma StronglySorted_pages (hs : list Heading) :
  StronglySorted reading_le hs ->
  StronglySorted Z.le (map o_page (map entry_of hs)).
Proof.
  intros H. rewrite map_map. simpl.
  eapply (@StronglySorted_map _ _ reading_le Z.le (fun _ => True)).
  - intros a b _ _ [Hab|[Hab _]]; lia.
  - apply Forall_forall. trivial.
  - exact H.
Qed.

End EngineFacts.

Module EngineTheorems.

Import Text Py PyFacts SortFacts TextFacts Engine Spec TitleFacts ScorerFacts
  ClusterFacts LevelFacts ExtractFacts EngineFacts.
Local Open Scope Q_scope.

Lemma StronglySorted_nth (A : Type) (R : A -> A -> Prop) (l : list A)
    (i j : nat) (a b : A) :
  StronglySorted R l -> (i < j)%nat ->
  nth_error l i = Some a -> nth_error l j = Some b -> R a b.
Proof.
  intros Hs. revert i j. induction Hs as [|x l Hs IH Hall]; intros i j Hij Hi Hj.
  - destruct i; discriminate.
  - destruct j as [|j]; [lia|]. simpl in Hj. destruct i as [|i]; simpl in Hi.
    + inversion Hi; subst. rewrite Forall_forall in Hall.
      apply Hall. eapply nth_error_In. exact Hj.
    + apply (IH i j); [lia | assumption | assumption].
Qed.

(** One source for every element of a list, in order. *)
Lemma Forall2_choice (A B : Type) (P : A -> B -> Prop) (l : list B) :
  (forall b, In b l -> exists a, P a b) -> exists la, Forall2 P la l.
Proof.
  induction l as [|b l IH]; intros H.
  - exists []. constructor.
  - destruct (H b (or_introl eq_refl)) as [a Ha].
    destruct IH as [la Hla]; [intros b' Hb'; apply H; now right|].
    exists (a :: la). now constructor.
Qed.

Lemma Forall2_in_left (A B : Type) (P : A -> B -> Prop) (la : list A) (lb : list B) (a : A) :
  Forall2 P la lb -> In a la -> exists b, In b lb /\ P a b.
Proof.
  induction 1 as [|x y la lb Hxy _ IH]; intros Hin; [destruct Hin|].
  destruct Hin as [<-|Hin].
  - exists y. split; [now left | exact Hxy].
  - destruct (IH Hin) as (b & Hb & Hab). exists b. split; [now right | exact Hab].
Qed.

(** Order carries over from a list to the list of its sources. *)
Lemma StronglySorted_sources (A B : Type) (P : A -> B -> Prop)
    (RA : A -> A -> Prop) (RB : B -> B -> Prop) (la : list A) (lb : list B) :
  (forall a a' b b', P a b -> P a' b' -> RB b b' -> RA a a') ->
  Forall2 P la lb -> StronglySorted RB lb -> StronglySorted RA la.
Proof.
  intros HR. induction 1 as [|a b la lb Hab Hrest IH]; intros Hs; [constructor|].
  inversion Hs as [|? ? Hs' Hall]; subst. constructor; [now apply IH|].
  apply Forall_forall. intros a' Ha'.
  destruct (Forall2_in_left _ _ _ _ _ _ Hrest Ha') as (b' & Hb' & Hab').
  rewrite Forall_forall in Hall. exact (HR _ _ _ _ Hab Hab' (Hall b' Hb')).
Qed.

(** Every heading of a document is made from one of its lines. *)
Lemma heading_line (doc : Document) (elements : list Element)
    (candidates : list Candidate) (hs : list Heading) (h : Heading) :
  extract_text_with_style doc = Ok elements ->
  process_headings elements = Ok candidates ->
  assign_heading_levels candidates = Ok hs ->
  In h hs ->
  exists src, (In src (doc_lines doc) /\ survives src = true) /\ heading_from src h.
Proof.
  intros Ee Ec Eh Hin.
  destruct (heading_sources candidates hs h Eh Hin) as (l & c & Hc & _ & ->).
  destruct (candidate_sources elements candidates c Ec Hc) as [He _].
  destruct (@extracted_text doc elements (elem c) Ee He) as (_ & _ & src & Hsrc & Hs & Hd).
  exists src. split; [now split|].
  destruct Hd as (Hp & Ht & Hb & _). unfold heading_from, make_heading. simpl.
  now rewrite Hp, Ht, Hb.
Qed.

(** C4.  For every document the entries of the outline are in the reading
    order of the document.  The outline is the projection of the headings
    [hs], which the stages compute from the document itself; entry by
    entry it is made from a list [lines] of lines of the document that
    were not blocked, each entry having the page number and the trimmed
    text of its line and each heading the bounding box of its line.  Along
    [lines], hence along the outline, the page never decreases, and
    between two lines of the same page the top of the bounding box never
    decreases. *)
Theorem outline_in_reading_order (doc : Document) :
  exists elements candidates hs r lines,
    extract_text_with_style doc = Ok elements
    /\ process_headings elements = Ok candidates
    /\ assign_heading_levels candidates = Ok hs
    /\ extract_document_structure doc = Ok r
    /\ outline r = map entry_of hs
    /\ Forall2 heading_from lines hs
    /\ Forall2 entry_from lines (outline r)
    /\ (forall src, In src lines -> In src (doc_lines doc) /\ survives src = true)
    /\ StronglySorted line_reading_le lines
    /\ StronglySorted Z.le (map o_page (outline r))
    /\ forall i j si sj,
         (i < j)%nat -> nth_error lines i = Some si -> nth_error lines j = Some sj ->
         (fst (fst si) <= fst (fst sj))%nat
         /\ (fst (fst si) = fst (fst sj) ->
             y0 (line_bbox (snd si)) <= y0 (line_bbox (snd sj))).
Proof.
  destruct (structure_spec doc) as (elements & t & candidates & hs & Ee & _ & Ec & Eh & E).
  destruct (LevelTheorems.assign_heading_levels_sorted candidates) as (hs' & Eh' & Hs).
  rewrite Eh in Eh'. inversion Eh'; subst hs'.
  destruct (Forall2_choice _ _
              (fun src h => (In src (doc_lines doc) /\ survives src = true)
                            /\ heading_from src h) hs) as [lines Hl].
  { intros h Hh. exact (heading_line doc elements candidates hs h Ee Ec Eh Hh). }
  assert (Hfrom : Forall2 heading_from lines hs).
  { eapply Forall2_impl; [|exact Hl]. intros a b [_ H]. exact H. }
  assert (Hsorted : StronglySorted line_reading_le lines).
  { apply (StronglySorted_sources _ _ heading_from line_reading_le reading_le lines hs);
      [|exact Hfrom | exact Hs].
    intros a a' b b' (Hp & _ & Hb) (Hp' & _ & Hb') [H|[H1 H2]].
    - left. rewrite Hp, Hp' in H. lia.
    - right. rewrite Hp, Hp' in H1. rewrite Hb, Hb' in H2. split; [lia | exact H2]. }
  exists elements, candidates, hs. eexists. exists lines.
  split; [exact Ee|]. split; [exact Ec|]. split; [exact Eh|]. split; [exact E|].
  split; [reflexivity|]. split; [exact Hfrom|]. split; [|split; [|split; [exact Hsorted|split]]].
  - cbn [outline]. clear - Hfrom. induction Hfrom as [|a b la lb Hab _ IH]; [constructor|].
    simpl. constructor; [|exact IH].
    destruct Hab as (Hp & Ht & _). split; assumption.
  - intros src Hin. destruct (Forall2_in_left _ _ _ _ _ _ Hl Hin) as (h & _ & [H _]).
    exact H.
  - now apply StronglySorted_pages.
  - intros i j si sj Hij Hi Hj.
    destruct (StronglySorted_nth _ _ _ _ _ _ _ Hsorted Hij Hi Hj) as [H|[H1 H2]].
    + split; [lia|]. intros E'. lia.
    + split; [lia|]. intros _. exact H2.
Qed.
(** The headings of any list of candidates are in reading order. *)
Lemma headings_in_reading_order (candidates : list Candidate) :
  exists hs,
    assign_heading_levels candidates = Ok hs /\ StronglySorted reading_le hs.
Proof. apply LevelTheorems.assign_heading_levels_sorted. Qed.

(** C5.  For every document, the lines whose trimmed text is empty or
    matches a blocklist pattern are dropped by the extraction: the elements
    describe exactly the other lines, in order.  No text of the output is
    blocked: the title is made of the texts of at most three page-1
    elements, and every outline entry carries the text and page of an
    element. *)
Theorem blocked_lines_dropped (doc : Document) :
  exists elements r,
    extract_text_with_style doc = Ok elements
    /\ extract_document_structure doc = Ok r
    /\ Forall2 describes
         (filter (fun src => negb (Classify.is_blocked (line_text (snd src))))
            (doc_lines doc))
         elements
    /\ (forall src, In src (doc_lines doc) ->
          blocked_text (line_text (snd src)) ->
          ~ In src (filter (fun src => negb (Classify.is_blocked (line_text (snd src))))
                      (doc_lines doc)))
    /\ (forall e, In e elements -> ~ blocked_text (text e))
    /\ (exists ts,
          incl ts elements
          /\ (forall e, In e ts -> page e = 1%Z /\ ~ blocked_text (text e))
          /\ (List.length ts <= 3)%nat
          /\ title r = join " " (map text ts))
    /\ (forall o, In o (outline r) ->
          ~ blocked_text (o_text o)
          /\ exists e, In e elements /\ o_text o = text e /\ o_page o = page e).
Proof.
  destruct (structure_spec doc)
    as (elements & t & candidates & hs & Ee & Et & Ec & Eh & E).
  destruct (extract_text_with_style_spec doc) as (es & Ee' & Hd).
  rewrite Ee in Ee'. inversion Ee'; subst es.
  assert (Hel : forall e, In e elements ->
                  trimmed (text e) /\ Classify.is_blocked (text e) = false).
  { intros e He. destruct (@extracted_text doc elements e Ee He) as (H1 & H2 & _). now split. }
  exists elements. eexists. split; [exact Ee|]. split; [exact E|].
  split; [exact Hd|].
  split.
  { intros src _ Hb Hin. apply filter_In in Hin. destruct Hin as [_ Hs].
    apply negb_true_iff in Hs. apply not_blocked_iff in Hs. contradiction. }
  split.
  { intros e He. apply not_blocked_iff. now apply Hel. }
  split.
  { destruct (title_sources elements) as (ts & Hincl & Hlen & Ets).
    { apply Forall_forall. intros e He. now apply Hel. }
    exists ts. split.
    { intros e He. apply Hincl in He. now apply first_page_lines_in in He. }
    split.
    { intros e He. apply Hincl in He. apply first_page_lines_in in He.
      destruct He as (_ & Hp & Hb). split; [exact Hp | now apply not_blocked_iff]. }
    split; [exact Hlen|]. simpl. rewrite Et in Ets. now inversion Ets. }
  intros o Ho. simpl in Ho. apply in_map_iff in Ho. destruct Ho as [h [<- Hh]].
  destruct (heading_sources candidates hs h Eh Hh) as (l & c & Hc & _ & ->).
  destruct (candidate_sources elements candidates c Ec Hc) as [He _].
  split.
  - simpl. apply not_blocked_iff. now apply Hel.
  - exists (elem c). now repeat split.
Qed.

(** The sample report: the contents line, the chapter line, the date and
    the page numbers appear nowhere in the result. *)
Example report_structure :
  extract_document_structure Samples.report_doc
  = Ok {| title := "Annual Energy Outlook";
          outline :=
            [{| o_level := "H1"; o_text := "Annual Energy"; o_page := 1 |};
             {| o_level := "H1"; o_text := "Outlook"; o_page := 1 |};
             {| o_level := "H2"; o_text := "Market Overview"; o_page := 1 |};
             {| o_level := "H2"; o_text := "Supply Outlook"; o_page := 2 |}] |}.
Proof. vm_compute. reflexivity. Qed.

(** C6.  A document without any extractable line (in particular one
    without pages) gives the empty title and the empty outline, and no
    error; so does each stage on the empty list. *)
Theorem empty_document (doc : Document) :
  extract_text_with_style doc = Ok [] ->
  extract_document_structure doc = Ok empty_structure
  /\ extract_document_structure [] = Ok empty_structure
  /\ find_title [] = Ok EmptyString
  /\ process_headings [] = Ok []
  /\ assign_heading_levels [] = Ok [].
Proof.
  intros E. split; [|repeat split].
  unfold extract_document_structure. rewrite E. reflexivity.
Qed.

Lemma empty_document_witness :
  extract_document_structure Samples.blank_doc = Ok empty_structure
  /\ extract_document_structure [] = Ok empty_structure
  /\ find_title [] = Ok EmptyString
  /\ process_headings [] = Ok []
  /\ assign_heading_levels [] = Ok [].
Proof.
  apply (empty_document Samples.blank_doc). vm_compute. reflexivity.
Defined.

(** A document is without extractable lines exactly when every line is
    blocked. *)
Lemma no_extractable_lines (doc : Document) :
  extract_text_with_style doc = Ok []
  <-> forall src, In src (doc_lines doc) -> blocked_text (line_text (snd src)).
Proof.
  destruct (extract_text_with_style_spec doc) as (es & E & Hd). rewrite E. split.
  - intros E'. inversion E'; subst es. inversion Hd as [Hf|]; subst.
    intros src Hsrc. apply is_blocked_iff.
    destruct (Classify.is_blocked (line_text (snd src))) eqn:Eb; [reflexivity|].
    assert (Hin : In src (filter survives (doc_lines doc))).
    { apply filter_In. split; [exact Hsrc|]. unfold survives. now rewrite Eb. }
    rewrite <- Hf in Hin. destruct Hin.
  - intros Hall. f_equal.
    assert (Hf : filter survives (doc_lines doc) = []).
    { destruct (filter survives (doc_lines doc)) as [|src l] eqn:Ef; [reflexivity|].
      assert (Hin : In src (filter survives (doc_lines doc))) by (rewrite Ef; now left).
      apply filter_In in Hin. destruct Hin as [Hin Hs].
      apply Hall, is_blocked_iff in Hin. unfold survives in Hs.
      rewrite Hin in Hs. discriminate. }
    rewrite Hf in Hd. now inversion Hd.
Qed.

End EngineTheorems.


(** ** The matcher and the meaning of patterns *)

Module ReFacts.

Import Text Re ReSpec TextFacts.
Local Open Scope char_scope.

Lemma matches_length (ic : bool) (r : re) (p p' : option ascii) (s s' : string) :
  matches ic r p s p' s' -> (String.length s' <= String.length s)%nat.
Proof.
  induction 1; simpl in *; lia.
Qed.

(** What is matched is a prefix of the text, and the character before
    the rest is its last one. *)
Lemma matches_consumes (ic : bool) (r : re) (p p' : option ascii) (s s' : string) :
  matches ic r p s p' s' ->
  exists w, s = (w ++ s')%string /\ p' = last_of p w.
Proof.
  induction 1;
    try (exists EmptyString; split; reflexivity);
    try (exists (String c EmptyString); split; reflexivity);
    try assumption.
  - destruct IHmatches1 as (w1 & -> & ->), IHmatches2 as (w2 & -> & ->).
    exists (w1 ++ w2)%string. split; [now rewrite append_assoc|].
    clear. revert p. induction w1 as [|c w1 IH]; intros p; simpl; [reflexivity|apply IH].
  - destruct IHmatches1 as (w1 & -> & ->), IHmatches2 as (w2 & -> & ->).
    exists (w1 ++ w2)%string. split; [now rewrite append_assoc|].
    clear. revert p. induction w1 as [|c w1 IH]; intros p; simpl; [reflexivity|apply IH].
Qed.

(** The repetition loop finds a match exactly when there is one. *)
Lemma star_loop_correct (ic : bool) (r : re)
    (step : (option ascii -> string -> bool) -> option ascii -> string -> bool)
    (k : option ascii -> string -> bool) :
  (forall k p s,
      step k p s = true <-> exists p' s', matches ic r p s p' s' /\ k p' s' = true) ->
  forall n p s, (String.length s <= n)%nat ->
    (star_loop step k n p s = true
     <-> exists p' s', matches ic (Star r) p s p' s' /\ k p' s' = true).
Proof.
  intros Hstep. induction n as [|n IH]; intros p s Hn.
  - simpl. destruct (k p s) eqn:Ek.
    + split; [intros _ | reflexivity]. exists p, s. split; [constructor | exact Ek].
    + split; [discriminate|]. intros (p' & s' & Hm & Hk).
      inversion Hm; subst; [congruence | lia].
  - simpl. destruct (k p s) eqn:Ek.
    + split; [intros _ | reflexivity]. exists p, s. split; [constructor | exact Ek].
    + rewrite Hstep. split.
      * intros (p1 & s1 & Hm & Hk).
        destruct (String.length s1 <? String.length s)%nat eqn:El; [|discriminate].
        apply Nat.ltb_lt in El.
        apply IH in Hk; [|lia]. destruct Hk as (p2 & s2 & Hm2 & Hk2).
        exists p2, s2. split; [|exact Hk2]. econstructor; eassumption.
      * intros (p' & s' & Hm & Hk).
        inversion Hm; subst; [congruence|].
        exists p1, s1. split; [assumption|].
        assert (El : (String.length s1 <? String.length s)%nat = true)
          by (now apply Nat.ltb_lt).
        rewrite El. apply IH; [lia|]. exists p', s'. now split.
Qed.

(** The matcher is correct: it succeeds exactly when the pattern matches
    some prefix that the continuation accepts. *)
Theorem rmatch_correct (ic : bool) (r : re) :
  forall k p s,
    rmatch ic r k p s = true
    <-> exists p' s', matches ic r p s p' s' /\ k p' s' = true.
Proof.
  induction r as [| | | | |neg items|r1 IH1 r2 IH2|r1 IH1 r2 IH2|r IH];
    intros k p s; simpl.
  - split.
    + intros H. exists p, s. split; [constructor | exact H].
    + intros (p' & s' & Hm & Hk). inversion Hm; subst. exact Hk.
  - destruct p as [c|].
    + split; [discriminate|]. intros (p' & s' & Hm & _). inversion Hm.
    + split.
      * intros H. exists None, s. split; [constructor | exact H].
      * intros (p' & s' & Hm & Hk). inversion Hm; subst. exact Hk.
  - destruct (at_end s) eqn:E.
    + split.
      * intros H. exists p, s. split; [now constructor | exact H].
      * intros (p' & s' & Hm & Hk). inversion Hm; subst. exact Hk.
    + split; [discriminate|]. intros (p' & s' & Hm & _). inversion Hm; congruence.
  - destruct (xorb (opt_word p) (head_word s)) eqn:E.
    + split.
      * intros H. exists p, s. split; [now constructor | exact H].
      * intros (p' & s' & Hm & Hk). inversion Hm; subst. exact Hk.
    + split; [discriminate|]. intros (p' & s' & Hm & _). inversion Hm; congruence.
  - destruct s as [|c s].
    + split; [discriminate|]. intros (p' & s' & Hm & _). inversion Hm.
    + destruct (Ascii.eqb c "010") eqn:E.
      * split; [discriminate|]. intros (p' & s' & Hm & _). inversion Hm; congruence.
      * split.
        -- intros H. exists (Some c), s. split; [now constructor | exact H].
        -- intros (p' & s' & Hm & Hk). inversion Hm; subst. exact Hk.
  - destruct s as [|c s].
    + split; [discriminate|]. intros (p' & s' & Hm & _). inversion Hm.
    + destruct (set_match ic neg items c) eqn:E.
      * split.
        -- intros H. exists (Some c), s. split; [now constructor | exact H].
        -- intros (p' & s' & Hm & Hk). inversion Hm; subst. exact Hk.
      * split; [discriminate|]. intros (p' & s' & Hm & _). inversion Hm; congruence.
  - rewrite IH1. split.
    + intros (p1 & s1 & Hm1 & Hk). apply IH2 in Hk.
      destruct Hk as (p2 & s2 & Hm2 & Hk). exists p2, s2.
      split; [econstructor; eassumption | exact Hk].
    + intros (p' & s' & Hm & Hk). inversion Hm; subst.
      exists p1, s1. split; [assumption|]. apply IH2. exists p', s'. now split.
  - destruct (rmatch ic r1 k p s) eqn:E.
    + split; [intros _ | reflexivity]. apply IH1 in E.
      destruct E as (p' & s' & Hm & Hk). exists p', s'.
      split; [now apply M_alt_l | exact Hk].
    + rewrite IH2. split.
      * intros (p' & s' & Hm & Hk). exists p', s'. split; [now apply M_alt_r | exact Hk].
      * intros (p' & s' & Hm & Hk). inversion Hm; subst.
        -- assert (H : rmatch ic r1 k p s = true)
             by (apply IH1; exists p', s'; now split).
           congruence.
        -- exists p', s'. now split.
  - apply (star_loop_correct ic r (rmatch ic r) k IH). lia.
Qed.

Lemma py_match_correct (ic : bool) (r : re) (s : string) :
  py_match ic r s = true <-> exists p' s', matches ic r None s p' s'.
Proof.
  unfold py_match. rewrite rmatch_correct. split.
  - intros (p' & s' & H & _). now exists p', s'.
  - intros (p' & s' & H). now exists p', s'.
Qed.

Lemma search_from_correct (ic : bool) (r : re) (s : string) :
  forall p,
    search_from ic r p s = true
    <-> exists u v p' s', s = (u ++ v)%string /\ matches ic r (last_of p u) v p' s'.
Proof.
  induction s as [|c s IH]; intros p; simpl.
  - destruct (rmatch ic r (fun _ _ => true) p EmptyString) eqn:E.
    + split; [intros _ | reflexivity]. apply rmatch_correct in E.
      destruct E as (p' & s' & Hm & _). exists EmptyString, EmptyString, p', s'.
      now split.
    + split; [discriminate|]. intros (u & v & p' & s' & Huv & Hm).
      symmetry in Huv. apply append_eq_nil in Huv. destruct Huv as [-> ->].
      simpl in Hm.
      assert (H : rmatch ic r (fun _ _ => true) p EmptyString = true)
        by (apply rmatch_correct; exists p', s'; now split).
      congruence.
  - destruct (rmatch ic r (fun _ _ => true) p (String c s)) eqn:E.
    + split; [intros _ | reflexivity]. apply rmatch_correct in E.
      destruct E as (p' & s' & Hm & _). exists EmptyString, (String c s), p', s'.
      now split.
    + rewrite IH. split.
      * intros (u & v & p' & s' & -> & Hm).
        exists (String c u), v, p', s'. now split.
      * intros (u & v & p' & s' & Huv & Hm). destruct u as [|d u]; simpl in *.
        -- subst v.
           assert (H : rmatch ic r (fun _ _ => true) p (String c s) = true)
             by (apply rmatch_correct; exists p', s'; now split).
           congruence.
        -- inversion Huv; subst. exists u, v, p', s'. now split.
Qed.

Lemma py_search_correct (ic : bool) (r : re) (s : string) :
  py_search ic r s = true
  <-> exists u v p' s', s = (u ++ v)%string /\ matches ic r (last_of None u) v p' s'.
Proof. apply search_from_correct. Qed.

End ReFacts.

(** ** The paragraph signals *)

Module SignalFacts.

Import Text Re ReSpec TextFacts ReFacts Classify Spec.
Local Open Scope char_scope.
Local Open Scope string_scope.

Ltac inv H := inversion H; subst; clear H.

(** Inverts the matches of every operator but the repetition. *)
Ltac inv_matches :=
  repeat match goal with
  | H : matches _ Eps _ _ _ _ |- _ => inv H
  | H : matches _ Bol _ _ _ _ |- _ => inv H
  | H : matches _ Eol _ _ _ _ |- _ => inv H
  | H : matches _ WordB _ _ _ _ |- _ => inv H
  | H : matches _ Dot _ _ _ _ |- _ => inv H
  | H : matches _ (CSet _ _) _ _ _ _ |- _ => inv H
  | H : matches _ (chr _) _ _ _ _ |- _ => unfold chr in H
  | H : matches _ (rng _ _) _ _ _ _ |- _ => unfold rng in H
  | H : matches _ (Cat _ _) _ _ _ _ |- _ => inv H
  | H : matches _ (Alt _ _) _ _ _ _ |- _ => inv H
  end.

Lemma last_of_app (p : option ascii) (u w : string) :
  last_of p (u ++ w) = last_of (last_of p u) w.
Proof. revert p. induction u as [|c u IH]; intros p; simpl; [reflexivity | apply IH]. Qed.

Lemma last_of_none (u : string) : last_of None u = None -> u = EmptyString.
Proof.
  destruct u as [|c u]; [reflexivity|]. simpl.
  assert (H : forall w d, last_of (Some d) w <> None).
  { induction w as [|e w IH]; intros d; simpl; [discriminate | apply IH]. }
  intros E. now apply H in E.
Qed.

Lemma length_append (u v : string) :
  String.length (u ++ v) = (String.length u + String.length v)%nat.
Proof. induction u as [|c u IH]; simpl; [reflexivity | now rewrite IH]. Qed.

Lemma all_chars_app (f : ascii -> bool) (u v : string) :
  all_chars f (u ++ v) = all_chars f u && all_chars f v.
Proof.
  induction u as [|c u IH]; simpl; [reflexivity|].
  now rewrite IH, andb_assoc.
Qed.

(** Without [re.IGNORECASE] a set is its members. *)
Lemma set_match_plain (neg : bool) (items : list citem) (c : ascii) :
  set_match false neg items c = xorb neg (existsb (fun it => item_match it c) items).
Proof.
  unfold set_match. f_equal. induction items as [|it items IH]; [reflexivity|].
  cbn [existsb]. rewrite IH. cbn [andb]. now rewrite orb_false_r.
Qed.

(** Reads the facts a matched set gives about its character. *)
Ltac simp_sets :=
  repeat match goal with
  | H : set_match false _ _ _ = true |- _ =>
      rewrite set_match_plain in H;
      cbn [existsb item_match xorb] in H;
      rewrite ?orb_false_r in H
  end;
  repeat match goal with
  | H : Ascii.eqb _ _ = true |- _ => apply Ascii.eqb_eq in H; subst
  end.

(** What the repetitions of a match consumed. *)
Ltac consume_stars :=
  repeat match goal with
  | Hm : matches _ (Star _) _ _ _ _ |- _ =>
      let w := fresh "w" in
      apply matches_consumes in Hm; destruct Hm as (w & ? & ?); subst
  end.

(** A character that belongs to a set matches it. *)
Ltac set_intro :=
  constructor; rewrite set_match_plain; cbn [existsb item_match xorb];
  rewrite ?orb_false_r; first [assumption | apply Ascii.eqb_refl | reflexivity].

(** Repetition of a one-character pattern. *)
Lemma star_set_intro (ic neg : bool) (items : list citem) (w s' : string) :
  forall p,
    all_chars (set_match ic neg items) w = true ->
    matches ic (Star (CSet neg items)) p (w ++ s') (last_of p w) s'.
Proof.
  induction w as [|c w IH]; intros p H; simpl in *.
  - constructor.
  - apply andb_prop in H. destruct H as [Hc Hw].
    eapply M_star_cons; [now constructor | simpl; lia | now apply IH].
Qed.

Lemma star_set_elim (ic neg : bool) (items : list citem)
    (p p' : option ascii) (s s' : string) :
  matches ic (Star (CSet neg items)) p s p' s' ->
  exists w, s = w ++ s' /\ all_chars (set_match ic neg items) w = true
            /\ p' = last_of p w.
Proof.
  remember (Star (CSet neg items)) as r eqn:Er. intros H.
  induction H; try discriminate.
  - exists EmptyString. now repeat split.
  - inversion Er; subst. inv H.
    destruct (IHmatches2 eq_refl) as (w & -> & Hw & ->).
    exists (String c w). simpl. rewrite H8, Hw. now repeat split.
Qed.

Lemma star_dot_intro (ic : bool) (w s' : string) :
  forall p,
    all_chars (fun c => negb (Ascii.eqb c "010")) w = true ->
    matches ic (Star Dot) p (w ++ s') (last_of p w) s'.
Proof.
  induction w as [|c w IH]; intros p H; simpl in *.
  - constructor.
  - apply andb_prop in H. destruct H as [Hc Hw]. apply negb_true_iff in Hc.
    eapply M_star_cons; [now constructor | simpl; lia | now apply IH].
Qed.

(** A literal matches itself. *)
Lemma lit_intro (ic : bool) (w s' : string) :
  forall p,
    all_chars (fun c => set_match ic false [CChar c] c) w = true ->
    matches ic (lit w) p (w ++ s') (last_of p w) s'.
Proof.
  induction w as [|c w IH]; intros p H; simpl in *.
  - constructor.
  - apply andb_prop in H. destruct H as [Hc Hw]. destruct w as [|d w].
    + simpl. now constructor.
    + econstructor; [now constructor | now apply IH].
Qed.

Lemma lit_elim (w : string) :
  forall p s p' s',
    matches false (lit w) p s p' s' -> s = w ++ s' /\ p' = last_of p w.
Proof.
  induction w as [|c w IH]; intros p s p' s' H.
  - inv H. now split.
  - destruct w as [|d w].
    + cbn [lit] in H. unfold chr in H. inv_matches. simp_sets. now split.
    + change (lit (String c (String d w)))
        with (Cat (chr c) (lit (String d w))) in H.
      inv H. unfold chr in *. inv_matches. simp_sets.
      match goal with Hm : matches false _ (Some c) _ _ _ |- _ =>
        apply (IH (Some c)) in Hm; destruct Hm as [-> ->] end.
      now split.
Qed.

(** Signal 3: a comma, a whitespace character, a lowercase letter. *)
Lemma comma_clause_signal (s : string) :
  py_search false (nth 2 paragraph_indicators Eps) s = true <-> has_comma_clause s.
Proof.
  rewrite py_search_correct. cbv [nth paragraph_indicators seq chr space rng].
  split.
  - intros (u & v & p' & s' & -> & Hm). inv_matches. simp_sets.
    consume_stars.
    match goal with
    | H1 : is_space ?a = true, H2 : in_range "a" "z" ?b = true |- _ =>
        eexists (u ++ _), a, b; eexists; rewrite append_assoc;
        split; [reflexivity | now split]
    end.
  - intros (u & c1 & c2 & v & -> & H1 & H2). unfold is_lower in H2.
    exists u, (String "," (String c1 (String c2 v))), (Some c2), v.
    split; [reflexivity|].
    econstructor; [apply M_star_nil|].
    econstructor; [set_intro|].
    econstructor; [set_intro|].
    econstructor; [set_intro|].
    constructor.
Qed.

Lemma lower_is_word (c : ascii) : in_range "a" "z" c = true -> is_word c = true.
Proof.
  intros H. unfold is_word. fold (is_lower c) in H. rewrite H.
  now rewrite !orb_true_r.
Qed.

Lemma all_lower_last (w : string) (c : ascii) :
  is_word c = true -> all_chars is_lower w = true ->
  opt_word (last_of (Some c) w) = true.
Proof.
  revert c. induction w as [|d w IH]; intros c Hc Hw; simpl in *; [exact Hc|].
  apply andb_prop in Hw. destruct Hw as [Hd Hw].
  apply IH; [now apply lower_is_word | exact Hw].
Qed.

Lemma all_chars_ext (f g : ascii -> bool) (w : string) :
  (forall c, f c = g c) -> all_chars f w = all_chars g w.
Proof.
  intros H. induction w as [|c w IH]; simpl; [reflexivity | now rewrite H, IH].
Qed.

Lemma lower_set (c : ascii) :
  set_match false false [CRange "a" "z"] c = is_lower c.
Proof. rewrite set_match_plain. simpl. now rewrite orb_false_r. Qed.

Ltac pick_word wd u0 v0 :=
  exists wd; split; [simpl; tauto|];
  exists u0, v0; split; [now rewrite append_assoc | now split].

(** Signal 4: one of the function words, standing alone. *)
Lemma function_word_signal (s : string) :
  py_search false (nth 3 paragraph_indicators Eps) s = true <-> has_function_word s.
Proof.
  rewrite py_search_correct. cbv [nth paragraph_indicators seq alts].
  unfold has_function_word, standalone, function_words. split.
  - intros (u & v & p' & s' & -> & Hm). unfold chr in *.
    inv_matches; consume_stars; simp_sets;
      match goal with
      | H1 : xorb (opt_word (last_of (last_of None u) ?w0)) (head_word (String _ _)) = true,
        H2 : xorb (opt_word (Some _)) (head_word ?v') = true |- _ =>
          simpl in H1, H2;
          assert (Hb : opt_word (last_of None (u ++ w0)) = false)
            by (rewrite last_of_app;
                destruct (opt_word (last_of (last_of None u) w0));
                [discriminate H1 | reflexivity]);
          assert (Ha : head_word v' = false)
            by (destruct (head_word v'); [discriminate H2 | reflexivity]);
          first [ pick_word "and" (u ++ w0) v' | pick_word "the" (u ++ w0) v'
                | pick_word "of" (u ++ w0) v' | pick_word "in" (u ++ w0) v'
                | pick_word "to" (u ++ w0) v' ]
      end.
  - intros (w & Hw & u & v & -> & Hu & Hv).
    exists u, (w ++ v), (last_of (last_of None u) w), v. split; [reflexivity|].
    econstructor; [apply M_star_nil|].
    assert (Hword : head_word (w ++ v) = true
                    /\ opt_word (last_of (last_of None u) w) = true).
    { simpl in Hw. destruct Hw as [<-|[<-|[<-|[<-|[<-|[]]]]]]; now split. }
    destruct Hword as [Hh Hl].
    econstructor; [constructor; now rewrite Hu, Hh|].
    econstructor; [|constructor; now rewrite Hl, Hv].
    simpl in Hw. destruct Hw as [<-|[<-|[<-|[<-|[<-|[]]]]]].
    + apply M_alt_l. now apply lit_intro.
    + apply M_alt_r, M_alt_l. now apply lit_intro.
    + do 2 apply M_alt_r. apply M_alt_l. now apply lit_intro.
    + do 3 apply M_alt_r. apply M_alt_l. now apply lit_intro.
    + do 4 apply M_alt_r. now apply lit_intro.
Qed.

(** Signal 2: a lowercase word of at least three letters. *)
Lemma lowercase_word_signal (s : string) :
  py_search false (nth 1 paragraph_indicators Eps) s = true <-> has_lowercase_word s.
Proof.
  rewrite py_search_correct. cbv [nth paragraph_indicators seq at_least times].
  unfold has_lowercase_word, standalone. split.
  - intros (u & v & p' & s' & -> & Hm). inv_matches. unfold rng in *.
    match goal with
    | Hs : matches _ (Star (CSet _ _)) _ _ _ _ |- _ =>
        apply star_set_elim in Hs; destruct Hs as (w & ? & Hw & ?); subst
    end.
    consume_stars. simp_sets.
    rewrite (all_chars_ext _ is_lower) in Hw by apply lower_set.
    match goal with
    | H1 : xorb (opt_word (last_of (last_of None u) ?w0))
                (head_word (String ?a (String ?b (String ?c (w ++ ?v'))))) = true,
      H2 : xorb (opt_word (last_of (Some ?c) w)) (head_word ?v') = true,
      Ha : in_range "a" "z" ?a = true,
      Hb : in_range "a" "z" ?b = true,
      Hc : in_range "a" "z" ?c = true |- _ =>
        assert (Hbefore : opt_word (last_of None (u ++ w0)) = false)
          by (rewrite last_of_app; cbn [head_word] in H1;
              rewrite (lower_is_word a Ha) in H1;
              destruct (opt_word (last_of (last_of None u) w0));
              [discriminate H1 | reflexivity]);
        assert (Hafter : head_word v' = false)
          by (rewrite all_lower_last in H2
                by (try apply lower_is_word; assumption);
              destruct (head_word v'); [discriminate H2 | reflexivity]);
        exists (String a (String b (String c w)));
        split; [exists (u ++ w0), v'; split; [now rewrite append_assoc | now split]|];
        simpl; unfold is_lower; rewrite Ha, Hb, Hc; split; [exact Hw | lia]
    end.
  - intros (w & (u & v & -> & Hu & Hv) & Hw & Hlen).
    destruct w as [|a [|b [|c w]]]; simpl in Hlen; try lia.
    simpl in Hw. apply andb_prop in Hw. destruct Hw as [Ha Hw].
    apply andb_prop in Hw. destruct Hw as [Hb Hw].
    apply andb_prop in Hw. destruct Hw as [Hc Hw].
    unfold is_lower in Ha, Hb, Hc.
    exists u, (String a (String b (String c w)) ++ v),
           (last_of (Some c) w), v.
    split; [reflexivity|].
    econstructor; [apply M_star_nil|].
    econstructor.
    { constructor. rewrite Hu. simpl. now rewrite (lower_is_word a Ha). }
    econstructor.
    { econstructor.
      - econstructor; [unfold rng; set_intro|].
        econstructor; [unfold rng; set_intro|].
        econstructor; [unfold rng; set_intro | constructor].
      - apply (star_set_intro false false [CRange "a" "z"] w v (Some c)).
        now rewrite (all_chars_ext _ is_lower) by apply lower_set. }
    econstructor; [|apply M_star_nil].
    constructor. rewrite Hv.
    now rewrite all_lower_last by (try apply lower_is_word; assumption).
Qed.

Lemma at_end_single_line (s : string) :
  at_end s = true -> single_line s -> s = EmptyString.
Proof.
  unfold single_line. destruct s as [|c [|d s]]; simpl; try discriminate; [reflexivity|].
  intros E H. rewrite E in H. discriminate.
Qed.

Lemma terminal_set (c : ascii) :
  set_match false false [CChar "."; CChar "!"; CChar "?"] c = is_terminal c.
Proof.
  rewrite set_match_plain. unfold is_terminal. simpl. now rewrite orb_false_r, orb_assoc.
Qed.

(** Signal 1: an uppercase letter, a lowercase letter, and terminal
    punctuation at the end. *)
Lemma sentence_signal (s : string) :
  single_line s ->
  (py_search false (nth 0 paragraph_indicators Eps) s = true <-> sentence_like s).
Proof.
  intros Hline. rewrite py_search_correct. cbv [nth paragraph_indicators seq].
  unfold sentence_like. split.
  - intros (u & v & p' & s' & -> & Hm). inv_matches.
    match goal with
    | Hu : None = last_of None u |- _ =>
        symmetry in Hu; apply last_of_none in Hu; subst u
    end.
    consume_stars.
    match goal with
    | Ht : set_match false false [CChar "."; CChar "!"; CChar "?"] _ = true |- _ =>
        rewrite terminal_set in Ht
    end.
    simp_sets. simpl in Hline |- *.
    match goal with
    | He : at_end ?r = true |- _ =>
        assert (Er : r = EmptyString);
        [ apply at_end_single_line; [exact He|];
          unfold single_line in *; simpl in Hline;
          rewrite all_chars_app in Hline; simpl in Hline;
          repeat (apply andb_prop in Hline; destruct Hline as [? Hline]);
          exact Hline
        | subst r ]
    end.
    do 4 eexists. split; [reflexivity|]. unfold is_upper, is_lower. now repeat split.
  - intros (c1 & c2 & u & c3 & -> & H1 & H2 & H3).
    unfold is_upper in H1. unfold is_lower in H2.
    exists EmptyString, (String c1 (String c2 (u ++ String c3 EmptyString))),
           (Some c3), EmptyString.
    split; [reflexivity|]. simpl last_of.
    econstructor; [constructor|].
    econstructor; [unfold rng; set_intro|].
    econstructor; [unfold rng; set_intro|].
    econstructor.
    { apply (star_dot_intro false u (String c3 EmptyString) (Some c2)).
      unfold single_line in Hline. simpl in Hline.
      apply andb_prop in Hline. destruct Hline as [_ Hline].
      apply andb_prop in Hline. destruct Hline as [_ Hline].
      rewrite all_chars_app in Hline. apply andb_prop in Hline. tauto. }
    econstructor.
    { constructor. now rewrite terminal_set. }
    now constructor.
Qed.

(** [n] characters without a line break. *)
Lemma times_dot_elim (ic : bool) (n : nat) :
  forall p s p' s',
    matches ic (times n Dot) p s p' s' ->
    exists w, s = w ++ s' /\ String.length w = n.
Proof.
  induction n as [|n IH]; intros p s p' s' H; simpl in H.
  - inv H. now exists EmptyString.
  - inv_matches.
    match goal with Hm : matches _ (times n Dot) _ _ _ _ |- _ =>
      apply IH in Hm; destruct Hm as (w & -> & <-) end.
    eexists (String _ w). split; reflexivity.
Qed.

Lemma times_dot_intro (ic : bool) (w s' : string) :
  forall p,
    all_chars (fun c => negb (Ascii.eqb c "010")) w = true ->
    matches ic (times (String.length w) Dot) p (w ++ s') (last_of p w) s'.
Proof.
  induction w as [|c w IH]; intros p H; simpl in *.
  - constructor.
  - apply andb_prop in H. destruct H as [Hc Hw]. apply negb_true_iff in Hc.
    econstructor; [now constructor | now apply IH].
Qed.

Lemma split_at (n : nat) (s : string) :
  (n <= String.length s)%nat ->
  exists w s', s = w ++ s' /\ String.length w = n.
Proof.
  revert s. induction n as [|n IH]; intros s H.
  - now exists EmptyString, s.
  - destruct s as [|c s]; simpl in H; [lia|].
    destruct (IH s) as (w & s' & -> & <-); [lia|].
    now exists (String c w), s'.
Qed.

Lemma cat_elim (ic : bool) (r1 r2 : re) (p p' : option ascii) (s s' : string) :
  matches ic (Cat r1 r2) p s p' s' ->
  exists p1 s1, matches ic r1 p s p1 s1 /\ matches ic r2 p1 s1 p' s'.
Proof. intros H. inv H. eauto. Qed.

(** Signal 5: at least 50 characters. *)
Lemma long_signal (s : string) :
  single_line s ->
  (py_search false (nth 4 paragraph_indicators Eps) s = true <-> long_text s).
Proof.
  intros Hline. rewrite py_search_correct. cbv [nth paragraph_indicators at_least].
  unfold long_text. split.
  - intros (u & v & p' & s' & -> & Hm).
    apply cat_elim in Hm. destruct Hm as (p1 & s1 & Hm & _).
    apply times_dot_elim in Hm. destruct Hm as (w & -> & Hw).
    rewrite !length_append. lia.
  - intros Hlen. destruct (split_at 50 s Hlen) as (w & s' & -> & Hw).
    exists EmptyString, (w ++ s'), (last_of None w), s'. split; [reflexivity|].
    econstructor; [|apply M_star_nil]. rewrite <- Hw. apply times_dot_intro.
    unfold single_line in Hline. rewrite all_chars_app in Hline.
    apply andb_prop in Hline. tauto.
Qed.

(** Trimming keeps a text on one line. *)
Lemma single_line_strip (t : string) : single_line t -> single_line (strip t).
Proof.
  unfold single_line, strip. intros H.
  assert (Hl : forall s, all_chars (fun c => negb (Ascii.eqb c "010")) s = true ->
                         all_chars (fun c => negb (Ascii.eqb c "010")) (lstrip s) = true).
  { induction s as [|c s IH]; simpl; [reflexivity|]. intros Hs.
    destruct (is_space c); [|exact Hs].
    apply andb_prop in Hs. now apply IH. }
  assert (Hr : forall s, all_chars (fun c => negb (Ascii.eqb c "010")) s = true ->
                         all_chars (fun c => negb (Ascii.eqb c "010")) (rstrip s) = true).
  { induction s as [|c s IH]; [reflexivity|]. intros Hs.
    simpl in Hs. apply andb_prop in Hs. destruct Hs as [Hc Hs].
    rewrite rstrip_cons. specialize (IH Hs).
    destruct (rstrip s) as [|d r].
    - destruct (is_space c); simpl; [reflexivity | now rewrite Hc].
    - change (all_chars (fun c => negb (Ascii.eqb c "010")) (String c (String d r)))
        with (negb (Ascii.eqb c "010")
              && all_chars (fun c => negb (Ascii.eqb c "010")) (String d r)).
      now rewrite Hc, IH. }
  now apply Hr, Hl.
Qed.

End SignalFacts.

Module ParagraphTheorems.

Import Text Re ReSpec TextFacts ReFacts Classify Spec SignalFacts.

Lemma count_true_votes (A : Type) (f : A -> bool) (l : list A) :
  count_true f l = votes (map f l).
Proof.
  unfold count_true, votes. induction l as [|x l IH]; simpl; [reflexivity|].
  destruct (f x); simpl; [now rewrite IH | exact IH].
Qed.

(** C9, as amended.  For a text line (no line break inside),
    [is_paragraph] is false when the text has fewer than 8
    whitespace-delimited words; otherwise it is true exactly when at least
    3 of these 5 signals hold of the trimmed text: it starts with an
    uppercase letter followed at once by a lowercase letter and ends in
    terminal punctuation; it contains a word of at least 3 lowercase
    letters, standing on its own; it contains a comma followed by exactly
    one whitespace character and then a lowercase letter; it contains one
    of the words and, the, of, in, to, in lowercase and standing on its
    own; it has at least 50 characters.  The booleans [b1] to [b5] are the
    truth values of the signals. *)
Theorem is_paragraph_vote (t : string) :
  single_line t ->
  exists b1 b2 b3 b4 b5 : bool,
    (b1 = true <-> sentence_like (strip t))
    /\ (b2 = true <-> has_lowercase_word (strip t))
    /\ (b3 = true <-> has_comma_clause (strip t))
    /\ (b4 = true <-> has_function_word (strip t))
    /\ (b5 = true <-> long_text (strip t))
    /\ ((word_count t < 8)%nat -> is_paragraph t = false)
    /\ ((8 <= word_count t)%nat ->
        (is_paragraph t = true <-> (3 <= votes [b1; b2; b3; b4; b5])%nat)).
Proof.
  intros Hline. apply single_line_strip in Hline.
  exists (py_search false (nth 0 paragraph_indicators Eps) (strip t)),
         (py_search false (nth 1 paragraph_indicators Eps) (strip t)),
         (py_search false (nth 2 paragraph_indicators Eps) (strip t)),
         (py_search false (nth 3 paragraph_indicators Eps) (strip t)),
         (py_search false (nth 4 paragraph_indicators Eps) (strip t)).
  split; [now apply sentence_signal|].
  split; [apply lowercase_word_signal|].
  split; [apply comma_clause_signal|].
  split; [apply function_word_signal|].
  split; [now apply long_signal|].
  unfold is_paragraph, word_count. rewrite count_true_votes.
  change (map (fun p => py_search false p (strip t)) paragraph_indicators)
    with [py_search false (nth 0 paragraph_indicators Eps) (strip t);
          py_search false (nth 1 paragraph_indicators Eps) (strip t);
          py_search false (nth 2 paragraph_indicators Eps) (strip t);
          py_search false (nth 3 paragraph_indicators Eps) (strip t);
          py_search false (nth 4 paragraph_indicators Eps) (strip t)].
  unfold MIN_PARAGRAPH_WORDS. split.
  - intros H. apply Nat.ltb_lt in H. rewrite H. now rewrite orb_true_r.
  - intros H.
    assert (E1 : (List.length (split (strip t)) <? 8)%nat = false)
      by (apply Nat.ltb_ge; exact H).
    assert (E2 : is_empty (strip t) = false).
    { destruct (strip t); [simpl in H; lia | reflexivity]. }
    rewrite E1, E2. cbn [orb]. apply Nat.leb_le.
Qed.

Lemma is_paragraph_vote_witness :
  is_paragraph Samples.prose = true
  /\ exists b1 b2 b3 b4 b5 : bool,
       (b1 = true <-> sentence_like (strip Samples.prose))
       /\ (b2 = true <-> has_lowercase_word (strip Samples.prose))
       /\ (b3 = true <-> has_comma_clause (strip Samples.prose))
       /\ (b4 = true <-> has_function_word (strip Samples.prose))
       /\ (b5 = true <-> long_text (strip Samples.prose))
       /\ ((word_count Samples.prose < 8)%nat -> is_paragraph Samples.prose = false)
       /\ ((8 <= word_count Samples.prose)%nat ->
           (is_paragraph Samples.prose = true
            <-> (3 <= votes [b1; b2; b3; b4; b5])%nat)).
Proof.
  split; [vm_compute; reflexivity|].
  apply (is_paragraph_vote Samples.prose). vm_compute. reflexivity.
Defined.

(** A text of eight words or more on which two signals hold is not a
    paragraph; with a third signal it is. *)
Example is_paragraph_two_of_five :
  is_paragraph "we saw ten big red cats in my way today" = false
  /\ is_paragraph "we saw ten big red cats, all in my way" = true.
Proof. split; vm_compute; reflexivity. Qed.

Local Open Scope string_scope.

(** C9, counterexample.  On this text of nine words three of the five
    signals hold as the claim words them: it starts with the capitalised
    word A and ends in a full stop, it contains the lowercase word cat,
    and it contains the function word in.  [is_paragraph] is false all the
    same: its first pattern asks for a lowercase letter right after the
    first uppercase letter.  On the second text the function word is The,
    which the case-sensitive pattern does not take.  On the third text two
    blanks stand between the comma and the lowercase word all, and the
    third pattern allows one whitespace character there. *)
Lemma is_paragraph_worded_counterexample :
  ((8 <= word_count "A cat sat in a hat by a door.")%nat
   /\ worded_sentence (strip "A cat sat in a hat by a door.")
   /\ has_lowercase_word (strip "A cat sat in a hat by a door.")
   /\ has_function_word (strip "A cat sat in a hat by a door.")
   /\ is_paragraph "A cat sat in a hat by a door." = false)
  /\ ((8 <= word_count "The cat sat by a mat on a rug.")%nat
      /\ worded_sentence (strip "The cat sat by a mat on a rug.")
      /\ has_lowercase_word (strip "The cat sat by a mat on a rug.")
      /\ worded_function_word (strip "The cat sat by a mat on a rug.")
      /\ is_paragraph "The cat sat by a mat on a rug." = false)
  /\ ((8 <= word_count "we saw ten big red cats,  all in my way")%nat
      /\ has_lowercase_word (strip "we saw ten big red cats,  all in my way")
      /\ worded_comma_clause (strip "we saw ten big red cats,  all in my way")
      /\ has_function_word (strip "we saw ten big red cats,  all in my way")
      /\ is_paragraph "we saw ten big red cats,  all in my way" = false).
Proof.
  split; [|split].
  - change (strip "A cat sat in a hat by a door.") with "A cat sat in a hat by a door.".
    split; [vm_compute; lia|]. split; [|split; [|split]].
    + split.
      * exists "A"%char, " cat sat in a hat by a door.". split; reflexivity.
      * exists "A cat sat in a hat by a door", "."%char. split; reflexivity.
    + exists "cat". split; [|split; [reflexivity | simpl; lia]].
      exists "A ", " sat in a hat by a door.". repeat split; reflexivity.
    + exists "in". split; [simpl; tauto|].
      exists "A cat sat ", " a hat by a door.". repeat split; reflexivity.
    + vm_compute. reflexivity.
  - change (strip "The cat sat by a mat on a rug.") with "The cat sat by a mat on a rug.".
    split; [vm_compute; lia|]. split; [|split; [|split]].
    + split.
      * exists "T"%char, "he cat sat by a mat on a rug.". split; reflexivity.
      * exists "The cat sat by a mat on a rug", "."%char. split; reflexivity.
    + exists "cat". split; [|split; [reflexivity | simpl; lia]].
      exists "The ", " sat by a mat on a rug.". repeat split; reflexivity.
    + exists "the", "The". split; [simpl; tauto|]. split; [reflexivity|].
      exists EmptyString, " cat sat by a mat on a rug.". repeat split; reflexivity.
    + vm_compute. reflexivity.
  - change (strip "we saw ten big red cats,  all in my way")
      with "we saw ten big red cats,  all in my way".
    split; [vm_compute; lia|]. split; [|split; [|split]].
    + exists "saw". split; [|split; [reflexivity | simpl; lia]].
      exists "we ", " ten big red cats,  all in my way". repeat split; reflexivity.
    + exists "we saw ten big red cats", "  ", "a"%char, "ll in my way".
      repeat split; reflexivity.
    + exists "in". split; [simpl; tauto|].
      exists "we saw ten big red cats,  all ", " my way". repeat split; reflexivity.
    + vm_compute. reflexivity.
Qed.
End ParagraphTheorems.

(** ** The blocklist at work *)

Module BlocklistFacts.

Import Text Re ReSpec TextFacts ReFacts Classify Spec SignalFacts ExtractFacts.
Local Open Scope char_scope.
Local Open Scope string_scope.

(** One or more characters of a set. *)
Lemma plus_set_intro (ic neg : bool) (items : list citem) (w s' : string)
    (p : option ascii) :
  w <> EmptyString ->
  all_chars (set_match ic neg items) w = true ->
  matches ic (plus (CSet neg items)) p (w ++ s') (last_of p w) s'.
Proof.
  intros Hne Hw. destruct w as [|c w]; [congruence|]. simpl in Hw.
  apply andb_prop in Hw. destruct Hw as [Hc Hw]. unfold plus.
  econstructor; [now constructor|].
  exact (star_set_intro ic neg items w s' (Some c) Hw).
Qed.

(** Changing the case of a character keeps it a digit, or a letter or
    digit, or neither (checked on all 256 characters). *)
Lemma digit_case (c : ascii) :
  is_digit (to_lower c) = is_digit c /\ is_digit (to_upper c) = is_digit c.
Proof. destruct c as [[] [] [] [] [] [] [] []]; vm_compute; split; reflexivity. Qed.

Lemma alnum_case (c : ascii) :
  (is_lower (to_lower c) || is_upper (to_lower c) || is_digit (to_lower c)
   = is_lower c || is_upper c || is_digit c)%bool
  /\ (is_lower (to_upper c) || is_upper (to_upper c) || is_digit (to_upper c)
      = is_lower c || is_upper c || is_digit c)%bool.
Proof. destruct c as [[] [] [] [] [] [] [] []]; vm_compute; split; reflexivity. Qed.

Lemma blocked_by (i : nat) (t : string) :
  (i < List.length BLOCKLIST_REGEX)%nat ->
  (exists p' s', matches true (nth i BLOCKLIST_REGEX Eps) None (strip t) p' s') ->
  is_blocked t = true.
Proof.
  intros Hi Hm. apply is_blocked_iff. right.
  exists (nth i BLOCKLIST_REGEX Eps). split; [now apply nth_In|].
  now apply py_match_correct.
Qed.

(** Pure digits are blocked. *)
Lemma digits_blocked (t : string) :
  strip t <> EmptyString -> all_chars is_digit (strip t) = true ->
  is_blocked t = true.
Proof.
  intros Hne Hd. apply (blocked_by 0); [simpl; lia|].
  exists (last_of None (strip t)), EmptyString.
  cbv [nth BLOCKLIST_REGEX seq digit].
  econstructor; [constructor|].
  econstructor; [|now constructor].
  rewrite <- (append_nil_r (strip t)) at 1.
  apply plus_set_intro; [exact Hne|].
  rewrite (all_chars_ext _ is_digit); [exact Hd|].
  intros c. unfold set_match. cbn [existsb item_match xorb].
  destruct (digit_case c) as [-> ->]. now destruct (is_digit c).
Qed.

(** A text without any letter or digit is blocked. *)
Lemma symbols_blocked (t : string) :
  all_chars (fun c => negb (is_digit c || is_upper c || is_lower c)) (strip t) = true ->
  is_blocked t = true.
Proof.
  intros Hs. destruct (strip t) as [|c0 s0] eqn:E.
  { unfold is_blocked. now rewrite E. }
  apply (blocked_by 9); [simpl; lia|]. rewrite E.
  exists (last_of None (String c0 s0)), EmptyString.
  cbv [nth BLOCKLIST_REGEX seq].
  econstructor; [constructor|].
  econstructor; [|now constructor].
  rewrite <- (append_nil_r (String c0 s0)) at 1.
  apply plus_set_intro; [discriminate|].
  rewrite (all_chars_ext _
             (fun c => negb (is_digit c || is_upper c || is_lower c))); [exact Hs|].
  intros c. unfold set_match. cbn [existsb item_match xorb].
  fold (is_lower c) (is_upper c) (is_digit c).
  fold (is_lower (to_lower c)) (is_upper (to_lower c)) (is_digit (to_lower c)).
  fold (is_lower (to_upper c)) (is_upper (to_upper c)) (is_digit (to_upper c)).
  destruct (alnum_case c) as [E1 E2].
  destruct (is_lower c), (is_upper c), (is_digit c),
           (is_lower (to_lower c)), (is_upper (to_lower c)), (is_digit (to_lower c)),
           (is_lower (to_upper c)), (is_upper (to_upper c)), (is_digit (to_upper c));
    simpl in *; congruence.
Qed.

(** One text per pattern of the blocklist, in the order of the list, in
    the letter case of the pattern and in another; all are blocked. *)
Example blocklist_patterns :
  forallb is_blocked
    ["2024"; "xiv"; "MCMXC"; "b"; "Q"; "Table of Contents"; "TABLE OF CONTENTS";
     "Appendix"; "index"; "References"; "BIBLIOGRAPHY"; "   "; "-- * --";
     "Chapter 3"; "section 2.1 Scope"; "Fig. 4"; "Figure 5: Prices"; "Table 2";
     "3rd January 2024"; "12 Feb"; "Monday"; "tuesday morning"; "Sunset views";
     "1/2/2024"; "12/31/99"; "2024-01-31"]
  = true.
Proof. vm_compute. reflexivity. Qed.

(** Texts that look alike and are not blocked: the patterns are tried at
    the start of the text only, and a word must end where the pattern
    says. *)
Example blocklist_near_misses :
  forallb (fun t => negb (is_blocked t))
    ["2024 Outlook"; "xiv."; "ab"; "Tables of Contents"; "Appendix A";
     "Figures and Tables"; "Chapters"; "on 3rd January"; "since Monday";
     "3 Jan2024"; "1/2/20245"; "2024-1-31"; "Summary"; "Introduction"]
  = true.
Proof. vm_compute. reflexivity. Qed.

(** Heading-like and not heading-like texts. *)
Example heading_like_samples :
  map is_heading_like
    ["Introduction"; "1. Introduction"; "Market Overview"; "What is this?";
     "Overview: The plan"; "ABSTRACT"; "Market overview";
     "This is a sentence."; "hello there my friend now"]
  = [true; true; true; true; true; false; false; false; false].
Proof. vm_compute. reflexivity. Qed.

End BlocklistFacts.

(** * Further properties of the code *)

(** ** Extraction: pages, flags, density *)

Module ExtractTheorems.

Import Text Py PyFacts TextFacts Engine Spec TitleFacts ExtractFacts.
Local Open Scope Q_scope.

(** The page indexes of the line sequence never decrease and stay below
    the number of pages. *)
Lemma numbered_lines_sorted (pages : list Page) (a : nat) :
  let srcs :=
    flat_map (fun np => map (fun l => (fst np, page_width (snd np), l))
                          (page_lines (snd np)))
      (combine (seq a (List.length pages)) pages) in
  StronglySorted le (map (fun src => fst (fst src)) srcs)
  /\ forall src : nat * Q * Line,
       In src srcs -> (a <= fst (fst src) < a + List.length pages)%nat.
Proof.
  revert a. induction pages as [|pg pages IH]; intros a; simpl.
  - split; [constructor | intros src []].
  - destruct (IH (S a)) as [Hs Hb]. split.
    + rewrite map_app, map_map. simpl.
      induction (page_lines pg) as [|l ls IHl]; simpl; [exact Hs|].
      constructor; [exact IHl|].
      apply Forall_app. split.
      * apply Forall_forall. intros n Hn. apply in_map_iff in Hn.
        destruct Hn as [x [<- _]]. lia.
      * apply Forall_forall. intros n Hn. apply in_map_iff in Hn.
        destruct Hn as [src [<- Hsrc]]. specialize (Hb src Hsrc). lia.
    + intros src Hsrc. apply in_app_or in Hsrc. destruct Hsrc as [Hsrc|Hsrc].
      * apply in_map_iff in Hsrc. destruct Hsrc as [l [<- _]]. simpl. lia.
      * specialize (Hb src Hsrc). lia.
Qed.

Lemma sorted_pages_filter (A : Type) (key : A -> nat) (f : A -> bool) (l : list A) :
  StronglySorted le (map key l) ->
  StronglySorted Z.le (map (fun x => (Z.of_nat (key x) + 1)%Z) (filter f l)).
Proof.
  induction l as [|x l IH]; simpl; intros Hs; [constructor|].
  inversion Hs as [|? ? Hs' Hall]; subst.
  destruct (f x); simpl; [|now apply IH].
  constructor; [now apply IH|].
  rewrite Forall_forall in *. intros z Hz. apply in_map_iff in Hz.
  destruct Hz as [y [<- Hy]]. apply filter_In in Hy. destruct Hy as [Hy _].
  assert (key x <= key y)%nat by (apply Hall; now apply in_map).
  lia.
Qed.

Lemma described_pages (srcs : list (nat * Q * Line)) (es : list Element) :
  Forall2 describes srcs es ->
  map page es = map (fun src => (Z.of_nat (fst (fst src)) + 1)%Z) srcs.
Proof.
  induction 1 as [|src e srcs es Hd _ IH]; simpl; [reflexivity|].
  destruct Hd as (Hp & _). now rewrite Hp, IH.
Qed.

(** X1.  The extraction never raises.  It yields at most one element per
    line; along the list the page numbers never decrease, and each is the
    number of a page of the document, counted from 1. *)
Theorem extraction_page_order (doc : Document) :
  exists elements,
    extract_text_with_style doc = Ok elements
    /\ (List.length elements <= List.length (doc_lines doc))%nat
    /\ StronglySorted Z.le (map page elements)
    /\ forall e, In e elements -> (1 <= page e <= Z.of_nat (List.length doc))%Z.
Proof.
  destruct (extract_text_with_style_spec doc) as (elements & E & Hd).
  exists elements. split; [exact E|].
  destruct (numbered_lines_sorted doc 0) as [Hs Hb].
  fold (enumerate doc) in Hs, Hb. fold (doc_lines doc) in Hs, Hb.
  split; [|split].
  - rewrite <- (Forall2_length Hd). apply filter_length_le.
  - rewrite (described_pages _ _ Hd).
    apply (sorted_pages_filter _ (fun src => fst (fst src)) survives). exact Hs.
  - intros e He. destruct (@described_in _ _ e Hd He) as (src & Hsrc & Hp & _).
    apply filter_In in Hsrc. destruct Hsrc as [Hsrc _].
    specialize (Hb src Hsrc). rewrite Hp. lia.
Qed.

(** [flags & 2^k] is non-zero exactly when bit [k] of [flags] is set. *)
Lemma land_pow2_testbit (f k : Z) :
  (0 <= k)%Z -> negb (Z.land f (2 ^ k) =? 0)%Z = Z.testbit f k.
Proof.
  intros Hk.
  assert (E : Z.land f (2 ^ k) = if Z.testbit f k then (2 ^ k)%Z else 0%Z).
  { apply Z.bits_inj'. intros n Hn. rewrite Z.land_spec, Z.pow2_bits_eqb by exact Hk.
    destruct (Z.eqb_spec k n) as [->|Hne].
    - destruct (Z.testbit f n); [|now rewrite Z.bits_0].
      rewrite Z.pow2_bits_eqb by exact Hn. now rewrite Z.eqb_refl.
    - rewrite andb_false_r. destruct (Z.testbit f k); [|now rewrite Z.bits_0].
      rewrite Z.pow2_bits_eqb by exact Hk. symmetry. now apply Z.eqb_neq. }
  rewrite E. destruct (Z.testbit f k); [|reflexivity].
  apply negb_true_iff, Z.eqb_neq. apply Z.pow_nonzero; lia.
Qed.

(** X2.  Every extracted element takes its style from the first span of
    its line only: [bold] is bit 1 and [italic] is bit 2 of that span's
    flags, whatever the other bits and the other spans are, while the
    font size is the largest size among all the spans of the line. *)
Theorem extracted_style (doc : Document) :
  exists elements,
    extract_text_with_style doc = Ok elements
    /\ forall e, In e elements ->
         exists src s0,
           In src (doc_lines doc)
           /\ text e = line_text (snd src)
           /\ hd_error (line_spans (snd src)) = Some s0
           /\ bold e = Z.testbit (span_flags s0) 1
           /\ italic e = Z.testbit (span_flags s0) 2
           /\ is_max (font_size e) (map span_size (line_spans (snd src))).
Proof.
  destruct (extract_text_with_style_spec doc) as (elements & E & Hd).
  exists elements. split; [exact E|]. intros e He.
  destruct (@described_in _ _ e Hd He)
    as (src & Hsrc & _ & Ht & _ & Hm & (s0 & Hs0 & Hb & Hi) & _).
  apply filter_In in Hsrc. destruct Hsrc as [Hsrc _].
  exists src, s0. repeat (split; [assumption|]).
  split; [|split; [|exact Hm]].
  - rewrite Hb. apply (land_pow2_testbit _ 1). lia.
  - rewrite Hi. apply (land_pow2_testbit _ 2). lia.
Qed.

(** X3.  [calculate_text_density] never raises: for a box whose width is
    zero or negative it returns 0, otherwise the number of characters
    divided by the width; the result is never negative. *)
Theorem density_guarded (t : string) (box : BBox) :
  exists d,
    calculate_text_density t box = Ok d
    /\ 0 <= d
    /\ (x1 box - x0 box <= 0 -> d == 0)
    /\ (0 < x1 box - x0 box ->
        d == inject_Z (Z.of_nat (String.length t)) / (x1 box - x0 box)).
Proof.
  destruct (density_total t box) as (d & E & Hpos & Hzero).
  exists d. split; [exact E|]. split; [|split; assumption].
  destruct (Qlt_le_dec 0 (x1 box - x0 box)) as [Hw|Hw].
  - rewrite (Hpos Hw). apply Qle_shift_div_l; [exact Hw|].
    rewrite Qmult_0_l. change 0 with (inject_Z 0). rewrite <- Zle_Qle. lia.
  - rewrite (Hzero Hw). apply Qle_refl.
Qed.

End ExtractTheorems.

(** ** The title detector on extracted lines *)

Module TitleExtras.

Import Text Py PyFacts SortFacts TextFacts Engine Spec TitleFacts ScorerFacts
  ClusterFacts LevelFacts ExtractFacts EngineFacts.
Local Open Scope Q_scope.

Lemma is_blocked_strip (t : string) :
  Classify.is_blocked (strip t) = Classify.is_blocked t.
Proof.
  unfold Classify.is_blocked. now rewrite (strip_idempotent t).
Qed.

Lemma filter_all (A : Type) (f g : A -> bool) (l : list A) :
  (forall x, In x l -> f x = g x) -> filter f l = filter g l.
Proof.
  induction l as [|x l IH]; intros H; simpl; [reflexivity|].
  rewrite (H x) by now left. rewrite IH; [reflexivity|].
  intros y Hy. apply H. now right.
Qed.

(** X4.  [is_blocked] looks at the trimmed text only, so trimming first
    changes nothing; and on the elements the extraction produces, the
    second blocked-test made by [find_title] removes no line: the lines the
    title is chosen from are simply the elements of page 1. *)
Theorem blocked_test_redundant (doc : Document) (t : string) :
  Classify.is_blocked (strip t) = Classify.is_blocked t
  /\ exists elements,
       extract_text_with_style doc = Ok elements
       /\ filter (fun e => (page e =? 1)%Z && negb (Classify.is_blocked (text e)))
            elements
          = filter (fun e => (page e =? 1)%Z) elements.
Proof.
  split; [apply is_blocked_strip|].
  destruct (extract_text_with_style_spec doc) as (elements & E & _).
  exists elements. split; [exact E|].
  apply filter_all. intros e He.
  destruct (@extracted_text doc elements e E He) as (_ & Hb & _).
  rewrite Hb. apply andb_true_r.
Qed.

(** With trimmed texts, a first page that has a line gives a title that is
    not empty: the line of the largest size is always taken. *)
Lemma find_title_nonempty (elements : list Element) :
  Forall (fun e => trimmed (text e)) elements ->
  first_page_lines elements <> [] ->
  exists t, find_title elements = Ok t /\ t <> EmptyString.
Proof.
  intros Htrim Hne.
  destruct (find_title_unfold elements Hne) as [m [[[x [Hx Exm]] _] E]].
  set (near := filter (within_half m) (first_page_lines elements)) in E.
  assert (Hnear : near <> []).
  { apply in_map_iff in Hx. destruct Hx as [e [<- He]].
    assert (Hin : In e near).
    { apply filter_In. split; [exact He|]. apply within_half_iff. lra. }
    intros E0. rewrite E0 in Hin. destruct Hin. }
  set (S := sort_by Qltb top near) in E.
  assert (HS : S <> []).
  { intros E0. apply Hnear. apply Permutation_nil.
    rewrite <- E0. apply sort_by_perm. }
  assert (Htexts : Forall (fun t => t <> EmptyString /\ trimmed t)
                     (map text (firstn 3 S))).
  { apply Forall_forall. intros t Ht. apply in_map_iff in Ht.
    destruct Ht as [e [<- He]]. apply firstn_in_weak in He.
    apply sort_by_in in He. apply filter_In in He. destruct He as [He _].
    apply first_page_lines_in in He. destruct He as (Hin & _ & Hb).
    rewrite Forall_forall in Htrim. specialize (Htrim e Hin).
    split; [now apply title_text_nonempty | exact Htrim]. }
  eexists. split; [exact E|].
  pose proof (@trimmed_join " "%string _ Htexts) as Htj.
  unfold trimmed in Htj. rewrite Htj.
  apply join_nonempty.
  - destruct S; [congruence | discriminate].
  - eapply Forall_impl; [|exact Htexts]. simpl. tauto.
Qed.

(** X5.  For every document the title is empty exactly when no extracted
    line is on page 1. *)
Theorem title_empty_iff (doc : Document) :
  exists elements t,
    extract_text_with_style doc = Ok elements
    /\ find_title elements = Ok t
    /\ (t = EmptyString <-> forall e, In e elements -> page e <> 1%Z).
Proof.
  destruct (extract_text_with_style_spec doc) as (elements & E & _).
  assert (Hel : forall e, In e elements ->
                  trimmed (text e) /\ Classify.is_blocked (text e) = false).
  { intros e He. destruct (@extracted_text doc elements e E He) as (H1 & H2 & _).
    now split. }
  destruct (first_page_lines elements) as [|e0 l0] eqn:Ef.
  - exists elements, EmptyString. split; [exact E|].
    split; [now apply find_title_empty|]. split; [|reflexivity].
    intros _ e He Hp.
    assert (Hin : In e (first_page_lines elements)).
    { apply filter_In. split; [exact He|].
      rewrite Hp. destruct (Hel e He) as [_ ->]. reflexivity. }
    rewrite Ef in Hin. destruct Hin.
  - destruct (find_title_nonempty elements) as (t & Et & Hne).
    { apply Forall_forall. intros e He. now apply Hel. }
    { congruence. }
    exists elements, t. split; [exact E|]. split; [exact Et|].
    split; [congruence|]. intros Hall. exfalso.
    assert (Hin : In e0 (first_page_lines elements)) by (rewrite Ef; now left).
    apply first_page_lines_in in Hin. destruct Hin as (Hin & Hp & _).
    exact (Hall e0 Hin Hp).
Qed.

Lemma first_page_lines_filter (elements : list Element) :
  first_page_lines (filter (fun e => (page e =? 1)%Z) elements)
  = first_page_lines elements.
Proof.
  unfold first_page_lines. induction elements as [|e es IH]; simpl; [reflexivity|].
  destruct (page e =? 1)%Z eqn:Ep; simpl; [rewrite Ep|]; now rewrite IH.
Qed.

(** X6.  The title depends on the elements of page 1 only: elements of
    other pages, wherever they stand in the list, never change it. *)
Theorem find_title_first_page_only (elements others : list Element) :
  Forall (fun e => page e <> 1%Z) others ->
  find_title (filter (fun e => (page e =? 1)%Z) elements) = find_title elements
  /\ find_title (others ++ elements) = find_title elements
  /\ find_title (elements ++ others) = find_title elements.
Proof.
  intros Hoth.
  assert (Hfp : forall es1 es2,
            first_page_lines es1 = first_page_lines es2 ->
            find_title es1 = find_title es2).
  { intros es1 es2 H. unfold find_title.
    fold (first_page_lines es1). fold (first_page_lines es2). now rewrite H. }
  assert (Hnil : first_page_lines others = []).
  { unfold first_page_lines. induction Hoth as [|e l He _ IH]; simpl; [reflexivity|].
    apply Z.eqb_neq in He. rewrite He. exact IH. }
  split; [apply Hfp, first_page_lines_filter|].
  split; apply Hfp; unfold first_page_lines in *; rewrite filter_app, Hnil.
  - reflexivity.
  - apply app_nil_r.
Qed.

Lemma find_title_first_page_only_witness :
  find_title (filter (fun e => (page e =? 1)%Z) Samples.title_sample)
  = find_title Samples.title_sample
  /\ find_title ([elem Samples.cand_method] ++ Samples.title_sample)
     = find_title Samples.title_sample
  /\ find_title (Samples.title_sample ++ [elem Samples.cand_method])
     = find_title Samples.title_sample.
Proof.
  apply (find_title_first_page_only Samples.title_sample
           [elem Samples.cand_method]).
  constructor; [discriminate | constructor].
Defined.

End TitleExtras.

(** ** The scorer: bounds and the role of the mean *)

Module ScorerExtras.

Import Text Py PyFacts SortFacts TextFacts Engine Spec TitleFacts ScorerFacts
  ClusterFacts LevelFacts ExtractFacts EngineFacts.
Local Open Scope Q_scope.

Lemma total_score_split (avg range : Q) (e : Element) :
  total_score avg range e
  == size_bucket ((font_size e - avg) / (range + (1 # 1000000))) + bonus_points e.
Proof. unfold total_score, bonus_points. ring. Qed.

Lemma size_bucket_bounds (r : Q) : 0 <= size_bucket r <= 3.
Proof.
  unfold size_bucket.
  destruct (Qlt_le_dec (1 # 2) r); [split; lra|].
  destruct (Qlt_le_dec (1 # 5) r); [split; lra|].
  destruct (Qlt_le_dec 0 r); split; lra.
Qed.

Lemma size_bucket_positive (r : Q) : 0 < size_bucket r <-> 0 < r.
Proof.
  unfold size_bucket.
  destruct (Qlt_le_dec (1 # 2) r); [split; intros; lra|].
  destruct (Qlt_le_dec (1 # 5) r); [split; intros; lra|].
  destruct (Qlt_le_dec 0 r); split; intros; lra.
Qed.

Lemma bonus_points_bounds (e : Element) : 0 <= bonus_points e <= 8.
Proof.
  unfold bonus_points, bonus.
  destruct (bold e), (caps e && (words e <=? 8)%nat), (centered e),
           (words e <=? 10)%nat, (words e <=? 15)%nat,
           (Qlt_le_dec (density e) (3 # 5)), (heading_like e); split; lra.
Qed.

(** Sums of half units are half units. *)
Lemma half_units_plus (a b : Q) :
  (exists n, a == inject_Z n / 2) -> (exists n, b == inject_Z n / 2) ->
  exists n, a + b == inject_Z n / 2.
Proof.
  intros [n Hn] [m Hm]. exists (n + m)%Z. rewrite Hn, Hm, inject_Z_plus. field.
Qed.

Lemma total_score_half_units (avg range : Q) (e : Element) :
  exists n, total_score avg range e == inject_Z n / 2.
Proof.
  assert (H0 : exists n, 0 == inject_Z n / 2) by (exists 0%Z; reflexivity).
  assert (H1 : exists n, 1 == inject_Z n / 2) by (exists 2%Z; reflexivity).
  assert (H2 : exists n, 2 == inject_Z n / 2) by (exists 4%Z; reflexivity).
  assert (H3 : exists n, 3 == inject_Z n / 2) by (exists 6%Z; reflexivity).
  assert (Hh : exists n, (1 # 2) == inject_Z n / 2) by (exists 1%Z; reflexivity).
  unfold total_score, bonus, size_bucket.
  repeat apply half_units_plus;
    repeat match goal with
    | |- context [if ?b then _ else _] => destruct b
    | |- context [match ?d with left _ => _ | right _ => _ end] => destruct d
    end; assumption.
Qed.

(** X7.  [process_headings] never raises, and every candidate it returns is
    a line of the input that is not a paragraph, with a score between 5 and
    11 that is a whole number of half points. *)
Theorem candidate_scores_bounded (elements : list Element) :
  exists candidates,
    process_headings elements = Ok candidates
    /\ forall c, In c candidates ->
         In (elem c) elements
         /\ is_paragraph c = false
         /\ 5 <= score c <= 11
         /\ exists n, score c == inject_Z n / 2.
Proof.
  destruct (non_paragraph_sizes elements) as [|s0 ss] eqn:Es.
  - exists []. split; [now apply process_headings_none | intros c []].
  - assert (Hex : exists e, In e elements /\ is_paragraph e = false).
    { unfold non_paragraph_sizes in Es.
      destruct (filter (fun e => negb (is_paragraph e)) elements) as [|e l] eqn:Ef;
        [discriminate|].
      assert (H : In e (filter (fun e => negb (is_paragraph e)) elements))
        by (rewrite Ef; now left).
      apply filter_In in H. destruct H as [H Hp].
      exists e. split; [exact H | now destruct (is_paragraph e)]. }
    destruct (process_headings_spec elements Hex) as (avg & hi & lo & _ & _ & _ & E).
    eexists. split; [exact E|]. intros c Hc.
    apply in_map_iff in Hc. destruct Hc as [e [<- He]].
    apply filter_In in He. destruct He as [He Hk]. unfold kept in Hk.
    apply andb_prop in Hk. destruct Hk as [Hp Hk]. apply Qle_bool_iff in Hk.
    simpl. split; [exact He|]. split; [now destruct (is_paragraph e)|].
    split; [|apply total_score_half_units].
    split; [exact Hk|]. rewrite total_score_split.
    pose proof (size_bucket_bounds
                  ((font_size e - avg) / (hi - lo + (1 # 1000000)))) as Hb.
    pose proof (bonus_points_bounds e) as Hbp. lra.
Qed.

End ScorerExtras.

(** ** Levels and the outline *)

Module LevelExtras.

Import Text Py PyFacts SortFacts TextFacts Engine Spec TitleFacts ScorerFacts
  ClusterFacts LevelFacts ExtractFacts EngineFacts.
Local Open Scope Q_scope.

(** The ranked clusters of a run, with what the claims' lemmas say of them. *)
Lemma ranked_clusters (candidates : list Candidate) :
  exists ranked,
    sort_clusters (build_clusters candidates) = Ok ranked
    /\ groups_by_style candidates ranked
    /\ StronglySorted ranks_before ranked
    /\ Permutation (map snd (levelled 1 ranked)) candidates
    /\ assign_heading_levels candidates
       = Ok (sort_by (pair_ltb Z.eqb Z.ltb Qltb) reading_key
               (map heading_of (levelled 1 ranked))).
Proof.
  destruct (assign_heading_levels_spec candidates) as (ranked & E & Hg & Hs & Ea).
  exists ranked. repeat (split; [assumption|]). split; [|exact Ea].
  rewrite levelled_members.
  destruct (sort_clusters_spec (build_clusters candidates)) as (r' & E' & HP' & _).
  { intros [k items] Hin.
    destruct (build_clusters_grouped candidates) as (_ & HG & _).
    now apply (HG k items). }
  rewrite E in E'. inversion E'; subst r'.
  rewrite HP'. apply build_clusters_members.
Qed.

(** X10.  The headings are the candidates, up to order: every candidate
    gives exactly one heading with its text, page, font size and bounding
    box, and nothing else is emitted. *)
Theorem headings_are_candidates (candidates : list Candidate) :
  exists hs,
    assign_heading_levels candidates = Ok hs
    /\ Permutation (map heading_facts hs) (map candidate_facts candidates)
    /\ List.length hs = List.length candidates.
Proof.
  destruct (ranked_clusters candidates) as (ranked & _ & _ & _ & Hm & E).
  eexists. split; [exact E|].
  pose proof (sort_by_perm (pair_ltb Z.eqb Z.ltb Qltb) reading_key
                (map heading_of (levelled 1 ranked))) as HP.
  assert (Hf : Permutation
                 (map heading_facts
                    (sort_by (pair_ltb Z.eqb Z.ltb Qltb) reading_key
                       (map heading_of (levelled 1 ranked))))
                 (map candidate_facts candidates)).
  { rewrite HP, map_map.
    rewrite <- Hm, map_map. apply Permutation_refl. }
  split; [exact Hf|].
  apply Permutation_length in Hf. now rewrite !length_map in Hf.
Qed.

(** In rank order the rounded sizes never grow. *)
Lemma ranked_sizes (ranked : Clusters) (i j : nat) (x y : StyleKey * list Candidate) :
  StronglySorted ranks_before ranked -> (i <= j)%nat ->
  nth_error ranked i = Some x -> nth_error ranked j = Some y ->
  k_size (fst y) <= k_size (fst x).
Proof.
  intros Hs Hij Hi Hj. destruct (Nat.eq_dec i j) as [->|Hne].
  - rewrite Hi in Hj. inversion Hj; subst. apply Qle_refl.
  - assert (Hlt : (i < j)%nat) by lia.
    destruct (EngineTheorems.StronglySorted_nth _ _ _ _ _ _ _ Hs Hlt Hi Hj)
      as [H|[H _]]; [now apply Qlt_le_weak | rewrite H; apply Qle_refl].
Qed.

Lemma member_key_size (candidates : list Candidate) (ranked : Clusters)
    (x : StyleKey * list Candidate) (c : Candidate) :
  groups_by_style candidates ranked -> In x ranked -> In c (snd x) ->
  k_size (fst x) == k_size (style_key c).
Proof.
  intros (_ & HG & _) Hx Hc. destruct x as [k items]. simpl in *.
  destruct (HG k items Hx) as [_ F]. rewrite F in Hc.
  apply filter_In in Hc. destruct Hc as [_ Hk]. unfold has_key in Hk.
  apply key_eqb_true in Hk. destruct Hk as [Hk _]. now symmetry.
Qed.

(** X11.  A larger font never gives a deeper level: of two candidates,
    the one with the larger rounded font size - in particular one more
    than 0.5 units larger - gets a strictly smaller rank, hence a level
    that is not deeper after the clamp to 6. *)
Theorem larger_font_higher_level (candidates : list Candidate) :
  exists ranked hs,
    sort_clusters (build_clusters candidates) = Ok ranked
    /\ assign_heading_levels candidates = Ok hs
    /\ Permutation hs (map heading_of (levelled 1 ranked))
    /\ forall l1 c1 l2 c2,
         In (l1, c1) (levelled 1 ranked) -> In (l2, c2) (levelled 1 ranked) ->
         (k_size (style_key c2) < k_size (style_key c1)
          \/ font_size c2 + (1 # 2) < font_size c1) ->
         (l1 < l2)%nat /\ (Nat.min l1 6 <= Nat.min l2 6)%nat.
Proof.
  destruct (ranked_clusters candidates) as (ranked & Er & Hg & Hs & _ & E).
  exists ranked. eexists. split; [exact Er|]. split; [exact E|].
  split; [apply sort_by_perm|].
  intros l1 c1 l2 c2 H1 H2 Hsize.
  assert (Hk : k_size (style_key c2) < k_size (style_key c1)).
  { destruct Hsize as [H|H]; [exact H|].
    destruct (style_key_rounds c1) as [_ R1].
    destruct (style_key_rounds c2) as [_ R2].
    apply Qabs_Qle_condition in R1, R2. lra. }
  apply levelled_nth in H1, H2.
  destruct H1 as (i & x & Ni & Mi & ->), H2 as (j & y & Nj & Mj & ->).
  pose proof (member_key_size _ _ _ _ Hg (nth_error_In _ _ Ni) Mi) as Ex.
  pose proof (member_key_size _ _ _ _ Hg (nth_error_In _ _ Nj) Mj) as Ey.
  assert (Hij : (i < j)%nat).
  { destruct (Nat.lt_ge_cases i j) as [H|H]; [exact H|]. exfalso.
    pose proof (ranked_sizes ranked j i y x Hs H Nj Ni) as Hle.
    rewrite Ex, Ey in Hle. lra. }
  split; lia.
Qed.

(** X12.  No level is skipped: when some heading has rank [l], every rank
    from 1 to [l] has a heading too. *)
Theorem no_level_skipped (candidates : list Candidate) :
  exists ranked hs,
    sort_clusters (build_clusters candidates) = Ok ranked
    /\ assign_heading_levels candidates = Ok hs
    /\ forall l c, In (l, c) (levelled 1 ranked) ->
         In (make_heading l c) hs
         /\ forall m, (1 <= m <= l)%nat ->
              exists c', In (m, c') (levelled 1 ranked)
                         /\ In (make_heading m c') hs.
Proof.
  destruct (ranked_clusters candidates) as (ranked & Er & Hg & _ & _ & E).
  exists ranked. eexists. split; [exact Er|]. split; [exact E|].
  assert (Hin : forall l c, In (l, c) (levelled 1 ranked) ->
            In (make_heading l c)
              (sort_by (pair_ltb Z.eqb Z.ltb Qltb) reading_key
                 (map heading_of (levelled 1 ranked)))).
  { intros l c H. apply sort_by_in. apply in_map_iff. now exists (l, c). }
  intros l c Hl. split; [now apply Hin|]. intros m Hm.
  apply levelled_nth in Hl. destruct Hl as (k & x & Nk & _ & ->).
  assert (Hlen : (m - 1 < List.length ranked)%nat).
  { assert (k < List.length ranked)%nat by (apply nth_error_Some; congruence). lia. }
  destruct (nth_error ranked (m - 1)) as [[key items]|] eqn:Nm;
    [|apply nth_error_None in Nm; lia].
  destruct Hg as (_ & HG & _).
  destruct (HG key items (nth_error_In _ _ Nm)) as [Hne _].
  destruct items as [|c' items]; [congruence|].
  assert (Hc' : In (m, c') (levelled 1 ranked)).
  { apply levelled_nth. exists (m - 1)%nat, (key, c' :: items).
    split; [exact Nm|]. split; [now left | lia]. }
  exists c'. split; [exact Hc' | now apply Hin].
Qed.

(** The candidates are no more than the elements. *)
Lemma candidates_length (elements : list Element) (candidates : list Candidate) :
  process_headings elements = Ok candidates ->
  (List.length candidates <= List.length elements)%nat.
Proof.
  intros E. destruct (non_paragraph_sizes elements) as [|s0 ss] eqn:Es.
  - rewrite process_headings_none in E by exact Es. inversion E. simpl. lia.
  - assert (Hex : exists e, In e elements /\ is_paragraph e = false).
    { unfold non_paragraph_sizes in Es.
      destruct (filter (fun e => negb (is_paragraph e)) elements) as [|e l] eqn:Ef;
        [discriminate|].
      assert (H : In e (filter (fun e => negb (is_paragraph e)) elements))
        by (rewrite Ef; now left).
      apply filter_In in H. destruct H as [H Hp].
      exists e. split; [exact H | now destruct (is_paragraph e)]. }
    destruct (process_headings_spec elements Hex) as (avg & hi & lo & _ & _ & _ & E').
    rewrite E in E'. inversion E'. rewrite length_map. apply filter_length_le.
Qed.

(** X13.  For every document the outline has at most one entry per line
    of the document; every entry carries the number of a page of the
    document, a level among H1 to H6, and a text that [is_paragraph]
    rejects. *)
Theorem outline_entries_valid (doc : Document) :
  exists r,
    extract_document_structure doc = Ok r
    /\ (List.length (outline r) <= List.length (doc_lines doc))%nat
    /\ forall o, In o (outline r) ->
         (1 <= o_page o <= Z.of_nat (List.length doc))%Z
         /\ In (o_level o) level_names
         /\ Classify.is_paragraph (o_text o) = false.
Proof.
  destruct (structure_spec doc)
    as (elements & t & candidates & hs & Ee & _ & Ec & Eh & E).
  destruct (extract_text_with_style_spec doc) as (es & Ee' & Hd).
  rewrite Ee in Ee'. inversion Ee'; subst es.
  eexists. split; [exact E|]. simpl. split.
  - rewrite length_map.
    destruct (ranked_clusters candidates) as (ranked & _ & _ & _ & Hm & Ea).
    rewrite Eh in Ea. inversion Ea; subst hs.
    rewrite sort_by_length, length_map.
    rewrite <- (length_map snd), (Permutation_length Hm).
    etransitivity; [apply (candidates_length elements candidates Ec)|].
    rewrite <- (Forall2_length Hd). apply filter_length_le.
  - intros o Ho. apply in_map_iff in Ho. destruct Ho as [h [<- Hh]].
    destruct (heading_sources candidates hs h Eh Hh) as (l & c & Hc & Hl & ->).
    destruct (candidate_sources elements candidates c Ec Hc) as [He Hp].
    destruct (@described_in _ _ (elem c) Hd He) as (src & Hsrc & Hdesc).
    apply filter_In in Hsrc. destruct Hsrc as [Hsrc _].
    destruct (ExtractTheorems.numbered_lines_sorted doc 0) as [_ Hb].
    fold (enumerate doc) in Hb. fold (doc_lines doc) in Hb.
    specialize (Hb src Hsrc).
    destruct Hdesc as (Hpage & _ & _ & _ & _ & _ & _ & _ & _ & _ & Hpar & _).
    simpl. split; [rewrite Hpage; lia|].
    split; [now apply level_name_clamped|].
    rewrite <- Hpar. exact Hp.
Qed.

End LevelExtras.

(** ** What is heading-like *)

Module HeadingFacts.

Import Text Re ReSpec TextFacts ReFacts Classify Spec SignalFacts BlocklistFacts.
Local Open Scope char_scope.
Local Open Scope string_scope.

(** Facts about single characters, checked on all 256 of them. *)
Ltac all_chars_of c :=
  destruct c as [[] [] [] [] [] [] [] []]; vm_compute; intros; congruence.

Lemma upper_not_stop (c : ascii) : is_upper c = true -> is_stop c = false.
Proof. all_chars_of c. Qed.

Lemma lower_not_stop (c : ascii) : is_lower c = true -> is_stop c = false.
Proof. all_chars_of c. Qed.

Lemma space_not_stop (c : ascii) : is_space c = true -> is_stop c = false.
Proof. all_chars_of c. Qed.

Lemma word_not_stop (c : ascii) : is_word c = true -> is_stop c = false.
Proof. all_chars_of c. Qed.

Lemma upper_not_lower (c : ascii) : is_upper c = true -> is_lower c = false.
Proof. all_chars_of c. Qed.

Lemma digit_not_lower (c : ascii) : is_digit c = true -> is_lower c = false.
Proof. all_chars_of c. Qed.

Lemma stop_not_space (c : ascii) : is_stop c = true -> is_space c = false.
Proof. all_chars_of c. Qed.

(** What a pattern consumes, when all its sets accept only [f]. *)
Lemma matches_accepts (ic : bool) (f : ascii -> bool) (r : re)
    (p p' : option ascii) (s s' : string) :
  matches ic r p s p' s' -> accepts_only ic f r ->
  exists w, s = w ++ s' /\ all_chars f w = true.
Proof.
  induction 1; intros Ha; simpl in Ha;
    try (exists EmptyString; split; reflexivity).
  - exists (String c EmptyString). split; [reflexivity|]. simpl. now rewrite Ha.
  - exists (String c EmptyString). split; [reflexivity|]. simpl. now rewrite Ha.
  - destruct Ha as [Ha1 Ha2].
    destruct (IHmatches1 Ha1) as (w1 & -> & Hw1).
    destruct (IHmatches2 Ha2) as (w2 & -> & Hw2).
    exists (w1 ++ w2). split; [now rewrite append_assoc|].
    now rewrite all_chars_app, Hw1, Hw2.
  - now apply IHmatches.
  - now apply IHmatches.
  - destruct (IHmatches1 Ha) as (w1 & -> & Hw1).
    destruct (IHmatches2 Ha) as (w2 & -> & Hw2).
    exists (w1 ++ w2). split; [now rewrite append_assoc|].
    now rewrite all_chars_app, Hw1, Hw2.
Qed.

Lemma matches_anchored (ic : bool) (r : re) (p p' : option ascii) (s s' : string) :
  matches ic r p s p' s' -> ends_anchored r = true -> at_end s' = true.
Proof.
  induction 1; simpl; intros Ha; try discriminate; auto.
  - apply andb_prop in Ha. tauto.
  - apply andb_prop in Ha. tauto.
Qed.

(** The last character of a text. *)
Lemma last_of_snoc (p : option ascii) (u : string) (c : ascii) :
  last_of p (u ++ String c EmptyString) = Some c.
Proof. now rewrite last_of_app. Qed.

Lemma at_end_cases (s : string) :
  at_end s = true -> s = EmptyString \/ s = String "010" EmptyString.
Proof.
  destruct s as [|c [|d s]]; simpl; try discriminate; [now left|].
  intros H. apply Ascii.eqb_eq in H. subst. now right.
Qed.

(** A pattern anchored at the end whose sets reject the last character
    of the text does not match it. *)
Lemma anchored_rejects (f : ascii -> bool) (r : re) (u : string) (c : ascii) :
  accepts_only false f r -> ends_anchored r = true ->
  f c = false -> Ascii.eqb c "010" = false ->
  py_match false r (u ++ String c EmptyString) = false.
Proof.
  intros Ha He Hf Hnl.
  destruct (py_match false r (u ++ String c EmptyString)) eqn:E; [|reflexivity].
  apply py_match_correct in E. destruct E as (p' & s' & Hm).
  pose proof (matches_anchored _ _ _ _ _ _ Hm He) as Hend.
  destruct (matches_accepts _ f _ _ _ _ _ Hm Ha) as (w & Hs & Hw).
  apply at_end_cases in Hend.
  assert (Hl : last_of None (w ++ s') = Some c) by (rewrite <- Hs; apply last_of_snoc).
  rewrite last_of_app in Hl. destruct Hend as [->| ->]; simpl in Hl.
  - destruct w as [|x w]; [discriminate|].
    assert (Hc : all_chars f (u ++ String c EmptyString) = true).
    { rewrite Hs, append_nil_r. exact Hw. }
    rewrite all_chars_app in Hc. simpl in Hc. rewrite Hf in Hc.
    rewrite andb_false_r in Hc. discriminate.
  - inversion Hl; subst c. discriminate.
Qed.

Lemma is_stop_cases (c : ascii) : is_stop c = true -> c = "."%char \/ c = "!"%char.
Proof.
  unfold is_stop. intros H. apply orb_prop in H.
  destruct H as [H|H]; apply Ascii.eqb_eq in H; auto.
Qed.

(** The score before the penalties is the sum of the five indicators. *)
Lemma heading_points_sum (s : string) :
  sum_points (fun p => py_match false p s) heading_indicators
  = (indicator_points s (nth 0 heading_indicators (Eps, 0))
     + indicator_points s (nth 1 heading_indicators (Eps, 0))
     + indicator_points s (nth 2 heading_indicators (Eps, 0))
     + indicator_points s (nth 3 heading_indicators (Eps, 0))
     + indicator_points s (nth 4 heading_indicators (Eps, 0)))%Z.
Proof.
  unfold sum_points, indicator_points.
  change heading_indicators
    with [nth 0 heading_indicators (Eps, 0%Z); nth 1 heading_indicators (Eps, 0%Z);
          nth 2 heading_indicators (Eps, 0%Z); nth 3 heading_indicators (Eps, 0%Z);
          nth 4 heading_indicators (Eps, 0%Z)] at 1.
  cbn [fold_left].
  destruct (py_match false (fst (nth 0 heading_indicators (Eps, 0%Z))) s),
           (py_match false (fst (nth 1 heading_indicators (Eps, 0%Z))) s),
           (py_match false (fst (nth 2 heading_indicators (Eps, 0%Z))) s),
           (py_match false (fst (nth 3 heading_indicators (Eps, 0%Z))) s),
           (py_match false (fst (nth 4 heading_indicators (Eps, 0%Z))) s);
    reflexivity.
Qed.

Lemma indicator_points_bounds (s : string) (i : nat) :
  (0 <= indicator_points s (nth i heading_indicators (Eps, 0)) <= 2)%Z.
Proof.
  unfold indicator_points.
  destruct (py_match false (fst (nth i heading_indicators (Eps, 0%Z))) s); [|lia].
  do 5 (destruct i as [|i]; [simpl; lia|]). simpl. destruct i; simpl; lia.
Qed.

(** Checks that every set of a pattern accepts only [f], on all characters. *)
Ltac solve_accepts :=
  simpl; repeat split;
  match goal with |- forall _ : ascii, _ => let x := fresh "x" in intros x; all_chars_of x end.

(** The indicators anchored at the end do not take a text that ends in a
    full stop or an exclamation mark. *)
Lemma stop_rejected_0 (u : string) (c : ascii) :
  is_stop c = true ->
  py_match false (fst (nth 0 heading_indicators (Eps, 0%Z))) (u ++ String c EmptyString) = false.
Proof.
  intros Hc. apply (anchored_rejects (fun x => negb (is_stop x))).
  - solve_accepts.
  - reflexivity.
  - now rewrite Hc.
  - destruct (is_stop_cases c Hc) as [-> | ->]; reflexivity.
Qed.

Lemma stop_rejected_1 (u : string) (c : ascii) :
  is_stop c = true ->
  py_match false (fst (nth 1 heading_indicators (Eps, 0%Z))) (u ++ String c EmptyString) = false.
Proof.
  intros Hc. apply (anchored_rejects (fun x => negb (is_stop x))).
  - solve_accepts.
  - reflexivity.
  - now rewrite Hc.
  - destruct (is_stop_cases c Hc) as [-> | ->]; reflexivity.
Qed.

Lemma stop_rejected_4 (u : string) (c : ascii) :
  is_stop c = true ->
  py_match false (fst (nth 4 heading_indicators (Eps, 0%Z))) (u ++ String c EmptyString) = false.
Proof.
  intros Hc. apply (anchored_rejects (fun x => negb (is_stop x))).
  - solve_accepts.
  - reflexivity.
  - now rewrite Hc.
  - destruct (is_stop_cases c Hc) as [-> | ->]; reflexivity.
Qed.

(** The question indicator takes only texts that end in a question mark. *)
Lemma question_last (s : string) :
  py_match false (fst (nth 2 heading_indicators (Eps, 0%Z))) s = true ->
  last_of None s = Some "?"%char \/ last_of None s = Some "010"%char.
Proof.
  intros E. apply py_match_correct in E. destruct E as (p' & s' & Hm).
  cbv [nth heading_indicators fst seq] in Hm. inv_matches.
  match goal with
  | Hs : matches _ (Star _) _ _ _ _ |- _ =>
      apply matches_consumes in Hs; destruct Hs as (w & Hw & _)
  end.
  match goal with
  | Hq : set_match false false [CChar "?"%char] ?x = true |- _ =>
      rewrite set_match_plain in Hq; simpl in Hq; rewrite orb_false_r in Hq;
      apply Ascii.eqb_eq in Hq; subst x
  end.
  match goal with He : at_end _ = true |- _ => apply at_end_cases in He; destruct He end;
    subst; simpl; rewrite last_of_app; simpl; auto.
Qed.

Lemma stop_rejected_2 (u : string) (c : ascii) :
  is_stop c = true ->
  py_match false (fst (nth 2 heading_indicators (Eps, 0%Z))) (u ++ String c EmptyString) = false.
Proof.
  intros Hc.
  destruct (py_match false (fst (nth 2 heading_indicators (Eps, 0%Z)))
              (u ++ String c EmptyString)) eqn:E; [|reflexivity].
  apply question_last in E. rewrite last_of_snoc in E.
  destruct (is_stop_cases c Hc) as [-> | ->]; destruct E as [E|E]; discriminate.
Qed.

Lemma ends_with_char_snoc (x : ascii) (u : string) (c : ascii) :
  ends_with_char x (u ++ String c EmptyString) = Ascii.eqb x c.
Proof.
  induction u as [|d u IH]; [reflexivity|].
  change (String d u ++ String c EmptyString) with (String d (u ++ String c EmptyString)).
  destruct u as [|e u]; exact IH.
Qed.

(** The penalty for a text that reads as a sentence applies to it. *)
Lemma stop_penalty (u : string) (c : ascii) :
  is_stop c = true ->
  py_search false (Cat (CSet false [CChar "."%char; CChar "!"%char]) Eol) (u ++ String c EmptyString)
  && negb (ends_with_char "?"%char (u ++ String c EmptyString)) = true.
Proof.
  intros Hc. apply andb_true_intro. split.
  - apply py_search_correct. exists u, (String c EmptyString), (Some c), EmptyString.
    split; [reflexivity|].
    econstructor; [|now constructor].
    constructor. rewrite set_match_plain. simpl. unfold is_stop in Hc.
    now rewrite orb_false_r.
  - rewrite ends_with_char_snoc.
    destruct (is_stop_cases c Hc) as [-> | ->]; reflexivity.
Qed.

(** A trimmed text does not end in whitespace. *)
Lemma rstrip_last (s : string) (c : ascii) :
  last_of None (rstrip s) = Some c -> is_space c = false.
Proof.
  induction s as [|d s IH]; simpl; [discriminate|].
  destruct (rstrip s) as [|e r] eqn:E.
  - destruct (is_space d) eqn:Hd; simpl; [discriminate|].
    intros H. injection H as <-. exact Hd.
  - intros H. apply IH. exact H.
Qed.

Lemma last_of_some (s : string) (c : ascii) :
  last_of None s = Some c -> exists u, s = u ++ String c EmptyString.
Proof.
  assert (G : forall w p, last_of p w = Some c ->
                (w = EmptyString /\ p = Some c) \/ exists u, w = u ++ String c EmptyString).
  { induction w as [|d w IH]; intros p H; simpl in H; [now left|].
    right. destruct (IH _ H) as [[-> E] | [u ->]].
    - injection E as ->. now exists EmptyString.
    - now exists (String d u). }
  intros H. destruct (G _ _ H) as [[_ E] | E]; [discriminate | exact E].
Qed.

(** Where the pattern for a final full stop or exclamation mark is found. *)
Lemma stop_search_last (s : string) :
  py_search false (Cat (CSet false [CChar "."%char; CChar "!"%char]) Eol) s = true ->
  exists c, last_of None s = Some c /\ (is_stop c = true \/ c = "010"%char).
Proof.
  intros H. apply py_search_correct in H.
  destruct H as (u & v & p' & s' & -> & Hm). inv_matches.
  match goal with
  | He : at_end _ = true |- _ => apply at_end_cases in He; destruct He; subst
  end.
  - match goal with
    | Hq : set_match false false _ ?x = true |- _ =>
        exists x; rewrite last_of_app; split; [reflexivity|]; left;
        rewrite set_match_plain in Hq; simpl in Hq; rewrite orb_false_r in Hq; exact Hq
    end.
  - exists "010"%char. rewrite last_of_app. simpl. auto.
Qed.

Lemma upper_set (c : ascii) :
  set_match false false [CRange "A" "Z"] c = is_upper c.
Proof. rewrite set_match_plain. simpl. now rewrite orb_false_r. Qed.

Lemma space_set (c : ascii) : set_match false false [CSpace] c = is_space c.
Proof. rewrite set_match_plain. simpl. now rewrite orb_false_r. Qed.

Lemma digit_set (c : ascii) : set_match false false [CDigit] c = is_digit c.
Proof. rewrite set_match_plain. simpl. now rewrite orb_false_r. Qed.

(** Every indicator starts with an uppercase letter or a digit. *)
Lemma indicator_first (i : nat) (s : string) :
  (i < 5)%nat ->
  py_match false (fst (nth i heading_indicators (Eps, 0%Z))) s = true ->
  exists c u, s = String c u /\ (is_upper c || is_digit c) = true.
Proof.
  intros Hi E. apply py_match_correct in E. destruct E as (p' & s' & Hm).
  do 5 (destruct i as [|i];
        [cbv [nth heading_indicators fst seq plus digit rng] in Hm; inv_matches;
         match goal with
         | Hq : set_match false false [CRange "A" "Z"] ?x = true |- _ =>
             rewrite upper_set in Hq; exists x; eexists; split; [reflexivity|];
             now rewrite Hq
         | Hq : set_match false false [CDigit] ?x = true |- _ =>
             rewrite digit_set in Hq; exists x; eexists; split; [reflexivity|];
             rewrite Hq; apply orb_true_r
         end|]).
  lia.
Qed.

(** A text is heading-like when an indicator worth two points holds and
    the text does not end in a full stop or an exclamation mark. *)
Lemma heading_like_intro (t : string) (i : nat) :
  (i < 5)%nat ->
  snd (nth i heading_indicators (Eps, 0%Z)) = 2%Z ->
  py_match false (fst (nth i heading_indicators (Eps, 0%Z))) (strip t) = true ->
  (List.length (split (strip t)) <= MAX_HEADING_WORDS)%nat ->
  (forall c, last_of None (strip t) = Some c -> is_stop c = false) ->
  is_heading_like t = true.
Proof.
  intros Hi Hp Hm Hw Hlast. unfold is_heading_like.
  destruct (indicator_first i (strip t) Hi Hm) as (c & u & Es & Hc).
  assert (Hlow : first_islower (strip t) = false).
  { rewrite Es. simpl. apply orb_prop in Hc. destruct Hc as [Hc|Hc].
    - now apply upper_not_lower.
    - now apply digit_not_lower. }
  assert (Hpen : py_search false (Cat (CSet false [CChar "."%char; CChar "!"%char]) Eol)
                   (strip t) = false).
  { destruct (py_search false (Cat (CSet false [CChar "."%char; CChar "!"%char]) Eol)
                (strip t)) eqn:E; [|reflexivity].
    apply stop_search_last in E. destruct E as (d & Hd & [Hs | ->]).
    - rewrite (Hlast d Hd) in Hs. discriminate.
    - apply rstrip_last in Hd. discriminate. }
  rewrite Hpen, Hlow, andb_false_r. cbn [andb].
  replace (MAX_HEADING_WORDS <? List.length (split (strip t)))%nat with false
    by (symmetry; apply Nat.ltb_ge; exact Hw).
  rewrite Es at 1. cbn [is_empty orb].
  rewrite heading_points_sum. apply Z.leb_le.
  pose proof (indicator_points_bounds (strip t) 0).
  pose proof (indicator_points_bounds (strip t) 1).
  pose proof (indicator_points_bounds (strip t) 2).
  pose proof (indicator_points_bounds (strip t) 3).
  pose proof (indicator_points_bounds (strip t) 4).
  assert (E : indicator_points (strip t) (nth i heading_indicators (Eps, 0%Z)) = 2%Z)
    by (unfold indicator_points; now rewrite Hm).
  do 5 (destruct i as [|i]; [lia|]). lia.
Qed.

(** The title-case indicator. *)
Lemma capitalised_intro (w s' : string) (p : option ascii) :
  capitalised w ->
  matches false (Cat (rng "A" "Z") (Star (rng "a" "z"))) p (w ++ s') (last_of p w) s'.
Proof.
  intros (c & w' & -> & Hc & Hw). simpl. unfold rng.
  econstructor.
  - constructor. now rewrite upper_set.
  - apply star_set_intro. rewrite (all_chars_ext _ is_lower); [exact Hw | apply lower_set].
Qed.

Lemma more_words_intro (l : list (string * string)) (s' : string) :
  Forall (fun gw => blank (fst gw) /\ capitalised (snd gw)) l ->
  forall p, matches false (Star (seq [plus space; rng "A" "Z"; Star (rng "a" "z")])) p
              (more_words l ++ s') (last_of p (more_words l)) s'.
Proof.
  induction 1 as [|[g w] l [Hg Hw] Hl IH]; intros p; simpl.
  - constructor.
  - simpl in Hg, Hw. rewrite !append_assoc, !last_of_app.
    apply M_star_cons with (p1 := last_of (last_of p g) w) (s1 := more_words l ++ s').
    + cbn [seq]. econstructor.
      * destruct Hg as [Hne Hs]. apply plus_set_intro; [exact Hne|].
        rewrite (all_chars_ext _ is_space); [exact Hs | apply space_set].
      * apply capitalised_intro. exact Hw.
    + rewrite !length_append. destruct Hg as [Hne _].
      destruct g; [congruence | simpl; lia].
    + apply IH.
Qed.

Lemma title_case_matches (s : string) :
  title_case s ->
  py_match false (fst (nth 0 heading_indicators (Eps, 0%Z))) s = true.
Proof.
  intros (w & l & -> & Hw & Hl). apply py_match_correct.
  exists (last_of (last_of None w) (more_words l)), EmptyString.
  cbv [nth heading_indicators fst]. cbn [seq].
  econstructor; [constructor|].
  econstructor; [apply capitalised_intro; exact Hw|].
  econstructor; [|constructor; reflexivity].
  rewrite <- (append_nil_r (more_words l)) at 1. apply more_words_intro. exact Hl.
Qed.

(** The question indicator. *)
Lemma question_matches (s : string) :
  question s ->
  py_match false (fst (nth 2 heading_indicators (Eps, 0%Z))) s = true.
Proof.
  intros (c & u & -> & Hc & Hu). apply py_match_correct.
  exists (Some "?"%char), EmptyString.
  cbv [nth heading_indicators fst seq chr rng].
  econstructor; [constructor|].
  econstructor; [constructor; now rewrite upper_set|].
  econstructor; [apply star_set_intro|].
  - rewrite (all_chars_ext _ (fun x => negb (Ascii.eqb x "?"%char || Ascii.eqb x "."%char)));
      [exact Hu|].
    intros x. rewrite set_match_plain. simpl. now rewrite orb_false_r.
  - econstructor; [|constructor; reflexivity].
    constructor. reflexivity.
Qed.

(** The numbered indicator. *)
Lemma numbered_matches (s : string) :
  numbered s ->
  py_match false (fst (nth 3 heading_indicators (Eps, 0%Z))) s = true.
Proof.
  intros (ds & g & c & u & -> & Hne & Hd & [Hg Hs] & Hc). apply py_match_correct.
  exists (Some c), u.
  cbv [nth heading_indicators fst seq chr rng digit space].
  econstructor; [constructor|].
  econstructor.
  { apply plus_set_intro; [exact Hne|].
    rewrite (all_chars_ext _ is_digit); [exact Hd | apply digit_set]. }
  econstructor; [constructor; reflexivity|].
  econstructor.
  { apply plus_set_intro; [exact Hg|].
    rewrite (all_chars_ext _ is_space); [exact Hs | apply space_set]. }
  constructor. now rewrite upper_set.
Qed.

End HeadingFacts.

Module HeadingTheorems.

Import Text Re ReSpec TextFacts ReFacts Classify Spec SignalFacts BlocklistFacts HeadingFacts.
Local Open Scope char_scope.
Local Open Scope string_scope.

(** X14.  A text that ends, once trimmed, in a full stop or an exclamation
    mark is never heading-like: of the five indicators only the numbered
    one can hold, and its two points are taken back by the penalty. *)
Theorem sentence_not_heading_like (t : string) (c : ascii) :
  is_stop c = true -> ends_with (strip t) c -> is_heading_like t = false.
Proof.
  intros Hc [u Hu]. unfold is_heading_like. rewrite Hu.
  destruct (is_empty (u ++ String c EmptyString)
            || (MAX_HEADING_WORDS <? List.length (split (u ++ String c EmptyString)))%nat);
    [reflexivity|].
  rewrite heading_points_sum, stop_penalty by exact Hc.
  assert (E0 : indicator_points (u ++ String c EmptyString)
                 (nth 0 heading_indicators (Eps, 0%Z)) = 0%Z)
    by (unfold indicator_points; now rewrite stop_rejected_0).
  assert (E1 : indicator_points (u ++ String c EmptyString)
                 (nth 1 heading_indicators (Eps, 0%Z)) = 0%Z)
    by (unfold indicator_points; now rewrite stop_rejected_1).
  assert (E2 : indicator_points (u ++ String c EmptyString)
                 (nth 2 heading_indicators (Eps, 0%Z)) = 0%Z)
    by (unfold indicator_points; now rewrite stop_rejected_2).
  assert (E4 : indicator_points (u ++ String c EmptyString)
                 (nth 4 heading_indicators (Eps, 0%Z)) = 0%Z)
    by (unfold indicator_points; now rewrite stop_rejected_4).
  rewrite E0, E1, E2, E4.
  pose proof (indicator_points_bounds (u ++ String c EmptyString) 3) as Hb.
  destruct (negb (is_empty (u ++ String c EmptyString)) && first_islower (u ++ String c EmptyString)
            && (3 <? List.length (split (u ++ String c EmptyString)))%nat);
    apply Z.leb_gt; lia.
Qed.

Lemma sentence_not_heading_like_witness :
  is_heading_like "1. Results were mixed." = false.
Proof.
  apply (sentence_not_heading_like "1. Results were mixed." "."%char).
  - reflexivity.
  - exists "1. Results were mixed". reflexivity.
Defined.

(** X15.  A heading-like text starts, once trimmed, with an uppercase
    letter or a digit: every indicator asks for one of the two. *)
Theorem heading_like_first_char (t : string) :
  is_heading_like t = true ->
  exists c u, strip t = String c u /\ (is_upper c || is_digit c) = true.
Proof.
  unfold is_heading_like. intros H.
  destruct (is_empty (strip t) || (MAX_HEADING_WORDS <? List.length (split (strip t)))%nat);
    [discriminate|].
  rewrite heading_points_sum in H.
  assert (Hs : (0 < indicator_points (strip t) (nth 0 heading_indicators (Eps, 0%Z))
                  + indicator_points (strip t) (nth 1 heading_indicators (Eps, 0%Z))
                  + indicator_points (strip t) (nth 2 heading_indicators (Eps, 0%Z))
                  + indicator_points (strip t) (nth 3 heading_indicators (Eps, 0%Z))
                  + indicator_points (strip t) (nth 4 heading_indicators (Eps, 0%Z)))%Z).
  { destruct (py_search false (Cat (CSet false [CChar "."%char; CChar "!"%char]) Eol) (strip t)
              && negb (ends_with_char "?"%char (strip t)));
      destruct (negb (is_empty (strip t)) && first_islower (strip t)
                && (3 <? List.length (split (strip t)))%nat);
      apply Z.leb_le in H; lia. }
  assert (Hi : exists i, (i < 5)%nat
                 /\ py_match false (fst (nth i heading_indicators (Eps, 0%Z))) (strip t) = true).
  { unfold indicator_points in Hs.
    destruct (py_match false (fst (nth 0 heading_indicators (Eps, 0%Z))) (strip t)) eqn:E0;
      [exists 0%nat; split; [lia | exact E0]|].
    destruct (py_match false (fst (nth 1 heading_indicators (Eps, 0%Z))) (strip t)) eqn:E1;
      [exists 1%nat; split; [lia | exact E1]|].
    destruct (py_match false (fst (nth 2 heading_indicators (Eps, 0%Z))) (strip t)) eqn:E2;
      [exists 2%nat; split; [lia | exact E2]|].
    destruct (py_match false (fst (nth 3 heading_indicators (Eps, 0%Z))) (strip t)) eqn:E3;
      [exists 3%nat; split; [lia | exact E3]|].
    destruct (py_match false (fst (nth 4 heading_indicators (Eps, 0%Z))) (strip t)) eqn:E4;
      [exists 4%nat; split; [lia | exact E4]|].
    lia. }
  destruct Hi as (i & Hi & Hm). exact (indicator_first i (strip t) Hi Hm).
Qed.

Lemma heading_like_first_char_witness :
  exists c u, strip "  2. Scope of Work " = String c u /\ (is_upper c || is_digit c) = true.
Proof.
  apply (heading_like_first_char "  2. Scope of Work "). reflexivity.
Defined.

(** X16.  A text of at most fifteen capitalised words (an uppercase letter
    followed by lowercase letters), separated by whitespace, is
    heading-like. *)
Theorem title_case_heading_like (t : string) :
  title_case (strip t) -> (word_count t <= MAX_HEADING_WORDS)%nat ->
  is_heading_like t = true.
Proof.
  intros Ht Hw. pose proof (title_case_matches _ Ht) as Hm.
  apply (heading_like_intro t 0); [simpl; lia | reflexivity | exact Hm | exact Hw |].
  intros c Hc. destruct (is_stop c) eqn:Hs; [|reflexivity].
  apply last_of_some in Hc. destruct Hc as [u Hu].
  rewrite Hu, (stop_rejected_0 u c Hs) in Hm. discriminate.
Qed.

Lemma title_case_heading_like_witness : is_heading_like " Related Work" = true.
Proof.
  apply (title_case_heading_like " Related Work").
  - exists "Related", [(" ", "Work")]. split; [reflexivity|]. split.
    + exists "R"%char, "elated". repeat split; reflexivity.
    + constructor; [|constructor]. split.
      * split; [discriminate | reflexivity].
      * exists "W"%char, "ork". repeat split; reflexivity.
  - vm_compute. lia.
Defined.

(** X17.  A numbered text (digits, a full stop, whitespace, an uppercase
    letter) of at most fifteen words that does not end in a full stop or
    an exclamation mark is heading-like. *)
Theorem numbered_heading_like (t : string) :
  numbered (strip t) -> (word_count t <= MAX_HEADING_WORDS)%nat ->
  (forall c, ends_with (strip t) c -> is_stop c = false) ->
  is_heading_like t = true.
Proof.
  intros Hn Hw Hlast.
  apply (heading_like_intro t 3);
    [simpl; lia | reflexivity | apply numbered_matches; exact Hn | exact Hw |].
  intros c Hc. apply Hlast. apply last_of_some. exact Hc.
Qed.

Lemma numbered_heading_like_witness : is_heading_like "12. Method" = true.
Proof.
  apply (numbered_heading_like "12. Method").
  - exists "12", " ", "M"%char, "ethod". repeat split; try reflexivity; discriminate.
  - vm_compute. lia.
  - intros c [u Hu]. change (strip "12. Method") with ("12. Metho" ++ String "d"%char EmptyString) in Hu.
    assert (E : last_of None ("12. Metho" ++ String "d"%char EmptyString)
                = last_of None (u ++ String c EmptyString)) by now rewrite Hu.
    rewrite !last_of_snoc in E. injection E as <-. reflexivity.
Defined.

(** X18.  A question (an uppercase letter, then neither a question mark
    nor a full stop until the final question mark) of at most fifteen
    words is heading-like. *)
Theorem question_heading_like (t : string) :
  question (strip t) -> (word_count t <= MAX_HEADING_WORDS)%nat ->
  is_heading_like t = true.
Proof.
  intros Hq Hw.
  apply (heading_like_intro t 2);
    [simpl; lia | reflexivity | apply question_matches; exact Hq | exact Hw |].
  destruct Hq as (c & u & E & _ & _). intros d Hd. rewrite E in Hd.
  change (String c (u ++ String "?"%char EmptyString))
    with (String c u ++ String "?"%char EmptyString) in Hd.
  rewrite last_of_snoc in Hd. injection Hd as <-. reflexivity.
Qed.

Lemma question_heading_like_witness : is_heading_like "What is new?" = true.
Proof.
  apply (question_heading_like "What is new?").
  - exists "W"%char, "hat is new". repeat split; reflexivity.
  - vm_compute. lia.
Defined.

End HeadingTheorems.

(** ** The blocklist and letter case *)

Module CaseFacts.

Import Text Re ReSpec TextFacts ReFacts Classify Spec SignalFacts BlocklistFacts.
Local Open Scope char_scope.
Local Open Scope string_scope.

Ltac each_char c := destruct c as [[] [] [] [] [] [] [] []]; vm_compute; try reflexivity; auto.

(** Facts about the two case variants of a character. *)
Lemma upper_of_lower (c : ascii) : to_upper (to_lower c) = to_upper c.
Proof. each_char c. Qed.

Lemma lower_or_upper (c : ascii) : c = to_lower c \/ c = to_upper c.
Proof. each_char c. Qed.

Lemma word_of_lower (c : ascii) : is_word (to_lower c) = is_word c.
Proof. each_char c. Qed.

Lemma word_of_upper (c : ascii) : is_word (to_upper c) = is_word c.
Proof. each_char c. Qed.

Lemma space_of_lower (c : ascii) : is_space (to_lower c) = is_space c.
Proof. each_char c. Qed.

Lemma newline_of_lower (c : ascii) : Ascii.eqb (to_lower c) "010" = Ascii.eqb c "010".
Proof. each_char c. Qed.

Lemma same_letter_lower (a b : ascii) : same_letter a b = true -> to_lower a = to_lower b.
Proof. unfold same_letter. apply Ascii.eqb_eq. Qed.

Lemma same_letter_upper (a b : ascii) : same_letter a b = true -> to_upper a = to_upper b.
Proof.
  intros H. apply same_letter_lower in H.
  now rewrite <- (upper_of_lower a), H, upper_of_lower.
Qed.

Lemma same_letter_word (a b : ascii) : same_letter a b = true -> is_word a = is_word b.
Proof.
  intros H. apply same_letter_lower in H.
  now rewrite <- (word_of_lower a), H, word_of_lower.
Qed.

Lemma same_letter_space (a b : ascii) : same_letter a b = true -> is_space a = is_space b.
Proof.
  intros H. apply same_letter_lower in H.
  now rewrite <- (space_of_lower a), H, space_of_lower.
Qed.

Lemma same_letter_newline (a b : ascii) :
  same_letter a b = true -> Ascii.eqb a "010" = Ascii.eqb b "010".
Proof.
  intros H. apply same_letter_lower in H.
  now rewrite <- (newline_of_lower a), H, newline_of_lower.
Qed.

Lemma same_letter_refl (a : ascii) : same_letter a a = true.
Proof. apply Ascii.eqb_refl. Qed.

Lemma same_letter_sym (a b : ascii) : same_letter a b = same_letter b a.
Proof. apply Ascii.eqb_sym. Qed.

Lemma existsb_pointwise {A : Type} (f g : A -> bool) (l : list A) :
  (forall x, f x = g x) -> existsb f l = existsb g l.
Proof.
  intros H. induction l as [|x l IH]; simpl; [reflexivity | now rewrite H, IH].
Qed.

(** With [re.IGNORECASE] a set tells only the two case variants of a
    character. *)
Lemma set_match_variants (neg : bool) (items : list citem) (c : ascii) :
  set_match true neg items c
  = xorb neg (existsb (fun it => item_match it (to_lower c) || item_match it (to_upper c))
                items).
Proof.
  unfold set_match. f_equal. apply existsb_pointwise. intros it. cbn [andb].
  destruct (lower_or_upper c) as [E|E]; rewrite E at 1;
    destruct (item_match it (to_lower c)), (item_match it (to_upper c)); reflexivity.
Qed.

Lemma set_match_same (neg : bool) (items : list citem) (a b : ascii) :
  same_letter a b = true ->
  set_match true neg items a = set_match true neg items b.
Proof.
  intros H. rewrite !set_match_variants.
  now rewrite (same_letter_lower a b H), (same_letter_upper a b H).
Qed.

(** Texts that are the same up to case. *)
Lemma same_letters_refl (s : string) : same_letters s s = true.
Proof. induction s as [|c s IH]; simpl; [reflexivity|]. now rewrite same_letter_refl. Qed.

Lemma same_letters_sym (s t : string) : same_letters s t = same_letters t s.
Proof.
  revert t. induction s as [|a s IH]; intros [|b t]; simpl; try reflexivity.
  now rewrite same_letter_sym, IH.
Qed.

Lemma same_letters_length (s t : string) :
  same_letters s t = true -> String.length s = String.length t.
Proof.
  revert t. induction s as [|a s IH]; intros [|b t]; simpl; try discriminate; [reflexivity|].
  intros H. apply andb_prop in H. destruct H as [_ H]. now rewrite (IH t H).
Qed.

Lemma same_letters_cons (c : ascii) (s t : string) :
  same_letters (String c s) t = true ->
  exists d t', t = String d t' /\ same_letter c d = true /\ same_letters s t' = true.
Proof.
  destruct t as [|d t']; simpl; [discriminate|]. intros H.
  apply andb_prop in H. destruct H as [H1 H2]. now exists d, t'.
Qed.

Lemma same_letters_app (u v t : string) :
  same_letters (u ++ v) t = true ->
  exists u' v', t = u' ++ v' /\ same_letters u u' = true /\ same_letters v v' = true.
Proof.
  revert t. induction u as [|c u IH]; intros t H.
  - exists EmptyString, t. auto.
  - apply same_letters_cons in H. destruct H as (d & t' & -> & Hc & H).
    destruct (IH _ H) as (u' & v' & -> & Hu & Hv).
    exists (String d u'), v'. simpl. now rewrite Hc, Hu.
Qed.

Lemma same_letters_app_intro (u u' v v' : string) :
  same_letters u u' = true -> same_letters v v' = true ->
  same_letters (u ++ v) (u' ++ v') = true.
Proof.
  revert u'. induction u as [|c u IH]; intros [|d u']; simpl; try discriminate; auto.
  intros H Hv. apply andb_prop in H. destruct H as [Hc Hu].
  now rewrite Hc, (IH u' Hu Hv).
Qed.

Lemma same_head_word (s t : string) :
  same_letters s t = true -> head_word s = head_word t.
Proof.
  destruct s as [|a s], t as [|b t]; simpl; try discriminate; [reflexivity|].
  intros H. apply andb_prop in H. destruct H as [H _]. now apply same_letter_word.
Qed.

Lemma same_opt_word (p q : option ascii) : same_opt p q -> opt_word p = opt_word q.
Proof.
  destruct p as [a|], q as [b|]; simpl; try tauto. apply same_letter_word.
Qed.

Lemma same_at_end (s t : string) : same_letters s t = true -> at_end s = at_end t.
Proof.
  destruct s as [|a [|a' s]], t as [|b [|b' t]]; simpl; try discriminate; try reflexivity.
  - rewrite andb_true_r. apply same_letter_newline.
  - rewrite andb_false_r. discriminate.
  - rewrite andb_false_r. discriminate.
Qed.

Lemma same_is_empty (s t : string) : same_letters s t = true -> is_empty s = is_empty t.
Proof. destruct s, t; simpl; try discriminate; reflexivity. Qed.

(** Trimming keeps texts the same up to case. *)
Lemma same_lstrip (s t : string) :
  same_letters s t = true -> same_letters (lstrip s) (lstrip t) = true.
Proof.
  revert t. induction s as [|a s IH]; intros [|b t]; simpl; try discriminate; auto.
  intros H. pose proof H as H0. apply andb_prop in H. destruct H as [Hc Hs].
  rewrite <- (same_letter_space a b Hc).
  destruct (is_space a); [now apply IH | simpl; exact H0].
Qed.

Lemma same_rstrip (s t : string) :
  same_letters s t = true -> same_letters (rstrip s) (rstrip t) = true.
Proof.
  revert t. induction s as [|a s IH]; intros [|b t]; simpl; try discriminate; auto.
  intros H. apply andb_prop in H. destruct H as [Hc Hs].
  specialize (IH t Hs). rewrite <- (same_letter_space a b Hc).
  destruct (rstrip s) as [|x r], (rstrip t) as [|y r']; simpl in IH; try discriminate.
  - destruct (is_space a); simpl; [reflexivity | now rewrite Hc].
  - simpl. now rewrite Hc, IH.
Qed.

Lemma same_strip (s t : string) :
  same_letters s t = true -> same_letters (strip s) (strip t) = true.
Proof. intros H. unfold strip. now apply same_rstrip, same_lstrip. Qed.

(** A match on a text is a match on every case variant of it. *)
Lemma matches_same (r : re) (p p' : option ascii) (s s' : string) :
  matches true r p s p' s' ->
  forall q t, same_opt p q -> same_letters s t = true ->
  exists q' t', matches true r q t q' t' /\ same_opt p' q' /\ same_letters s' t' = true.
Proof.
  induction 1; intros q t Hq Ht.
  - exists q, t. repeat split; [constructor | exact Hq | exact Ht].
  - destruct q; [contradiction|]. exists None, t. repeat split; [constructor | exact Ht].
  - exists q, t. repeat split; [|exact Hq | exact Ht].
    constructor. now rewrite <- (same_at_end s t Ht).
  - exists q, t. repeat split; [|exact Hq | exact Ht].
    constructor. now rewrite <- (same_opt_word p q Hq), <- (same_head_word s t Ht).
  - apply same_letters_cons in Ht. destruct Ht as (d & t' & -> & Hc & Ht).
    exists (Some d), t'. repeat split; [|exact Hc | exact Ht].
    constructor. now rewrite <- (same_letter_newline c d Hc).
  - apply same_letters_cons in Ht. destruct Ht as (d & t' & -> & Hc & Ht).
    exists (Some d), t'. repeat split; [|exact Hc | exact Ht].
    constructor. now rewrite <- (set_match_same neg items c d Hc).
  - destruct (IHmatches1 q t Hq Ht) as (q1 & t1 & M1 & Hq1 & Ht1).
    destruct (IHmatches2 q1 t1 Hq1 Ht1) as (q2 & t2 & M2 & Hq2 & Ht2).
    exists q2, t2. repeat split; [econstructor; eassumption | exact Hq2 | exact Ht2].
  - destruct (IHmatches q t Hq Ht) as (q1 & t1 & M1 & Hq1 & Ht1).
    exists q1, t1. repeat split; [now apply M_alt_l | exact Hq1 | exact Ht1].
  - destruct (IHmatches q t Hq Ht) as (q1 & t1 & M1 & Hq1 & Ht1).
    exists q1, t1. repeat split; [now apply M_alt_r | exact Hq1 | exact Ht1].
  - exists q, t. repeat split; [constructor | exact Hq | exact Ht].
  - destruct (IHmatches1 q t Hq Ht) as (q1 & t1 & M1 & Hq1 & Ht1).
    destruct (IHmatches2 q1 t1 Hq1 Ht1) as (q2 & t2 & M2 & Hq2 & Ht2).
    exists q2, t2. repeat split; [|exact Hq2 | exact Ht2].
    apply M_star_cons with (p1 := q1) (s1 := t1); [exact M1 | | exact M2].
    rewrite <- (same_letters_length s t Ht), <- (same_letters_length s1 t1 Ht1).
    assumption.
Qed.

Lemma py_match_same (r : re) (s t : string) :
  same_letters s t = true -> py_match true r s = py_match true r t.
Proof.
  intros H. apply eq_true_iff_eq. rewrite !py_match_correct. split.
  - intros (p' & s' & Hm).
    destruct (matches_same _ _ _ _ _ Hm None t I H) as (q' & t' & M & _). eauto.
  - intros (p' & s' & Hm). rewrite same_letters_sym in H.
    destruct (matches_same _ _ _ _ _ Hm None s I H) as (q' & t' & M & _). eauto.
Qed.

(** A literal word matches its case variants. *)
Lemma chr_same (c a : ascii) :
  same_letter a c = true -> set_match true false [CChar c] a = true.
Proof.
  intros H. rewrite set_match_variants. cbn [existsb item_match xorb].
  rewrite orb_false_r.
  rewrite (same_letter_lower a c H), (same_letter_upper a c H).
  destruct (lower_or_upper c) as [E|E]; rewrite <- E, Ascii.eqb_refl;
    [reflexivity | apply orb_true_r].
Qed.

Lemma lit_same (w : string) :
  forall u rest p, same_letters u w = true ->
    matches true (lit w) p (u ++ rest) (last_of p u) rest.
Proof.
  induction w as [|c w IH]; intros [|a u] rest p H; simpl in H; try discriminate.
  - constructor.
  - apply andb_prop in H. destruct H as [Hc Hu].
    destruct w as [|c' w].
    + destruct u; [|discriminate]. simpl. constructor. now apply chr_same.
    + change (lit (String c (String c' w))) with (Cat (chr c) (lit (String c' w))).
      simpl. econstructor; [constructor; now apply chr_same|].
      apply IH. exact Hu.
Qed.

Lemma alts_intro (r : re) (l : list re) (p p' : option ascii) (s s' : string) :
  In r l -> matches true r p s p' s' -> matches true (alts l) p s p' s'.
Proof.
  intros Hin Hm. induction l as [|x l IH]; [contradiction|].
  destruct l as [|y l].
  - destruct Hin as [->|[]]. exact Hm.
  - change (alts (x :: y :: l)) with (Alt x (alts (y :: l))).
    destruct Hin as [->|Hin]; [now apply M_alt_l | apply M_alt_r; now apply IH].
Qed.

(** The last character of a case variant of a word of letters is a word
    character. *)
Lemma same_last_word (w u : string) (p : option ascii) :
  w <> EmptyString -> all_chars is_word w = true -> same_letters u w = true ->
  opt_word (last_of p u) = true.
Proof.
  revert u p. induction w as [|c w IH]; intros [|a u] p Hne Hw H; simpl in H;
    try discriminate; [congruence|].
  apply andb_prop in H. destruct H as [Hc Hu]. simpl in Hw.
  apply andb_prop in Hw. destruct Hw as [Hwc Hw]. simpl.
  destruct w as [|c' w].
  - destruct u; [|discriminate]. simpl. now rewrite (same_letter_word a c Hc).
  - apply IH; [discriminate | exact Hw | exact Hu].
Qed.

Lemma same_head (w u rest : string) :
  w <> EmptyString -> all_chars is_word w = true -> same_letters u w = true ->
  head_word (u ++ rest) = true.
Proof.
  destruct w as [|c w], u as [|a u]; simpl; try congruence; try discriminate.
  intros _ Hw H. apply andb_prop in H. destruct H as [Hc _].
  apply andb_prop in Hw. destruct Hw as [Hw _].
  now rewrite (same_letter_word a c Hc).
Qed.

(** The longest run of word characters at the start of a text. *)
Lemma word_run (s : string) :
  exists a b, s = a ++ b /\ all_chars is_word a = true /\ head_word b = false.
Proof.
  induction s as [|c s (a & b & -> & Ha & Hb)].
  - exists EmptyString, EmptyString. auto.
  - destruct (is_word c) eqn:Hc.
    + exists (String c a), b. simpl. now rewrite Hc, Ha.
    + exists EmptyString, (String c (a ++ b)). simpl. auto.
Qed.

Lemma word_set_ci (c : ascii) : set_match true false [CWord] c = is_word c.
Proof.
  rewrite set_match_variants. cbn [existsb item_match xorb].
  rewrite word_of_lower, word_of_upper. now destruct (is_word c).
Qed.

End CaseFacts.

Module BlocklistTheorems.

Import Text Re ReSpec TextFacts ReFacts Classify Spec SignalFacts BlocklistFacts CaseFacts.
Local Open Scope char_scope.
Local Open Scope string_scope.

(** X19.  Whether a text is blocked does not depend on the case of its
    letters: two texts that are the same up to case are both blocked or
    both kept. *)
Theorem is_blocked_ignores_case (s t : string) :
  same_letters s t = true -> is_blocked s = is_blocked t.
Proof.
  intros H. unfold is_blocked. apply same_strip in H.
  rewrite (same_is_empty _ _ H). f_equal.
  apply existsb_pointwise. intros r. now apply py_match_same.
Qed.

Lemma is_blocked_ignores_case_witness :
  is_blocked "TABLE OF CONTENTS" = is_blocked "Table of Contents".
Proof.
  apply (is_blocked_ignores_case "TABLE OF CONTENTS" "Table of Contents").
  reflexivity.
Defined.

(** X20.  A text that starts, once trimmed, with the word Chapter,
    Section, Fig, Figure or Table, in any letter case, is blocked, whatever
    follows the word. *)
Theorem leading_word_blocked (t w : string) :
  In w leading_words -> starts_with_word_ci (strip t) w -> is_blocked t = true.
Proof.
  intros Hin (u & rest & Hs & Hu & Hrest).
  assert (Hw : w <> EmptyString /\ all_chars is_word w = true).
  { unfold leading_words in Hin. simpl in Hin.
    repeat (destruct Hin as [<-|Hin]; [split; [discriminate | reflexivity]|]).
    contradiction. }
  destruct Hw as [Hne Hw].
  apply (blocked_by 10); [simpl; lia|].
  exists (last_of None u), rest. rewrite Hs.
  cbv [nth BLOCKLIST_REGEX]. cbn [seq].
  econstructor; [constructor|].
  econstructor.
  - apply (alts_intro (lit w) (map lit leading_words)).
    + now apply in_map.
    + now apply lit_same.
  - constructor. rewrite (same_last_word w u None Hne Hw Hu), Hrest. reflexivity.
Qed.

Lemma leading_word_blocked_witness : is_blocked "Section 2: Methods" = true.
Proof.
  apply (leading_word_blocked "Section 2: Methods" "Section").
  - simpl. tauto.
  - exists "Section", " 2: Methods". repeat split; reflexivity.
Defined.

(** X21.  A text that starts, once trimmed, with Mon, Tue, Wed, Thu, Fri,
    Sat or Sun, in any letter case, is blocked, whatever follows these
    three letters. *)
Theorem day_prefix_blocked (t w : string) :
  In w day_names -> starts_with_ci (strip t) w -> is_blocked t = true.
Proof.
  intros Hin (u & rest & Hs & Hu).
  assert (Hw : w <> EmptyString /\ all_chars is_word w = true).
  { unfold day_names in Hin. simpl in Hin.
    repeat (destruct Hin as [<-|Hin]; [split; [discriminate | reflexivity]|]).
    contradiction. }
  destruct Hw as [Hne Hw].
  destruct (word_run rest) as (a & b & -> & Ha & Hb).
  apply (blocked_by 12); [simpl; lia|].
  exists (last_of (last_of None u) a), b. rewrite Hs.
  cbv [nth BLOCKLIST_REGEX]. cbn [seq]. unfold word.
  econstructor.
  { constructor. simpl. now rewrite (same_head w u (a ++ b) Hne Hw Hu). }
  econstructor.
  { apply (alts_intro (lit w) (map lit day_names)).
    - now apply in_map.
    - now apply lit_same. }
  econstructor.
  { apply star_set_intro. rewrite (all_chars_ext _ is_word); [exact Ha | apply word_set_ci]. }
  constructor. rewrite Hb, xorb_false_r.
  assert (G : forall x p, all_chars is_word x = true -> opt_word p = true ->
                opt_word (last_of p x) = true).
  { induction x as [|c x IH]; intros p Hx Hp; simpl in *; [exact Hp|].
    apply andb_prop in Hx. destruct Hx as [Hc Hx]. now apply IH. }
  apply G; [exact Ha|]. exact (same_last_word w u None Hne Hw Hu).
Qed.

Lemma day_prefix_blocked_witness : is_blocked "Monitoring and Evaluation" = true.
Proof.
  apply (day_prefix_blocked "Monitoring and Evaluation" "Mon").
  - simpl. tauto.
  - exists "Mon", "itoring and Evaluation". split; reflexivity.
Defined.

End BlocklistTheorems.

(** ** The names of the batch run *)

Module BatchFacts.

Import Text Batch ReSpec TextFacts SignalFacts.
Local Open Scope char_scope.
Local Open Scope string_scope.

Lemma endswith_elim (s suffix : string) :
  endswith s suffix = true -> exists u, s = u ++ suffix.
Proof.
  induction s as [|c s IH]; cbn [endswith].
  - destruct (String.eqb EmptyString suffix) eqn:E; [|discriminate].
    apply String.eqb_eq in E. subst. now exists EmptyString.
  - destruct (String.eqb (String c s) suffix) eqn:E.
    + apply String.eqb_eq in E. subst. now exists EmptyString.
    + intros H. destruct (IH H) as [u ->]. now exists (String c u).
Qed.

Lemma lower_app_elim (s u' v' : string) :
  lower s = u' ++ v' -> exists u v, s = u ++ v /\ lower u = u' /\ lower v = v'.
Proof.
  revert s. induction u' as [|c u' IH]; intros s H.
  - exists EmptyString, s. auto.
  - destruct s as [|a s]; [discriminate|]. simpl in H. injection H as Hc H.
    destruct (IH s H) as (u & v & -> & Hu & Hv).
    exists (String a u), v. simpl. now rewrite Hc, Hu.
Qed.

Lemma lower_dot (c : ascii) : to_lower c = "."%char -> c = "."%char.
Proof. destruct c as [[] [] [] [] [] [] [] []]; vm_compute; congruence. Qed.

(** The extension of an accepted name holds no dot. *)
Lemma pdf_no_dot (ext : string) : lower ext = "pdf" -> before_last "."%char ext = None.
Proof.
  destruct ext as [|a [|b [|c [|d ext]]]]; try discriminate.
  simpl. intros H. injection H as Ha Hb Hc.
  destruct (Ascii.eqb c "."%char) eqn:Ec;
    [apply Ascii.eqb_eq in Ec; subst c; discriminate|].
  destruct (Ascii.eqb b "."%char) eqn:Eb;
    [apply Ascii.eqb_eq in Eb; subst b; discriminate|].
  destruct (Ascii.eqb a "."%char) eqn:Ea;
    [apply Ascii.eqb_eq in Ea; subst a; discriminate|].
  reflexivity.
Qed.

Lemma before_last_app (stem ext : string) :
  before_last "."%char ext = None ->
  before_last "."%char (stem ++ String "."%char ext) = Some stem.
Proof.
  intros H. induction stem as [|a stem IH]; simpl.
  - now rewrite H.
  - now rewrite IH.
Qed.

(** What an accepted name is. *)
Lemma is_pdf_parts (file : string) :
  is_pdf file = true ->
  exists stem ext, file = stem ++ String "."%char ext /\ lower ext = "pdf".
Proof.
  intros H. apply endswith_elim in H. destruct H as [u' H].
  apply lower_app_elim in H. destruct H as (stem & v & -> & _ & Hv).
  destruct v as [|d ext]; [discriminate|]. simpl in Hv. injection Hv as Hd He.
  apply lower_dot in Hd. subst d. now exists stem, ext.
Qed.

Lemma output_path_parts (stem ext : string) :
  relative (stem ++ String "."%char ext) -> lower ext = "pdf" ->
  output_path (stem ++ String "."%char ext) = "/app/output/" ++ stem ++ ".json".
Proof.
  intros Hrel He. unfold output_path, rsplit_head.
  rewrite (before_last_app stem ext (pdf_no_dot ext He)).
  unfold path_join. destruct stem as [|a stem]; [reflexivity|].
  destruct (Ascii.eqb a "/"%char) eqn:Ea.
  - apply Ascii.eqb_eq in Ea. subst a. exfalso. exact (Hrel _ eq_refl).
  - cbn [append].
    destruct a as [[] [] [] [] [] [] [] []]; try reflexivity. discriminate.
Qed.

Lemma app_inv_tail_str (a b c : string) : a ++ c = b ++ c -> a = b.
Proof.
  revert b. induction a as [|x a IH]; intros [|y b] H; simpl in H.
  - reflexivity.
  - exfalso. apply (f_equal String.length) in H. simpl in H.
    rewrite length_append in H. lia.
  - exfalso. apply (f_equal String.length) in H. simpl in H.
    rewrite length_append in H. lia.
  - injection H as -> H. now rewrite (IH b H).
Qed.

End BatchFacts.

Module BatchTheorems.

Import Text Batch ReSpec TextFacts SignalFacts BatchFacts.
Local Open Scope char_scope.
Local Open Scope string_scope.

(** X22.  A name of the listing is processed only if it is a stem, a dot
    and the letters pdf in any case; its outline is then written to the
    stem with the extension json in the output directory, and read from
    the name itself in the input directory. *)
Theorem output_path_of_pdf (file : string) :
  is_pdf file = true -> relative file ->
  exists stem ext,
    file = stem ++ String "."%char ext /\ lower ext = "pdf"
    /\ pdf_path file = "/app/input/" ++ file
    /\ output_path file = "/app/output/" ++ stem ++ ".json".
Proof.
  intros Hp Hrel. destruct (is_pdf_parts file Hp) as (stem & ext & -> & He).
  exists stem, ext. repeat split; [exact He | | now apply output_path_parts].
  unfold pdf_path, path_join.
  destruct (stem ++ String "."%char ext) as [|a r] eqn:E; [reflexivity|].
  destruct (Ascii.eqb a "/"%char) eqn:Ea.
  - apply Ascii.eqb_eq in Ea. subst a. exfalso. exact (Hrel _ eq_refl).
  - destruct a as [[] [] [] [] [] [] [] []]; try reflexivity. discriminate.
Qed.

Lemma output_path_of_pdf_witness :
  exists stem ext,
    "report.v2.PDF" = stem ++ String "."%char ext /\ lower ext = "pdf"
    /\ pdf_path "report.v2.PDF" = "/app/input/" ++ "report.v2.PDF"
    /\ output_path "report.v2.PDF" = "/app/output/" ++ stem ++ ".json".
Proof.
  apply (output_path_of_pdf "report.v2.PDF").
  - reflexivity.
  - intros r H. discriminate.
Defined.

(** X23.  Two processed names are written to the same output file exactly
    when they have the same stem, that is, when they differ at most in the
    letter case of the extension. *)
Theorem output_paths_collide (f g : string) :
  is_pdf f = true -> is_pdf g = true -> relative f -> relative g ->
  (output_path f = output_path g
   <-> exists stem e1 e2,
         f = stem ++ String "."%char e1 /\ g = stem ++ String "."%char e2
         /\ lower e1 = "pdf" /\ lower e2 = "pdf").
Proof.
  intros Hf Hg Rf Rg. split.
  - destruct (is_pdf_parts f Hf) as (s1 & x1 & -> & H1).
    destruct (is_pdf_parts g Hg) as (s2 & x2 & -> & H2).
    rewrite (output_path_parts s1 x1 Rf H1), (output_path_parts s2 x2 Rg H2).
    intros H. exists s1, x1, x2. repeat split; [|exact H1 | exact H2].
    cbn [append] in H. repeat injection H as H.
    apply app_inv_tail_str in H. now rewrite H.
  - intros (stem & e1 & e2 & -> & -> & H1 & H2).
    now rewrite (output_path_parts stem e1 Rf H1), (output_path_parts stem e2 Rg H2).
Qed.

Lemma output_paths_collide_witness :
  output_path "Plan.pdf" = output_path "Plan.PDF"
  <-> exists stem e1 e2,
        "Plan.pdf" = stem ++ String "."%char e1 /\ "Plan.PDF" = stem ++ String "."%char e2
        /\ lower e1 = "pdf" /\ lower e2 = "pdf".
Proof.
  apply (output_paths_collide "Plan.pdf" "Plan.PDF");
    try reflexivity; intros r H; discriminate.
Defined.

End BatchTheorems.

(** ** Tests of [is_heading_like] that decide nothing *)

Module HeadingExtras.

Import Text Re ReSpec TextFacts ReFacts Classify Spec SignalFacts BlocklistFacts HeadingFacts.
Local Open Scope char_scope.
Local Open Scope string_scope.

(** Where the first penalty applies the text does not end in a question
    mark. *)
Lemma stop_search_no_question (t : string) :
  py_search false (Cat (CSet false [CChar "."%char; CChar "!"%char]) Eol) (strip t) = true ->
  ends_with_char "?"%char (strip t) = false.
Proof.
  intros H. apply stop_search_last in H. destruct H as (c & Hc & [Hs | ->]).
  - apply last_of_some in Hc. destruct Hc as [u ->].
    rewrite ends_with_char_snoc.
    destruct (is_stop_cases c Hs) as [-> | ->]; reflexivity.
  - apply rstrip_last in Hc. discriminate.
Qed.

(** A text that starts with a lowercase letter gets no point. *)
Lemma lowercase_no_points (s : string) :
  first_islower s = true ->
  sum_points (fun p => py_match false p s) heading_indicators = 0%Z.
Proof.
  intros Hl. rewrite heading_points_sum.
  assert (G : forall i, (i < 5)%nat ->
                indicator_points s (nth i heading_indicators (Eps, 0%Z)) = 0%Z).
  { intros i Hi. unfold indicator_points.
    destruct (py_match false (fst (nth i heading_indicators (Eps, 0%Z))) s) eqn:E;
      [|reflexivity].
    destruct (indicator_first i s Hi E) as (c & u & -> & Hc). simpl in Hl.
    apply orb_prop in Hc. destruct Hc as [Hc|Hc].
    - rewrite (upper_not_lower c Hc) in Hl. discriminate.
    - rewrite (digit_not_lower c Hc) in Hl. discriminate. }
  rewrite !G by lia. reflexivity.
Qed.

(** X24.  Two tests of [is_heading_like] never change its result: the
    test that the text does not end in a question mark, made where the
    trimmed text was found to end in a full stop or an exclamation mark,
    and the penalty for a lowercase first letter, which applies only to
    texts that have no point to lose. *)
Theorem idle_heading_tests (t : string) :
  is_heading_like t = heading_like_plain t.
Proof.
  unfold is_heading_like, heading_like_plain.
  destruct (is_empty (strip t) || (MAX_HEADING_WORDS <? List.length (split (strip t)))%nat);
    [reflexivity|].
  destruct (py_search false (Cat (CSet false [CChar "."%char; CChar "!"%char]) Eol) (strip t))
    eqn:Es.
  - rewrite (stop_search_no_question t Es). cbn [negb andb].
    destruct (first_islower (strip t)) eqn:El.
    + rewrite (lowercase_no_points _ El).
      destruct (negb (is_empty (strip t)) && true
                && (3 <? List.length (split (strip t)))%nat); reflexivity.
    + now rewrite andb_false_r.
  - cbn [andb].
    destruct (first_islower (strip t)) eqn:El.
    + rewrite (lowercase_no_points _ El).
      destruct (negb (is_empty (strip t)) && true
                && (3 <? List.length (split (strip t)))%nat); reflexivity.
    + now rewrite andb_false_r.
Qed.

End HeadingExtras.

(** ** Texts without words *)

Module BlocklistExtras.

Import Text Re ReSpec TextFacts ReFacts Classify Spec SignalFacts BlocklistFacts.
Local Open Scope char_scope.
Local Open Scope string_scope.

Lemma roman_set (c : ascii) :
  set_match true false
    [CChar "i"; CChar "v"; CChar "x"; CChar "l"; CChar "c"; CChar "d"; CChar "m"] c
  = roman_letter c.
Proof. destruct c as [[] [] [] [] [] [] [] []]; vm_compute; reflexivity. Qed.

(** X25.  A text that holds, once trimmed, only digits (a page number),
    or no letter and no digit at all (a rule, a row of dots), is
    blocked. *)
Theorem no_letters_blocked (t : string) :
  all_chars is_digit (strip t) = true
  \/ all_chars (fun c => negb (is_digit c || is_upper c || is_lower c)) (strip t) = true ->
  is_blocked t = true.
Proof.
  intros [H|H].
  - destruct (strip t) as [|c s] eqn:E.
    + unfold is_blocked. now rewrite E.
    + apply digits_blocked; rewrite E; [discriminate | exact H].
  - now apply symbols_blocked.
Qed.

Lemma no_letters_blocked_witness :
  is_blocked " 17 " = true /\ is_blocked ". . . . ." = true.
Proof.
  split.
  - apply (no_letters_blocked " 17 "). left. reflexivity.
  - apply (no_letters_blocked ". . . . ."). right. reflexivity.
Defined.

(** X26.  A text made, once trimmed, only of the letters i, v, x, l, c, d
    and m, in any case, is blocked: the roman numerals, and with them
    words such as Civil or Mild. *)
Theorem roman_letters_blocked (t : string) :
  all_chars roman_letter (strip t) = true -> is_blocked t = true.
Proof.
  intros H. destruct (strip t) as [|c s] eqn:E.
  { unfold is_blocked. now rewrite E. }
  apply (blocked_by 1); [simpl; lia|].
  exists (last_of None (strip t)), EmptyString.
  cbv [nth BLOCKLIST_REGEX seq].
  econstructor; [constructor|].
  econstructor; [|now constructor].
  rewrite <- (append_nil_r (strip t)) at 1.
  apply plus_set_intro; [rewrite E; discriminate|].
  rewrite E, (all_chars_ext _ roman_letter); [exact H | apply roman_set].
Qed.

Lemma roman_letters_blocked_witness : is_blocked "Civil" = true.
Proof.
  apply (roman_letters_blocked "Civil"). reflexivity.
Defined.

End BlocklistExtras.

(** ** Style signatures *)

Module SignatureFacts.

Import Text Py PyFacts SortFacts Engine Spec TitleFacts ClusterFacts LevelFacts.
Local Open Scope Q_scope.













End SignatureFacts.

Module RankTheorems.

Import Text Py PyFacts SortFacts Engine Spec TitleFacts ClusterFacts LevelFacts
  SignatureFacts.
Local Open Scope Q_scope.


End RankTheorems.

(** ** Binary64: order and the scorer *)

Module FloatFacts.

Import Py PyFacts Float64 FloatEngine FloatSpec.
Local Open Scope Q_scope.

Ltac compare_cases :=
  repeat match goal with
  | H : context [Pos.compare_cont Eq ?a ?b] |- _ =>
      change (Pos.compare_cont Eq a b) with (Pos.compare a b) in H
  | |- context [Pos.compare_cont Eq ?a ?b] =>
      change (Pos.compare_cont Eq a b) with (Pos.compare a b)
  end;
  repeat match goal with
  | H : context [Z.compare ?a ?b] |- _ => destruct (Z.compare_spec a b); cbn in H
  | |- context [Z.compare ?a ?b] => destruct (Z.compare_spec a b); cbn
  | H : context [Pos.compare ?a ?b] |- _ => destruct (Pos.compare_spec a b); cbn in H
  | |- context [Pos.compare ?a ?b] => destruct (Pos.compare_spec a b); cbn
  end;
  try discriminate; try reflexivity; try congruence; try lia.

(** Comparing the other way round. *)
Lemma compare_swap (a b : float) :
  SpecFloat.SFcompare b a = option_map CompOpp (SpecFloat.SFcompare a b).
Proof.
  destruct a as [sa|sa| |sa ma ea], b as [sb|sb| |sb mb eb];
    try destruct sa; try destruct sb; cbn; try reflexivity; compare_cases.
Qed.

Lemma ltb_gt (a b : float) : ltb a b = true <-> gt b a.
Proof.
  unfold ltb, SpecFloat.SFltb, gt. rewrite (compare_swap a b).
  destruct (SpecFloat.SFcompare a b) as [[]|]; cbn; split; congruence.
Qed.

Lemma above_ltb (a b : float) : above a b = ltb b a.
Proof.
  unfold above, ltb, SpecFloat.SFltb. rewrite (compare_swap a b).
  destruct (SpecFloat.SFcompare a b) as [[]|]; reflexivity.
Qed.

Lemma gt_irrefl (a : float) : ~ gt a a.
Proof.
  unfold gt. destruct a as [sa|sa| |sa ma ea]; try destruct sa; cbn;
    try discriminate; compare_cases.
Qed.

(** [>] is transitive. *)
Lemma gt_trans (a b c : float) : gt a b -> gt b c -> gt a c.
Proof.
  unfold gt.
  destruct a as [sa|sa| |sa ma ea], b as [sb|sb| |sb mb eb], c as [sc|sc| |sc mc ec];
    try destruct sa; try destruct sb; try destruct sc; cbn;
    intros H1 H2; try discriminate; try reflexivity; compare_cases.
Qed.

(** The running maximum of [max]: it occurs, and no item seen is greater. *)
Lemma fold_max_inv (l pre : list float) (m0 : float) :
  In m0 pre -> (forall z, In z pre -> ~ gt z m0) ->
  let m := fold_left (fun m y => if ltb m y then y else m) l m0 in
  In m (pre ++ l) /\ forall z, In z (pre ++ l) -> ~ gt z m.
Proof.
  revert pre m0. induction l as [|y l IH]; intros pre m0 Hin Hub; cbn [fold_left].
  - rewrite app_nil_r. now split.
  - replace (pre ++ y :: l) with ((pre ++ [y]) ++ l) by (now rewrite <- app_assoc).
    apply IH.
    + destruct (ltb m0 y); apply in_or_app; [right; now left | now left].
    + intros z Hz. apply in_app_or in Hz.
      destruct (ltb m0 y) eqn:E.
      * apply ltb_gt in E. destruct Hz as [Hz|[<-|[]]].
        -- intros G. exact (Hub z Hz (gt_trans _ _ _ G E)).
        -- apply gt_irrefl.
      * destruct Hz as [Hz|[<-|[]]]; [now apply Hub|].
        intros G. apply ltb_gt in G. congruence.
Qed.

Lemma fold_min_inv (l pre : list float) (m0 : float) :
  In m0 pre -> (forall z, In z pre -> ~ gt m0 z) ->
  let m := fold_left (fun m y => if ltb y m then y else m) l m0 in
  In m (pre ++ l) /\ forall z, In z (pre ++ l) -> ~ gt m z.
Proof.
  revert pre m0. induction l as [|y l IH]; intros pre m0 Hin Hlb; cbn [fold_left].
  - rewrite app_nil_r. now split.
  - replace (pre ++ y :: l) with ((pre ++ [y]) ++ l) by (now rewrite <- app_assoc).
    apply IH.
    + destruct (ltb y m0); apply in_or_app; [right; now left | now left].
    + intros z Hz. apply in_app_or in Hz.
      destruct (ltb y m0) eqn:E.
      * apply ltb_gt in E. destruct Hz as [Hz|[<-|[]]].
        -- intros G. exact (Hlb z Hz (gt_trans _ _ _ E G)).
        -- apply gt_irrefl.
      * destruct Hz as [Hz|[<-|[]]]; [now apply Hlb|].
        intros G. apply ltb_gt in G. congruence.
Qed.

Lemma float_max_spec (l : list float) :
  l <> [] -> exists m, Float64.py_max l = Ok m /\ is_max m l.
Proof.
  destruct l as [|x l]; [congruence|]. intros _.
  eexists. split; [reflexivity|].
  apply (fold_max_inv l [x] x); [now left|].
  intros z [<-|[]]. apply gt_irrefl.
Qed.

Lemma float_min_spec (l : list float) :
  l <> [] -> exists m, Float64.py_min l = Ok m /\ is_min m l.
Proof.
  destruct l as [|x l]; [congruence|]. intros _.
  eexists. split; [reflexivity|].
  apply (fold_min_inv l [x] x); [now left|].
  intros z [<-|[]]. apply gt_irrefl.
Qed.

(** [sum] adds the items up. *)
Lemma py_sum_adds_up (l : list float) : adds_up l (Float64.py_sum l).
Proof.
  unfold Float64.py_sum. induction l as [|x l IH] using rev_ind.
  - constructor.
  - rewrite fold_left_app. cbn [fold_left]. now constructor.
Qed.

End FloatFacts.
Module RoundFacts.

Import Py PyFacts Float64 FloatSpec Rounding.
Local Open Scope Z_scope.

(** *** The number of binary digits *)

Lemma digits_bounds (p : positive) :
  2 ^ (Zpos (SpecFloat.digits2_pos p) - 1) <= Zpos p
  < 2 ^ Zpos (SpecFloat.digits2_pos p).
Proof.
  induction p as [p IH|p IH|]; cbn [SpecFloat.digits2_pos].
  - rewrite Pos2Z.inj_succ.
    replace (Z.succ (Zpos (SpecFloat.digits2_pos p)) - 1)
      with (Z.succ (Zpos (SpecFloat.digits2_pos p) - 1)) by lia.
    rewrite !Z.pow_succ_r by lia. lia.
  - rewrite Pos2Z.inj_succ.
    replace (Z.succ (Zpos (SpecFloat.digits2_pos p)) - 1)
      with (Z.succ (Zpos (SpecFloat.digits2_pos p) - 1)) by lia.
    rewrite !Z.pow_succ_r by lia. lia.
  - cbn. lia.
Qed.

(** A number that reaches [2 ^ (k - 1)] has at least [k] digits. *)
Lemma digits_ge (p : positive) (k : Z) :
  2 ^ (k - 1) <= Zpos p -> k <= Zpos (SpecFloat.digits2_pos p).
Proof.
  intros H. destruct (Z.le_gt_cases k (Zpos (SpecFloat.digits2_pos p))) as [L|L];
    [exact L|exfalso].
  pose proof (digits_bounds p) as [_ B].
  assert (2 ^ Zpos (SpecFloat.digits2_pos p) <= 2 ^ (k - 1))
    by (apply Z.pow_le_mono_r; lia).
  lia.
Qed.

Lemma digits_mono (p q : positive) :
  (p <= q)%positive -> Zpos (SpecFloat.digits2_pos p) <= Zpos (SpecFloat.digits2_pos q).
Proof.
  intros H. apply digits_ge. pose proof (digits_bounds p). lia.
Qed.

(** *** Shifting to the left *)

Lemma iter_xO_value (m d : positive) : Zpos (Pos.iter xO m d) = Zpos m * 2 ^ Zpos d.
Proof.
  induction d as [|d IH] using Pos.peano_ind.
  - cbn. lia.
  - rewrite Pos.iter_succ, Pos2Z.inj_succ, Z.pow_succ_r by lia.
    rewrite Pos2Z.inj_xO, IH. lia.
Qed.

Lemma iter_xO_digits (m d : positive) :
  Zpos (SpecFloat.digits2_pos (Pos.iter xO m d))
  = Zpos (SpecFloat.digits2_pos m) + Zpos d.
Proof.
  induction d as [|d IH] using Pos.peano_ind.
  - cbn [Pos.iter SpecFloat.digits2_pos]. lia.
  - rewrite Pos.iter_succ. cbn [SpecFloat.digits2_pos]. lia.
Qed.

(** What [shl_align] yields: the same number on an exponent that is not
    larger. *)
Lemma shl_align_spec (m : positive) (e e' : Z) :
  let r := SpecFloat.shl_align m e e' in
  snd r <= e
  /\ Zpos (fst r) = Zpos m * 2 ^ (e - snd r)
  /\ Zpos (SpecFloat.digits2_pos (fst r)) + snd r
     = Zpos (SpecFloat.digits2_pos m) + e
  /\ (e' <= e -> snd r = e').
Proof.
  unfold SpecFloat.shl_align. destruct (e' - e) as [|d|d] eqn:E; cbn [fst snd].
  - repeat split; try lia. rewrite Z.sub_diag. cbn. lia.
  - repeat split; try lia. rewrite Z.sub_diag. cbn. lia.
  - assert (Ed : e - e' = Zpos d) by lia.
    repeat split; try lia.
    + rewrite Ed. apply iter_xO_value.
    + rewrite iter_xO_digits. lia.
Qed.

(** *** Shifting to the right *)

Lemma shr_1_m (r : SpecFloat.shr_record) :
  0 <= SpecFloat.shr_m r ->
  SpecFloat.shr_m (SpecFloat.shr_1 r) = SpecFloat.shr_m r / 2.
Proof.
  destruct r as [m r s]. cbn [SpecFloat.shr_m]. intros H. unfold SpecFloat.shr_1.
  destruct m as [|[p|p|]|p]; cbn [SpecFloat.shr_m]; try lia.
  - reflexivity.
  - apply Z.div_unique with (r := 1); lia.
  - apply Z.div_unique with (r := 0); lia.
  - reflexivity.
Qed.

Lemma shr_1_digits (k : Z) (r : SpecFloat.shr_record) :
  has_digits k r -> has_digits (k - 1) (SpecFloat.shr_1 r).
Proof.
  intros [H0 Hk]. unfold has_digits. rewrite shr_1_m by exact H0. split.
  - apply Z.div_pos; lia.
  - intros H1. specialize (Hk ltac:(lia)).
    replace (k - 1) with (Z.succ (k - 1 - 1)) in Hk by lia.
    rewrite Z.pow_succ_r in Hk by lia.
    apply Z.div_le_lower_bound; lia.
Qed.

Lemma iter_pos_digits (n : positive) (k : Z) (r : SpecFloat.shr_record) :
  has_digits k r -> has_digits (k - Zpos n) (SpecFloat.iter_pos SpecFloat.shr_1 n r).
Proof.
  revert k r. induction n as [n IH|n IH|]; intros k r H; cbn [SpecFloat.iter_pos].
  - replace (k - Zpos n~1) with (k - 1 - Zpos n - Zpos n) by lia.
    apply IH, IH, shr_1_digits, H.
  - replace (k - Zpos n~0) with (k - Zpos n - Zpos n) by lia.
    apply IH, IH, H.
  - now apply shr_1_digits.
Qed.

(** After [shr_fexp] a positive mantissa whose number lies above the
    smallest exponent stays positive, on an exponent that is not smaller,
    and the number keeps its order of magnitude. *)
Lemma shr_fexp_positive (m : positive) (e : Z) (l : SpecFloat.location) :
  let D := Zpos (SpecFloat.digits2_pos m) in
  SpecFloat.emin prec emax < D + e ->
  let r := SpecFloat.shr_fexp prec emax (Zpos m) e l in
  exists m', SpecFloat.shr_m (fst r) = Zpos m'
             /\ D + e <= Zpos (SpecFloat.digits2_pos m') + snd r.
Proof.
  intros D HD. unfold SpecFloat.shr_fexp, SpecFloat.shr. cbn [SpecFloat.Zdigits2].
  fold D.
  assert (Hm : SpecFloat.shr_m (SpecFloat.shr_record_of_loc (Zpos m) l) = Zpos m)
    by (destruct l as [|[]]; reflexivity).
  destruct (SpecFloat.fexp prec emax (D + e) - e) as [|n|n] eqn:En; cbn [fst snd].
  - exists m. split; [exact Hm | fold D; lia].
  - assert (Hn : Zpos n < D).
    { unfold SpecFloat.fexp in En. unfold prec in *. lia. }
    pose proof (iter_pos_digits n D (SpecFloat.shr_record_of_loc (Zpos m) l)) as [H0 Hk].
    { split; rewrite Hm; [lia|]. intros _. apply digits_bounds. }
    specialize (Hk ltac:(lia)).
    destruct (SpecFloat.shr_m
                (SpecFloat.iter_pos SpecFloat.shr_1 n
                   (SpecFloat.shr_record_of_loc (Zpos m) l))) as [|m'|m'] eqn:Em.
    + exfalso. assert (0 < 2 ^ (D - Zpos n - 1)) by (apply Z.pow_pos_nonneg; lia). lia.
    + exists m'. split; [reflexivity|].
      pose proof (digits_ge m' (D - Zpos n) Hk). lia.
    + lia.
  - exists m. split; [exact Hm | fold D; lia].
Qed.

(** *** Rounding *)

Lemma binary_round_aux_signed (s : bool) (m e : Z) (l : SpecFloat.location) :
  signed s (SpecFloat.binary_round_aux prec emax s m e l).
Proof.
  unfold SpecFloat.binary_round_aux.
  destruct (SpecFloat.shr_fexp prec emax m e l) as [mrs' e'].
  destruct (SpecFloat.shr_fexp prec emax _ e' SpecFloat.loc_Exact) as [mrs'' e''].
  destruct (SpecFloat.shr_m mrs''); [reflexivity | | exact I].
  destruct (e'' <=? emax - prec); reflexivity.
Qed.

Lemma binary_round_signed (s : bool) (m : positive) (e : Z) :
  signed s (SpecFloat.binary_round prec emax s m e).
Proof.
  unfold SpecFloat.binary_round.
  destruct (SpecFloat.shl_align m e _) as [mz ez]. apply binary_round_aux_signed.
Qed.

(** A number above the smallest exponent does not round to zero. *)
Lemma binary_round_aux_nonzero (s : bool) (m : positive) (e : Z)
    (l : SpecFloat.location) :
  SpecFloat.emin prec emax < Zpos (SpecFloat.digits2_pos m) + e ->
  is_zero (SpecFloat.binary_round_aux prec emax s (Zpos m) e l) = false.
Proof.
  intros HD. unfold SpecFloat.binary_round_aux.
  pose proof (shr_fexp_positive m e l HD) as (m1 & E1 & H1).
  destruct (SpecFloat.shr_fexp prec emax (Zpos m) e l) as [mrs' e'].
  cbn [fst snd] in E1, H1. rewrite E1.
  assert (Hr : exists m2,
             SpecFloat.round_nearest_even (Zpos m1) (SpecFloat.loc_of_shr_record mrs')
             = Zpos m2 /\ (m1 <= m2)%positive).
  { unfold SpecFloat.round_nearest_even.
    destruct (SpecFloat.loc_of_shr_record mrs') as [|[]].
    - exists m1. split; [reflexivity | lia].
    - destruct (Z.even (Zpos m1)).
      + exists m1. split; [reflexivity | lia].
      + exists (m1 + 1)%positive. split; [reflexivity | lia].
    - exists m1. split; [reflexivity | lia].
    - exists (m1 + 1)%positive. split; [reflexivity | lia]. }
  destruct Hr as (m2 & -> & H2).
  pose proof (digits_mono m1 m2 H2) as Hd.
  pose proof (shr_fexp_positive m2 e' SpecFloat.loc_Exact ltac:(lia)) as (m3 & E3 & _).
  destruct (SpecFloat.shr_fexp prec emax (Zpos m2) e' SpecFloat.loc_Exact) as [mrs'' e''].
  cbn [fst] in E3. rewrite E3.
  destruct (e'' <=? emax - prec); reflexivity.
Qed.

Lemma binary_round_nonzero (s : bool) (m : positive) (e : Z) :
  SpecFloat.emin prec emax < Zpos (SpecFloat.digits2_pos m) + e ->
  is_zero (SpecFloat.binary_round prec emax s m e) = false.
Proof.
  intros HD. unfold SpecFloat.binary_round.
  pose proof (shl_align_spec m e
                (SpecFloat.fexp prec emax (Zpos (SpecFloat.digits2_pos m) + e)))
    as (_ & _ & Hdig & _).
  destruct (SpecFloat.shl_align m e _) as [mz ez]. cbn [fst snd] in Hdig.
  apply binary_round_aux_nonzero. lia.
Qed.

(** [float(n)] is not zero for a positive integer [n]. *)
Lemma of_Z_nonzero (z : Z) : 0 < z -> is_zero (of_Z z) = false.
Proof.
  intros H. destruct z as [|p|p]; try lia.
  unfold of_Z, SpecFloat.binary_normalize. apply binary_round_nonzero.
  unfold SpecFloat.emin, prec, emax. lia.
Qed.

(** *** Sums and differences *)

(** The sum of two positive numbers is not zero when one of them lies
    above the smallest exponent. *)
Lemma add_positive_nonzero (m m' : positive) (e e' : Z) :
  SpecFloat.emin prec emax < Zpos (SpecFloat.digits2_pos m') + e' ->
  is_zero (add (SpecFloat.S754_finite false m e) (SpecFloat.S754_finite false m' e'))
  = false.
Proof.
  intros HD. unfold add, SpecFloat.SFadd. cbv zeta.
  pose proof (shl_align_spec m' e' (Z.min e e')) as (_ & _ & Hdig & He).
  specialize (He ltac:(lia)).
  destruct (SpecFloat.shl_align m e (Z.min e e')) as [a ea].
  destruct (SpecFloat.shl_align m' e' (Z.min e e')) as [b eb].
  cbn [fst snd SpecFloat.cond_Zopp] in *.
  change (Zpos a + Zpos b) with (Zpos (a + b)).
  unfold SpecFloat.binary_normalize. apply binary_round_nonzero.
  assert (Hm : (b <= a + b)%positive) by lia.
  pose proof (digits_mono b (a + b) Hm). lia.
Qed.

Lemma eps_value :
  literal 1 1000000 = SpecFloat.S754_finite false 4722366482869645 (-72).
Proof. vm_compute. reflexivity. Qed.

(** Adding [1e-6] to such a number never gives zero. *)
Lemma add_eps_nonzero (x : float) :
  not_negative x -> is_zero (add x (literal 1 1000000)) = false.
Proof.
  rewrite eps_value. destruct x as [s|s| |[] m e]; cbn [not_negative]; intros H.
  - reflexivity.
  - destruct s; reflexivity.
  - reflexivity.
  - destruct H.
  - apply add_positive_nonzero. vm_compute. reflexivity.
Qed.

(** *** Differences of ordered numbers *)

(** A float as the machine has it: the mantissa on its canonical exponent. *)
Lemma valid_finite (s : bool) (m : positive) (e : Z) :
  SpecFloat.valid_binary prec emax (SpecFloat.S754_finite s m e) = true ->
  Zpos (SpecFloat.digits2_pos m) <= 53
  /\ -1074 <= e
  /\ (-1074 < e -> Zpos (SpecFloat.digits2_pos m) = 53).
Proof.
  cbn [SpecFloat.valid_binary]. unfold SpecFloat.bounded, SpecFloat.canonical_mantissa.
  intros H. apply andb_prop in H. destruct H as [H _]. apply Z.eqb_eq in H.
  unfold SpecFloat.fexp, SpecFloat.emin, prec, emax in H. lia.
Qed.

(** On a common exponent the mantissas are ordered as the numbers are. *)
Lemma aligned_le (m1 m2 : positive) (e1 e2 ez : Z) (s1 s2 : bool) :
  SpecFloat.valid_binary prec emax (SpecFloat.S754_finite s1 m1 e1) = true ->
  SpecFloat.valid_binary prec emax (SpecFloat.S754_finite s2 m2 e2) = true ->
  ez <= e1 -> ez <= e2 ->
  e1 < e2 \/ (e1 = e2 /\ (m1 <= m2)%positive) ->
  Zpos (fst (SpecFloat.shl_align m1 e1 ez)) <= Zpos (fst (SpecFloat.shl_align m2 e2 ez)).
Proof.
  intros V1 V2 L1 L2 H.
  pose proof (shl_align_spec m1 e1 ez) as (_ & A1 & _ & S1).
  pose proof (shl_align_spec m2 e2 ez) as (_ & A2 & _ & S2).
  rewrite A1, A2, (S1 L1), (S2 L2).
  destruct H as [H|[-> H]].
  - apply valid_finite in V1. apply valid_finite in V2.
    destruct V1 as (D1 & E1 & _). destruct V2 as (_ & _ & D2).
    specialize (D2 ltac:(lia)).
    pose proof (digits_bounds m1) as [_ B1]. pose proof (digits_bounds m2) as [B2 _].
    rewrite D2 in B2.
    assert (B1' : Zpos m1 < 2 ^ 53).
    { eapply Z.lt_le_trans; [exact B1|]. apply Z.pow_le_mono_r; lia. }
    replace (e2 - ez) with ((e2 - e1) + (e1 - ez)) by lia.
    rewrite Z.pow_add_r by lia.
    assert (P : 0 < 2 ^ (e1 - ez)) by (apply Z.pow_pos_nonneg; lia).
    assert (Q : 2 ^ 1 <= 2 ^ (e2 - e1)) by (apply Z.pow_le_mono_r; lia).
    change (2 ^ 1) with 2 in Q. change (2 ^ (53 - 1)) with 4503599627370496 in B2.
    change (2 ^ 53) with 9007199254740992 in B1'.
    rewrite Z.mul_assoc. apply Z.mul_le_mono_nonneg_r; [lia|]. nia.
  - apply Z.mul_le_mono_nonneg_r; [apply Z.pow_nonneg; lia | lia].
Qed.

Lemma signed_not_negative (x : float) : signed false x -> not_negative x.
Proof. destruct x as [s|s| |[] m e]; cbn; intros H; try exact I. discriminate. Qed.

Lemma normalize_not_negative (z e : Z) :
  0 <= z -> not_negative (SpecFloat.binary_normalize prec emax z e false).
Proof.
  intros H. destruct z as [|p|p]; [exact I | | lia].
  apply signed_not_negative. apply binary_round_signed.
Qed.

(** The difference of two floats of which the second is not greater is
    not negative. *)
Lemma sub_finite_not_negative (sh sl : bool) (mh ml : positive) (eh el : Z) :
  SpecFloat.valid_binary prec emax (SpecFloat.S754_finite sh mh eh) = true ->
  SpecFloat.valid_binary prec emax (SpecFloat.S754_finite sl ml el) = true ->
  ~ gt (SpecFloat.S754_finite sl ml el) (SpecFloat.S754_finite sh mh eh) ->
  not_negative (sub (SpecFloat.S754_finite sh mh eh) (SpecFloat.S754_finite sl ml el)).
Proof.
  intros Vh Vl Hgt. unfold gt in Hgt.
  unfold sub, SpecFloat.SFsub. cbv zeta. apply normalize_not_negative.
  assert (Lh : Z.min eh el <= eh) by lia. assert (Ll : Z.min eh el <= el) by lia.
  destruct sh, sl; cbn [SpecFloat.cond_Zopp].
  - (* both negative *)
    assert (H : eh < el \/ (eh = el /\ (mh <= ml)%positive)).
    { cbn in Hgt.
      change (Pos.compare_cont Eq ml mh) with (Pos.compare ml mh) in Hgt.
      destruct (Z.compare_spec el eh) as [E|E|E];
        [|exfalso; apply Hgt; reflexivity | left; lia].
      right. split; [lia|].
      destruct (Pos.compare_spec ml mh) as [E'|E'|E']; cbn in Hgt;
        [lia | exfalso; apply Hgt; reflexivity | lia]. }
    pose proof (aligned_le mh ml eh el (Z.min eh el) true true Vh Vl Lh Ll H).
    lia.
  - exfalso. apply Hgt. reflexivity.
  - lia.
  - (* both positive *)
    assert (H : el < eh \/ (el = eh /\ (ml <= mh)%positive)).
    { cbn in Hgt.
      change (Pos.compare_cont Eq ml mh) with (Pos.compare ml mh) in Hgt.
      destruct (Z.compare_spec el eh) as [E|E|E];
        [|left; lia | exfalso; apply Hgt; reflexivity].
      right. split; [lia|].
      destruct (Pos.compare_spec ml mh) as [E'|E'|E']; cbn in Hgt;
        [lia | lia | exfalso; apply Hgt; reflexivity]. }
    pose proof (aligned_le ml mh el eh (Z.min eh el) false false Vl Vh Ll Lh H).
    lia.
Qed.

Lemma sub_not_negative (hi lo : float) :
  SpecFloat.valid_binary prec emax hi = true ->
  SpecFloat.valid_binary prec emax lo = true ->
  ~ gt lo hi -> not_negative (sub hi lo).
Proof.
  intros Vh Vl Hgt.
  destruct hi as [sh|sh| |sh mh eh], lo as [sl|sl| |sl ml el];
    try (now apply sub_finite_not_negative);
    unfold gt in Hgt; try destruct sh; try destruct sl; cbn; try exact I;
    exfalso; apply Hgt; reflexivity.
Qed.

End RoundFacts.
(** ** The heading scorer in binary64 *)

Module FloatScorerFacts.

Import Py PyFacts Float64 FloatEngine FloatSpec FloatFacts Rounding RoundFacts.
Local Open Scope Q_scope.

Lemma thresholds :
  literal 5 10 = literal 1 2 /\ literal 2 10 = literal 1 5
  /\ MAX_HEADING_DENSITY = literal 3 5.
Proof. repeat split; vm_compute; reflexivity. Qed.

Lemma float_size_points_bucket (r : float) : size_points r = size_bucket r.
Proof.
  unfold size_points, size_bucket. rewrite !above_ltb.
  destruct thresholds as (-> & -> & _). reflexivity.
Qed.

(** With a divisor that is not zero the score accumulated by the loop
    body is the total of the specification. *)
Lemma float_heading_score_total (avg range : float) (e : Element) :
  is_zero (add range (literal 1 1000000)) = false ->
  heading_score avg range e = Ok (total_score avg range e).
Proof.
  intros H. unfold heading_score, Float64.py_div. rewrite H. cbn [bind].
  unfold total_score, size_ratio, Spec.bonus, length_points, below.
  rewrite float_size_points_bucket. destruct thresholds as (_ & _ & ->). reflexivity.
Qed.

Lemma float_scorer_loop (avg range : float) (elements : list Element) (acc : list Candidate) :
  is_zero (add range (literal 1 1000000)) = false ->
  for_each (fun candidates e =>
              if is_paragraph e then Ok candidates
              else
                score <- heading_score avg range e ;;
                if Qle_bool HEADING_SCORE_THRESHOLD score
                then Ok (candidates ++ [{| elem := e; score := score |}])
                else Ok candidates)
    elements acc
  = Ok (acc ++ map (scored avg range)
                 (filter (fun e => negb (is_paragraph e)
                                   && Qle_bool 5 (total_score avg range e))
                    elements)).
Proof.
  intros Hr. revert acc.
  induction elements as [|e es IH]; intros acc; simpl.
  - now rewrite app_nil_r.
  - destruct (is_paragraph e); simpl.
    + apply IH.
    + rewrite float_heading_score_total by exact Hr. simpl.
      unfold HEADING_SCORE_THRESHOLD.
      destruct (Qle_bool 5 (total_score avg range e)); simpl.
      * rewrite IH, <- app_assoc. reflexivity.
      * apply IH.
Qed.

Lemma float_sizes_nonempty (elements : list Element) :
  (exists e, In e elements /\ is_paragraph e = false) ->
  non_paragraph_sizes elements <> [].
Proof.
  intros [e [Hin Hp]] E. unfold non_paragraph_sizes in E.
  apply map_eq_nil in E.
  assert (Hf : In e (filter (fun e => negb (is_paragraph e)) elements)).
  { apply filter_In. split; [exact Hin | now rewrite Hp]. }
  rewrite E in Hf. exact Hf.
Qed.

Lemma sizes_valid (elements : list Element) (x : float) :
  Forall (fun e => valid (font_size e) = true) elements ->
  In x (non_paragraph_sizes elements) -> valid x = true.
Proof.
  intros Hv Hin. unfold non_paragraph_sizes in Hin. apply in_map_iff in Hin.
  destruct Hin as (e & <- & He). apply filter_In in He. destruct He as [He _].
  rewrite Forall_forall in Hv. now apply Hv.
Qed.

(** The divisor of the size ratio is never zero. *)
Lemma divisor_not_zero (l : list float) (hi lo : float) :
  (forall x, In x l -> valid x = true) ->
  is_max hi l -> is_min lo l ->
  is_zero (add (sub hi lo) (literal 1 1000000)) = false.
Proof.
  intros Hv [Hh Hub] [Hl _]. apply add_eps_nonzero. apply sub_not_negative.
  - exact (Hv hi Hh).
  - exact (Hv lo Hl).
  - exact (Hub lo Hl).
Qed.

(** What [process_headings] returns when some line is not a paragraph. *)
Lemma float_process_headings_spec (elements : list Element) :
  (exists e, In e elements /\ is_paragraph e = false) ->
  Forall (fun e => valid (font_size e) = true) elements ->
  exists avg hi lo,
    is_mean avg (non_paragraph_sizes elements)
    /\ is_max hi (non_paragraph_sizes elements)
    /\ is_min lo (non_paragraph_sizes elements)
    /\ process_headings elements
       = Ok (map (scored avg (sub hi lo))
               (filter (fun e => negb (is_paragraph e)
                                 && Qle_bool 5 (total_score avg (sub hi lo) e))
                  elements)).
Proof.
  intros Hex Hv. pose proof (float_sizes_nonempty elements Hex) as Hne.
  destruct (float_max_spec _ Hne) as [hi [Ehi Hhi]].
  destruct (float_min_spec _ Hne) as [lo [Elo Hlo]].
  exists (div (Float64.py_sum (non_paragraph_sizes elements))
            (of_Z (Z.of_nat (List.length (non_paragraph_sizes elements))))), hi, lo.
  split; [eexists; split; [apply py_sum_adds_up | reflexivity]|].
  split; [exact Hhi|]. split; [exact Hlo|].
  unfold process_headings.
  destruct elements as [|e0 es]; [destruct Hex as [e [[] _]]|].
  fold (non_paragraph_sizes (e0 :: es)).
  destruct (non_paragraph_sizes (e0 :: es)) as [|s0 ss] eqn:Es; [congruence|].
  unfold Float64.py_div at 1.
  rewrite of_Z_nonzero by (cbn [List.length]; lia).
  cbn [bind]. rewrite Ehi, Elo. cbn [bind].
  rewrite float_scorer_loop; [reflexivity|].
  apply (divisor_not_zero (s0 :: ss)); [|exact Hhi | exact Hlo].
  intros x Hx. apply (sizes_valid (e0 :: es)); [exact Hv|]. now rewrite Es.
Qed.

End FloatScorerFacts.

Module FloatTheorems.

Import Py PyFacts Float64 FloatEngine FloatSpec FloatFacts Rounding RoundFacts FloatScorerFacts.
Local Open Scope Q_scope.



(** The three sample lines: the small one has a total of 4 and is
    dropped, the others are kept with 5 and 7. *)
Example binary64_boundary :
  process_headings [FloatSamples.small_line; FloatSamples.centred_line;
                    FloatSamples.large_line]
  = Ok [{| elem := FloatSamples.centred_line; score := 5 |};
        {| elem := FloatSamples.large_line; score := 7 |}].
Proof. vm_compute. reflexivity. Qed.


End FloatTheorems.

(** ** What size can and cannot decide *)

Module FloatExtras.

Import Py PyFacts Float64 FloatEngine FloatSpec FloatFacts Rounding RoundFacts FloatScorerFacts.
Local Open Scope Q_scope.

Lemma float_total_score_split (avg range : float) (e : Element) :
  total_score avg range e
  == size_bucket (size_ratio avg range e) + bonus_points e.
Proof. unfold total_score, bonus_points. ring. Qed.

Lemma float_size_bucket_bounds (r : float) : 0 <= size_bucket r <= 3.
Proof.
  unfold size_bucket.
  destruct (above r (literal 1 2)); [split; discriminate|].
  destruct (above r (literal 1 5)); [split; discriminate|].
  destruct (above r zero); split; discriminate.
Qed.

(** Without any non-paragraph line there are no candidates. *)
Lemma float_process_headings_none (elements : list Element) :
  non_paragraph_sizes elements = [] -> process_headings elements = Ok [].
Proof.
  intros E. unfold process_headings. destruct elements; [reflexivity|].
  fold (non_paragraph_sizes (e :: elements)). now rewrite E.
Qed.

Lemma some_non_paragraph (elements : list Element) :
  non_paragraph_sizes elements <> [] ->
  exists e, In e elements /\ is_paragraph e = false.
Proof.
  unfold non_paragraph_sizes. intros H.
  destruct (filter (fun e => negb (is_paragraph e)) elements) as [|e l] eqn:Ef;
    [now destruct H|].
  assert (Hin : In e (filter (fun e => negb (is_paragraph e)) elements))
    by (rewrite Ef; now left).
  apply filter_In in Hin. destruct Hin as [Hin Hp].
  exists e. split; [exact Hin|]. now destruct (is_paragraph e).
Qed.

(** X8.  Size alone neither makes nor unmakes a heading candidate, and
    this does not depend on how the size ratio rounds: the size points
    are between 0 and 3, so a non-paragraph line whose six bonuses add up
    to 5 or more is kept whatever the font sizes are, and one whose
    bonuses stay below 2 is dropped whatever they are.  Every candidate's
    score is its bonuses plus at most 3.  The font sizes are floats as the
    machine holds them, the infinities and NaN included. *)
Theorem bonuses_bound_the_decision (elements : list Element) :
  Forall (fun e => valid (font_size e) = true) elements ->
  exists candidates,
    process_headings elements = Ok candidates
    /\ (forall c, In c candidates ->
          In (elem c) elements /\ is_paragraph c = false
          /\ bonus_points c <= score c <= bonus_points c + 3)
    /\ forall e, In e elements -> is_paragraph e = false ->
         (5 <= bonus_points e -> In e (map elem candidates))
         /\ (bonus_points e < 2 -> ~ In e (map elem candidates)).
Proof.
  intros Hv. destruct (non_paragraph_sizes elements) as [|s ss] eqn:Es.
  - exists []. split; [now apply float_process_headings_none|].
    split; [intros c []|]. intros e Hin Hp. exfalso.
    assert (H : In (font_size e) (non_paragraph_sizes elements)).
    { unfold non_paragraph_sizes. apply in_map, filter_In. split; [exact Hin|].
      now rewrite Hp. }
    rewrite Es in H. exact H.
  - assert (Hex : exists e, In e elements /\ is_paragraph e = false)
      by (apply some_non_paragraph; congruence).
    destruct (float_process_headings_spec elements Hex Hv) as (avg & hi & lo & _ & _ & _ & E).
    eexists. split; [exact E|].
    assert (Hmap : forall l, map elem (map (scored avg (sub hi lo)) l) = l).
    { intros l. rewrite map_map. simpl. apply map_id. }
    split.
    + intros c Hc. apply in_map_iff in Hc. destruct Hc as (e & <- & He).
      apply filter_In in He. destruct He as [He Hk].
      apply andb_prop in Hk. destruct Hk as [Hp _].
      cbn [scored elem score].
      split; [exact He|]. split; [now destruct (is_paragraph e)|].
      rewrite float_total_score_split.
      pose proof (float_size_bucket_bounds (size_ratio avg (sub hi lo) e)). split; lra.
    + intros e Hin Hp. rewrite Hmap.
      pose proof (float_size_bucket_bounds (size_ratio avg (sub hi lo) e)) as Hb.
      pose proof (float_total_score_split avg (sub hi lo) e) as Ht. split.
      * intros H. apply filter_In. split; [exact Hin|]. rewrite Hp. simpl.
        apply Qle_bool_iff. lra.
      * intros H Hk. apply filter_In in Hk. destruct Hk as [_ Hk].
        apply andb_prop in Hk. destruct Hk as [_ Hk].
        apply Qle_bool_iff in Hk. lra.
Qed.

Lemma bonuses_bound_the_decision_witness :
  exists candidates,
    process_headings [FloatSamples.small_line; FloatSamples.centred_line] = Ok candidates
    /\ (forall c, In c candidates ->
          In (elem c) [FloatSamples.small_line; FloatSamples.centred_line]
          /\ is_paragraph c = false
          /\ bonus_points c <= score c <= bonus_points c + 3)
    /\ forall e, In e [FloatSamples.small_line; FloatSamples.centred_line] ->
         is_paragraph e = false ->
         (5 <= bonus_points e -> In e (map elem candidates))
         /\ (bonus_points e < 2 -> ~ In e (map elem candidates)).
Proof.
  apply (bonuses_bound_the_decision [FloatSamples.small_line; FloatSamples.centred_line]).
  repeat constructor.
Defined.

(** X9.  In binary64 the scorer raises on no list of lines whose font
    sizes are floats as the machine holds them, the infinities and NaN
    included: the number of sizes it divides the sum by is not zero, and
    the divisor of the size ratio, the largest size minus the smallest
    plus 1e-6, never rounds to zero, since the difference is not
    negative. *)
Theorem binary64_scorer_returns (elements : list Element) :
  Forall (fun e => valid (font_size e) = true) elements ->
  (exists candidates, process_headings elements = Ok candidates)
  /\ (is_zero (of_Z (Z.of_nat (List.length (non_paragraph_sizes elements)))) = false
      \/ non_paragraph_sizes elements = [])
  /\ forall hi lo,
       is_max hi (non_paragraph_sizes elements) ->
       is_min lo (non_paragraph_sizes elements) ->
       is_zero (add (sub hi lo) (literal 1 1000000)) = false.
Proof.
  intros Hv. split; [|split].
  - destruct (non_paragraph_sizes elements) as [|s ss] eqn:Es.
    + exists []. now apply float_process_headings_none.
    + assert (Hex : exists e, In e elements /\ is_paragraph e = false)
        by (apply some_non_paragraph; congruence).
      destruct (float_process_headings_spec elements Hex Hv) as (avg & hi & lo & _ & _ & _ & E).
      eexists. exact E.
  - destruct (non_paragraph_sizes elements) as [|s ss]; [now right | left].
    apply of_Z_nonzero. cbn [List.length]. lia.
  - intros hi lo Hh Hl. apply (divisor_not_zero (non_paragraph_sizes elements));
      [|exact Hh | exact Hl].
    intros x Hx. exact (sizes_valid elements x Hv Hx).
Qed.

Lemma binary64_scorer_returns_witness :
  (exists candidates,
      process_headings [FloatSamples.bold_line; FloatSamples.large_line] = Ok candidates)
  /\ (is_zero (of_Z (Z.of_nat (List.length
                (non_paragraph_sizes [FloatSamples.bold_line; FloatSamples.large_line]))))
      = false
      \/ non_paragraph_sizes [FloatSamples.bold_line; FloatSamples.large_line] = [])
  /\ forall hi lo,
       is_max hi (non_paragraph_sizes [FloatSamples.bold_line; FloatSamples.large_line]) ->
       is_min lo (non_paragraph_sizes [FloatSamples.bold_line; FloatSamples.large_line]) ->
       is_zero (add (sub hi lo) (literal 1 1000000)) = false.
Proof.
  apply (binary64_scorer_returns [FloatSamples.bold_line; FloatSamples.large_line]).
  repeat constructor.
Defined.

End FloatExtras.
